(** * A shallow embedding of the shell core (src/lab.c)

    The C functions of [lab.c] are embedded as computations over an explicit
    process state: a block-structured heap for everything obtained from
    [malloc], the environment, the hidden static pointer of [strtok], the
    current working directory and a trace of the system calls and diagnostics
    the process emitted.  A computation either returns, terminates the process
    through [exit], or does not complete: it faults (behaviour the C standard
    leaves undefined), or the process is stopped by a job-control signal.

    Conventions of the model:
    - memory is a finite map from blocks to lists of cells; a pointer is null
      or a block with an offset; reading or writing outside a live block, and
      freeing anything but the start of a live block, is a fault;
    - the heap is unbounded, so [malloc], [realloc] and [strdup] never return
      null; the null checks of the source are kept where the source has them;
    - an [int] is a [Z] kept within [INT_MIN, INT_MAX]; signed overflow is a
      fault;
    - string literals and the values of the environment live in static
      storage and are handled by their contents;
    - a [struct shell *] is null ([None]) or designates a session, whose
      fields a function returns updated;
    - a loop is a recursion on a bound computed from the memory it scans;
      exceeding the bound is the fault [OutOfFuel], which the theorems rule
      out. *)

From Stdlib Require Import ZArith Ascii String List Lia Bool.
From stdpp Require Import gmap strings list fin_maps.
Import ListNotations.
Open Scope list_scope.

(** ** Characters and C strings *)

(** The contents of a C string: the characters before the terminating NUL. *)
Definition cstring := list ascii.

(** A string literal of the source, as the characters it denotes. *)
Definition lit (s : string) : cstring := list_ascii_of_string s.
Arguments lit s : simpl never.

Definition NUL : ascii := "000"%char.

Definition is_nul (c : ascii) : bool := Ascii.eqb c NUL.

(** A well-formed C string content holds no NUL. *)
Definition cstr_ok (s : cstring) : bool := forallb (fun c => negb (is_nul c)) s.

(** [isspace] in the "C" locale (the program never calls [setlocale]):
    space, \t, \n, \v, \f, \r. *)
Definition isspace (c : ascii) : bool :=
  let n := nat_of_ascii c in
  Nat.eqb n 32 || (Nat.leb 9 n && Nat.leb n 13).

(** Membership of a character in a delimiter set, as [strchr] finds it. *)
Definition in_set (c : ascii) (set : cstring) : bool :=
  existsb (Ascii.eqb c) set.
Arguments in_set c set : simpl never.

(** The delimiter set the tokenizer passes to [strtok]: " \t\r\n". *)
Definition DELIMS : cstring :=
  [" "%char; "009"%char; "013"%char; "010"%char].

Definition is_delim (c : ascii) : bool := in_set c DELIMS.

(** [strcmp] on string contents: the sign of the first differing pair of
    characters compared as [unsigned char]; a proper prefix is smaller. *)
Fixpoint strcmp (a b : cstring) : Z :=
  match a, b with
  | [], [] => 0
  | [], _ :: _ => -1
  | _ :: _, [] => 1
  | x :: a', y :: b' =>
      if Ascii.eqb x y then strcmp a' b'
      else if Nat.ltb (nat_of_ascii x) (nat_of_ascii y) then -1 else 1
  end%Z.

(** ** Memory *)

Definition block := nat.

(** A pointer is null or an offset into an allocated block. *)
Inductive ptr :=
| NULL
| Ptr (b : block) (off : nat).

(** A memory cell holds a character, a pointer, or nothing yet. *)
Inductive val :=
| Vundef
| Vchar (c : ascii)
| Vptr (p : ptr).

#[global] Instance ptr_eq_dec : EqDecision ptr.
Proof. solve_decision. Defined.
#[global] Instance val_eq_dec : EqDecision val.
Proof. solve_decision. Defined.

Definition ptr_add (p : ptr) (n : nat) : ptr :=
  match p with
  | NULL => NULL
  | Ptr b off => Ptr b (off + n)
  end.

Definition is_null (p : ptr) : bool :=
  match p with NULL => true | Ptr _ _ => false end.

(** The cells that store a C string: its characters, then NUL. *)
Definition str_cells (s : cstring) : list val := map Vchar s ++ [Vchar NUL].

(** ** The process state *)

(** Opaque terminal attributes ([struct termios]). *)
Definition termios := Z.

(** What the process emitted, in order. *)
Inductive event :=
| Ev_stderr (msg : cstring)                 (* fprintf(stderr, msg) *)
| Ev_perror (msg : cstring) (err : Z)       (* perror(msg), with errno *)
| Ev_chdir (path : cstring)                 (* chdir(path) was attempted *)
| Ev_setpgid (pid pgid : Z)
| Ev_tcsetpgrp (fd pgid : Z).

(** How [tcsetpgrp] ends: it succeeds; it fails with an errno; or, called
    from a process group that is not the foreground group of the terminal
    while SIGTTOU has its default action, it stops the process. *)
Inductive tc_answer :=
| Tc_ok
| Tc_error (e : Z)
| Tc_stop.

(** The answers of the operating system, fixed during a run. *)
Record kernel := Kernel {
  (* chdir from a working directory to a path: the new working directory,
     or the errno of the failure *)
  k_chdir : cstring -> cstring -> cstring + Z;
  k_uid : Z;                                 (* getuid() *)
  k_passwd : gmap Z cstring;                 (* pw_dir of the entry of a uid *)
  k_isatty : Z -> bool;                      (* isatty(fd) *)
  k_pid : Z;                                 (* getpid() *)
  k_setpgid : Z -> Z -> option Z;            (* None: success; Some errno *)
  k_tcgetattr : Z -> termios;                (* attributes of a terminal *)
  (* the errno isatty(fd) leaves when fd is not a terminal: ENOTTY, or
     EBADF for a descriptor that is not open *)
  k_isatty_errno : Z -> Z;
  k_tcsetpgrp : Z -> Z -> tc_answer          (* tcsetpgrp(fd, pgid) *)
}.

Record world := World {
  heap : gmap block (list val);
  environ : gmap cstring cstring;
  strtok_save : ptr;
  errno : Z;
  cwd : cstring;
  trace : list event;
  sys : kernel
}.

Definition set_heap (h : gmap block (list val)) (w : world) : world :=
  World h (environ w) (strtok_save w) (errno w) (cwd w) (trace w) (sys w).
Definition set_strtok_save (p : ptr) (w : world) : world :=
  World (heap w) (environ w) p (errno w) (cwd w) (trace w) (sys w).
Definition set_errno (e : Z) (w : world) : world :=
  World (heap w) (environ w) (strtok_save w) e (cwd w) (trace w) (sys w).
Definition set_cwd (d : cstring) (w : world) : world :=
  World (heap w) (environ w) (strtok_save w) (errno w) d (trace w) (sys w).
Definition emit (e : event) (w : world) : world :=
  World (heap w) (environ w) (strtok_save w) (errno w) (cwd w)
        (trace w ++ [e]) (sys w).

(** ** Computations *)

Inductive fault :=
| MemFault        (* invalid read, write or free *)
| IntOverflow     (* signed overflow of an int *)
| OutOfFuel       (* a loop bound of the model was exceeded *)
| Stopped.        (* the process was stopped by SIGTTOU inside a call *)

Inductive outcome (A : Type) :=
| Ret (a : A) (w : world)        (* the call returned a *)
| Exited (code : Z) (w : world)  (* the process ended in exit(code) *)
| Fault (f : fault).
Arguments Ret {A} a w.
Arguments Exited {A} code w.
Arguments Fault {A} f.

Definition M (A : Type) : Type := world -> outcome A.

Definition ret {A} (a : A) : M A := fun w => Ret a w.

Definition bind {A B} (m : M A) (k : A -> M B) : M B :=
  fun w =>
    match m w with
    | Ret a w' => k a w'
    | Exited c w' => Exited c w'
    | Fault f => Fault f
    end.

Notation "'do' x <- m ; k" := (bind m (fun x => k))
  (at level 10, x name, m at level 100, k at level 200).
Notation "m ;;; k" := (bind m (fun _ => k))
  (at level 100, k at level 200, right associativity).

Definition get_world : M world := fun w => Ret w w.
Definition modify (f : world -> world) : M unit := fun w => Ret tt (f w).
Definition fail {A} (f : fault) : M A := fun _ => Fault f.
Definition exit {A} (code : Z) : M A := fun w => Exited code w.

(** Lift a partial read of memory: [None] is an invalid access. *)
Definition lift {A} (o : option A) : M A :=
  match o with
  | Some a => ret a
  | None => fail MemFault
  end.

(** ** The C library, by its specification *)

Definition cells_at (h : gmap block (list val)) (p : ptr) : option (list val) :=
  match p with
  | NULL => None
  | Ptr b off =>
      match h !! b with
      | Some cells => if decide (off <= length cells) then Some (drop off cells) else None
      | None => None
      end
  end.

(** [*p] *)
Definition load (p : ptr) : M val :=
  do w <- get_world;
  match cells_at (heap w) p with
  | Some (v :: _) => ret v
  | _ => fail MemFault
  end.

Definition load_char (p : ptr) : M ascii :=
  do v <- load p;
  match v with
  | Vchar c => ret c
  | _ => fail MemFault
  end.

Definition load_ptr (p : ptr) : M ptr :=
  do v <- load p;
  match v with
  | Vptr q => ret q
  | _ => fail MemFault
  end.

(** [*p = v] *)
Definition store (p : ptr) (v : val) : M unit :=
  do w <- get_world;
  match p with
  | NULL => fail MemFault
  | Ptr b off =>
      match heap w !! b with
      | Some cells =>
          if decide (off < length cells)
          then modify (set_heap (<[b := <[off := v]> cells]> (heap w)))
          else fail MemFault
      | None => fail MemFault
      end
  end.

(** The string stored from the head of a run of cells, up to the first NUL;
    running off the block or meeting a cell that holds no character is an
    invalid read. *)
Fixpoint cstr_of (cells : list val) : option cstring :=
  match cells with
  | Vchar c :: rest =>
      if is_nul c then Some []
      else match cstr_of rest with
           | Some s => Some (c :: s)
           | None => None
           end
  | _ => None
  end.

(** The C string a pointer designates in a heap. *)
Definition read_cstr (h : gmap block (list val)) (p : ptr) : option cstring :=
  match cells_at h p with
  | Some cells => cstr_of cells
  | None => None
  end.

Definition load_cstr (p : ptr) : M cstring :=
  do w <- get_world; lift (read_cstr (heap w) p).

(** [strlen(p)] *)
Definition strlen (p : ptr) : M nat :=
  do s <- load_cstr p; ret (length s).

(** A fresh block with the given contents. The heap is unbounded: allocation
    never fails, so the pointer returned is never null. *)
Definition alloc (cells : list val) : M ptr :=
  do w <- get_world;
  let b := fresh (dom (heap w)) in
  modify (set_heap (<[b := cells]> (heap w)));;;
  ret (Ptr b 0).

(** [malloc(n * sizeof(cell))]: n cells, uninitialised. *)
Definition malloc (n : nat) : M ptr := alloc (replicate n Vundef).

(** [strdup] of a string given by its contents (a literal, or a value of the
    environment). *)
Definition strdup_of (s : cstring) : M ptr := alloc (str_cells s).

(** [strdup(p)] *)
Definition strdup (p : ptr) : M ptr :=
  do s <- load_cstr p; strdup_of s.

(** [free(p)]: no-op on null; p must be the start of a live block. *)
Definition free (p : ptr) : M unit :=
  match p with
  | NULL => ret tt
  | Ptr b 0 =>
      do w <- get_world;
      match heap w !! b with
      | Some _ => modify (set_heap (delete b (heap w)))
      | None => fail MemFault
      end
  | Ptr _ (S _) => fail MemFault
  end.

(** [realloc(p, n * sizeof(cell))]: a new block of n cells that starts with
    the old contents; the old block is released. *)
Definition realloc (p : ptr) (n : nat) : M ptr :=
  match p with
  | NULL => malloc n
  | Ptr b 0 =>
      do w <- get_world;
      match heap w !! b with
      | Some cells =>
          do q <- alloc (take n (cells ++ replicate (n - length cells) Vundef));
          free p;;;
          ret q
      | None => fail MemFault
      end
  | Ptr _ (S _) => fail MemFault
  end.

(** [getenv(name)]: the value, when the variable is set. The environment is
    static storage outside the heap; a value is handed over by its contents. *)
Definition getenv (name : cstring) : M (option cstring) :=
  do w <- get_world; ret (environ w !! name).

(** [perror(msg)]: the message with the text of the current errno. *)
Definition perror (msg : cstring) : M unit :=
  do w <- get_world; modify (emit (Ev_perror msg (errno w))).

Definition fprintf_stderr (msg : cstring) : M unit :=
  modify (emit (Ev_stderr msg)).

(** [chdir(path)]: 0 and a new working directory, or -1 and errno. *)
Definition chdir (path : cstring) : M Z :=
  do w <- get_world;
  modify (emit (Ev_chdir path));;;
  match k_chdir (sys w) (cwd w) path with
  | inl d => modify (set_cwd d);;; ret 0%Z
  | inr e => modify (set_errno e);;; ret (-1)%Z
  end.

(** [getpwuid(getuid())->pw_dir], when the entry exists. *)
Definition getpwuid_dir : M (option cstring) :=
  do w <- get_world; ret (k_passwd (sys w) !! k_uid (sys w)).

(** [strspn(s, accept)] over the cells at s. *)
Fixpoint strspn (cells : list val) (accept : cstring) : option nat :=
  match cells with
  | Vchar c :: rest =>
      if is_nul c then Some 0
      else if in_set c accept
           then match strspn rest accept with
                | Some n => Some (S n)
                | None => None
                end
           else Some 0
  | _ => None
  end.

(** [strcspn(s, reject)] over the cells at s. *)
Fixpoint strcspn (cells : list val) (reject : cstring) : option nat :=
  match cells with
  | Vchar c :: rest =>
      if is_nul c then Some 0
      else if in_set c reject then Some 0
           else match strcspn rest reject with
                | Some n => Some (S n)
                | None => None
                end
  | _ => None
  end.

(** [strtok(s, delim)]: continue from the saved pointer when s is null; skip
    delimiters; at the end of the string there is no token; otherwise the
    token runs to the next delimiter, which is overwritten with NUL, and the
    scan resumes after it. *)
Definition strtok (s : ptr) (delim : cstring) : M ptr :=
  do w <- get_world;
  let s := if is_null s then strtok_save w else s in
  do cells <- lift (cells_at (heap w) s);
  do skip <- lift (strspn cells delim);
  let start := ptr_add s skip in
  do c <- load_char start;
  if is_nul c then
    modify (set_strtok_save start);;;
    ret NULL
  else
    do n <- lift (strcspn (drop skip cells) delim);
    let stop := ptr_add start n in
    do c <- load_char stop;
    if is_nul c then
      modify (set_strtok_save stop);;;
      ret start
    else
      store stop (Vchar NUL);;;
      modify (set_strtok_save (ptr_add stop 1));;;
      ret start.

(** ** lab.c *)

Definition newline : cstring := ["010"%char].

Definition INT_MAX : Z := 2147483647.
Definition INT_MIN : Z := (-2147483648).
Definition EXIT_FAILURE : Z := 1.
Definition STDIN_FILENO : Z := 0.

(** Arithmetic on [int]: a result outside the type is undefined behaviour. *)
Definition int_of (r : Z) : M Z :=
  if ((INT_MIN <=? r) && (r <=? INT_MAX))%Z then ret r else fail IntOverflow.
Definition int_add (a b : Z) : M Z := int_of (a + b).
Definition int_mul (a b : Z) : M Z := int_of (a * b).

(** [char *get_prompt(const char *env)]; the name is given by its contents. *)
Definition get_prompt (env : cstring) : M ptr :=
  do env_val <- getenv env;
  match env_val with
  | Some v => strdup_of v
  | None => strdup_of (lit "shell>")
  end.

(** The tail of [change_dir]: the [chdir] call and its diagnostic. *)
Definition change_dir_to (target : cstring) : M Z :=
  do r <- chdir target;
  (if negb (r =? 0)%Z then perror (lit "change_dir") else ret tt);;;
  ret r.

(** [int change_dir(char **dir)] *)
Definition change_dir (dir : ptr) : M Z :=
  do dir1 <- load_ptr (ptr_add dir 1);
  if is_null dir1 then
    do home <- getenv (lit "HOME");
    match home with
    | Some target => change_dir_to target
    | None =>
        do pw <- getpwuid_dir;
        match pw with
        | Some target => change_dir_to target
        | None =>
            perror (lit "change_dir: cannot determine home directory");;;
            ret (-1)%Z
        end
    end
  else
    do target <- load_cstr dir1;
    change_dir_to target.

(** The [while (token != NULL)] loop of [cmd_parse]. Every iteration consumes
    at least one character of the line, so the length of the line bounds the
    number of iterations; [fuel] is that bound. *)
Fixpoint cmd_parse_loop (fuel : nat) (tokens : ptr) (bufsize position : Z)
    (token : ptr) : M (ptr * Z) :=
  if is_null token then ret (tokens, position)
  else
    match fuel with
    | 0 => fail OutOfFuel
    | S fuel' =>
        do t <- strdup token;
        store (ptr_add tokens (Z.to_nat position)) (Vptr t);;;
        do position <- int_add position 1;
        do grown <-
          (if (position >=? bufsize)%Z then
             do bufsize <- int_mul bufsize 2;
             do tokens <- realloc tokens (Z.to_nat bufsize);
             if is_null tokens then
               fprintf_stderr (lit "cmd_parse: allocation error" ++ newline);;;
               exit EXIT_FAILURE
             else ret (tokens, bufsize)
           else ret (tokens, bufsize));
        do token <- strtok NULL DELIMS;
        cmd_parse_loop fuel' (fst grown) (snd grown) position token
    end.

(** [char **cmd_parse(char const *line)]; [fuel], the length of the copy of
    the line, bounds the loop and is not a variable of the source. *)
Definition cmd_parse (line : ptr) : M ptr :=
  let bufsize := 64%Z in
  do tokens <- malloc (Z.to_nat bufsize);
  if is_null tokens then
    fprintf_stderr (lit "cmd_parse: allocation error" ++ newline);;;
    exit EXIT_FAILURE
  else
    do line_copy <- strdup line;
    do fuel <- strlen line_copy;
    do token <- strtok line_copy DELIMS;
    do r <- cmd_parse_loop fuel tokens bufsize 0 token;
    store (ptr_add (fst r) (Z.to_nat (snd r))) (Vptr NULL);;;
    free line_copy;;;
    ret (fst r).

(** Pointer comparison and decrement inside one block. *)
Definition ptr_gt (p q : ptr) : bool :=
  match p, q with
  | Ptr b i, Ptr b' j => Nat.eqb b b' && Nat.ltb j i
  | _, _ => false
  end.

Definition ptr_dec (p : ptr) : M ptr :=
  match p with
  | Ptr b (S i) => ret (Ptr b i)
  | _ => fail MemFault
  end.

(** The loop that skips leading whitespace:
    [while ( *line && isspace((unsigned char) *line)) line++;] *)
Fixpoint skip_leading (fuel : nat) (line : ptr) : M ptr :=
  do c <- load_char line;
  if negb (is_nul c) && isspace c then
    match fuel with
    | 0 => fail OutOfFuel
    | S fuel' => skip_leading fuel' (ptr_add line 1)
    end
  else ret line.

(** The loop that backs over trailing whitespace:
    [while (end > line && isspace((unsigned char) *end)) end--;] *)
Fixpoint skip_trailing (fuel : nat) (line last : ptr) : M ptr :=
  if ptr_gt last line then
    do c <- load_char last;
    if isspace c then
      match fuel with
      | 0 => fail OutOfFuel
      | S fuel' => do last' <- ptr_dec last; skip_trailing fuel' line last'
      end
    else ret last
  else ret last.

(** The number of cells of the block a pointer points into: the bound on the
    iterations of a scan of that block. *)
Definition block_size (p : ptr) : M nat :=
  do w <- get_world;
  match p with
  | NULL => ret 0
  | Ptr b _ =>
      match heap w !! b with
      | Some cells => ret (length cells)
      | None => ret 0
      end
  end.

(** [char *trim_white(char *line)]; [fuel], the size of the block of the
    line, bounds the two loops and is not a variable of the source. *)
Definition trim_white (line : ptr) : M ptr :=
  if is_null line then ret line
  else
    do fuel <- block_size line;
    do line <- skip_leading fuel line;
    do c <- load_char line;
    if is_nul c then ret line
    else
      do n <- strlen line;
      do last <- ptr_dec (ptr_add line n);
      do last <- skip_trailing fuel line last;
      store (ptr_add last 1) (Vchar NUL);;;
      ret line.

(** Modelled from the spec: [struct shell] is declared in lab.h, which is not
    among the sources; its fields are the ones [sh_init] and [sh_destroy]
    use, and the session state of the specification. *)
Record shell := Shell {
  shell_is_interactive : Z;
  shell_pgid : Z;
  shell_tmodes : termios;
  shell_terminal : Z;
  prompt : ptr
}.

Definition set_prompt (p : ptr) (s : shell) : shell :=
  Shell (shell_is_interactive s) (shell_pgid s) (shell_tmodes s)
        (shell_terminal s) p.

(** [strcmp(p, "literal")] *)
Definition strcmp_lit (p : ptr) (l : cstring) : M Z :=
  do s <- load_cstr p; ret (strcmp s l).

(** [bool do_builtin(struct shell *sh, char **argv)]; a session pointer is
    null ([None]) or designates a session. *)
Definition do_builtin (sh : option shell) (argv : ptr) : M bool :=
  if is_null argv then ret false
  else
    do argv0 <- load_ptr argv;
    if is_null argv0 then ret false
    else
      do c <- strcmp_lit argv0 (lit "exit");
      if (c =? 0)%Z then
        do skip_exit <- getenv (lit "SKIP_EXIT");
        match skip_exit with
        | Some v => if (strcmp v (lit "1") =? 0)%Z then ret true else exit 0%Z
        | None => exit 0%Z
        end
      else
        do c <- strcmp_lit argv0 (lit "cd");
        if (c =? 0)%Z then
          change_dir argv;;;
          ret true
        else
          do c <- strcmp_lit argv0 (lit "history");
          if (c =? 0)%Z then ret true
          else ret false.

Definition setpgid (pid pgid : Z) : M Z :=
  do w <- get_world;
  modify (emit (Ev_setpgid pid pgid));;;
  match k_setpgid (sys w) pid pgid with
  | None => ret 0%Z
  | Some e => modify (set_errno e);;; ret (-1)%Z
  end.

(** [isatty(fd)]: 1 on a terminal; otherwise 0, and errno says why. *)
Definition isatty (fd : Z) : M Z :=
  do w <- get_world;
  if k_isatty (sys w) fd then ret 1%Z
  else modify (set_errno (k_isatty_errno (sys w) fd));;; ret 0%Z.

(** [tcsetpgrp(fd, pgid)]: 0; or -1 and errno; or the caller is stopped and
    the call does not return. A run ends where the process is stopped: what
    it does if it is continued later is not modelled. *)
Definition tcsetpgrp (fd pgid : Z) : M Z :=
  do w <- get_world;
  modify (emit (Ev_tcsetpgrp fd pgid));;;
  match k_tcsetpgrp (sys w) fd pgid with
  | Tc_ok => ret 0%Z
  | Tc_error e => modify (set_errno e);;; ret (-1)%Z
  | Tc_stop => fail Stopped
  end.

(** The terminal-control block of [sh_init]. *)
Definition take_terminal (s : shell) : M shell :=
  do w <- get_world;
  let pgid := k_pid (sys w) in
  let s := Shell (shell_is_interactive s) pgid (shell_tmodes s)
                 (shell_terminal s) (prompt s) in
  do r <- setpgid (shell_pgid s) (shell_pgid s);
  if (r <? 0)%Z then
    perror (lit "sh_init: Couldn't put the shell in its own process group");;;
    exit 1%Z
  else
    let s := Shell (shell_is_interactive s) (shell_pgid s)
                   (k_tcgetattr (sys w) (shell_terminal s))
                   (shell_terminal s) (prompt s) in
    tcsetpgrp (shell_terminal s) (shell_pgid s);;;
    ret s.

(** [void sh_init(struct shell *sh)]: the session after the call. *)
Definition sh_init (sh : option shell) : M (option shell) :=
  match sh with
  | None => ret None
  | Some s =>
      let s := Shell (shell_is_interactive s) (shell_pgid s) (shell_tmodes s)
                     STDIN_FILENO (prompt s) in
      do tty <- isatty (shell_terminal s);
      let s := Shell tty (shell_pgid s) (shell_tmodes s) (shell_terminal s)
                     (prompt s) in
      do skip_tc <- getenv (lit "SKIP_TC");
      let bypass :=
        match skip_tc with
        | Some v => (strcmp v (lit "1") =? 0)%Z
        | None => false
        end in
      do s <- (if negb (shell_is_interactive s =? 0)%Z && negb bypass
               then take_terminal s else ret s);
      do p <- get_prompt (lit "MY_PROMPT");
      ret (Some (set_prompt p s))
  end.

(** [void sh_destroy(struct shell *sh)]: the session after the call. *)
Definition sh_destroy (sh : option shell) : M (option shell) :=
  match sh with
  | None => ret None
  | Some s =>
      if is_null (prompt s) then ret (Some s)
      else
        free (prompt s);;;
        ret (Some (set_prompt NULL s))
  end.

(** ** Observations used in the statements *)

(** The argument vector stored from the head of a run of cells: the strings
    the pointers designate, up to the null sentinel. *)
Fixpoint argv_of (h : gmap block (list val)) (cells : list val)
    : option (list cstring) :=
  match cells with
  | Vptr NULL :: _ => Some []
  | Vptr q :: rest =>
      match read_cstr h q, argv_of h rest with
      | Some s, Some l => Some (s :: l)
      | _, _ => None
      end
  | _ => None
  end.

(** The null-terminated vector of strings a pointer designates. *)
Definition read_argv (h : gmap block (list val)) (p : ptr)
    : option (list cstring) :=
  match cells_at h p with
  | Some cells => argv_of h cells
  | None => None
  end.

(** [argv[0]] as a string, when argv and argv[0] are valid and non-null. *)
Definition first_token (h : gmap block (list val)) (argv : ptr)
    : option cstring :=
  match cells_at h argv with
  | Some (Vptr q :: _) => read_cstr h q
  | _ => None
  end.

(** [argv[1]]: [Some None] when it is the null pointer, [Some (Some s)] when
    it designates the string s, [None] when the slot cannot be read. *)
Definition second_arg (h : gmap block (list val)) (argv : ptr)
    : option (option cstring) :=
  match cells_at h (ptr_add argv 1) with
  | Some (Vptr NULL :: _) => Some None
  | Some (Vptr q :: _) =>
      match read_cstr h q with
      | Some s => Some (Some s)
      | None => None
      end
  | _ => None
  end.

(** p is a copy of s that the caller owns: a block of its own, absent from
    the heap before the call, live after it, nothing else changed. *)
Definition owned_copy (w w' : world) (p : ptr) (s : cstring) : Prop :=
  exists b, p = Ptr b 0 /\ heap w !! b = None /\
            w' = set_heap (<[b := str_cells s]> (heap w)) w /\
            read_cstr (heap w') p = Some s.

(** A session whose prompt is a live heap string, as [sh_init] leaves it. *)
Definition owns_prompt (w : world) (s : shell) : Prop :=
  exists b, prompt s = Ptr b 0 /\ is_Some (heap w !! b).

(** ** Specification of the dispatcher and of the directory changer *)

(** The "exit" branch of [do_builtin]. *)
Definition exit_unless_bypass : M bool :=
  do skip_exit <- getenv (lit "SKIP_EXIT");
  match skip_exit with
  | Some v => if (strcmp v (lit "1") =? 0)%Z then ret true else exit 0%Z
  | None => exit 0%Z
  end.

(** What [do_builtin] does once argv[0] is known to be the string t. *)
Definition dispatch (t : cstring) (argv : ptr) : M bool :=
  if bool_decide (t = lit "exit") then
    exit_unless_bypass
  else if bool_decide (t = lit "cd") then (change_dir argv;;; ret true)
  else if bool_decide (t = lit "history") then ret true
  else ret false.

(** The target directory by the precedence of the specification: the second
    argument, else HOME, else the home directory of the user database. *)
Definition resolve_target (arg home pw : option cstring) : option cstring :=
  match arg with
  | Some d => Some d
  | None =>
      match home with
      | Some d => Some d
      | None => pw
      end
  end.

(** The outcome of a directory change to a resolved target. *)
Definition chdir_outcome (t : cstring) (w : world) : outcome Z :=
  match k_chdir (sys w) (cwd w) t with
  | inl d => Ret 0%Z (set_cwd d (emit (Ev_chdir t) w))
  | inr e => Ret (-1)%Z (emit (Ev_perror (lit "change_dir") e)
                           (set_errno e (emit (Ev_chdir t) w)))
  end.

(** ** Specification of the trimmer *)

Fixpoint take_while (p : ascii -> bool) (s : cstring) : cstring :=
  match s with
  | c :: r => if p c then c :: take_while p r else []
  | [] => []
  end.

Fixpoint drop_while (p : ascii -> bool) (s : cstring) : cstring :=
  match s with
  | c :: r => if p c then drop_while p r else s
  | [] => []
  end.

(** The string without its leading and its trailing whitespace. *)
Definition trim (s : cstring) : cstring :=
  rev (drop_while isspace (rev (drop_while isspace s))).

(** The call worked inside block b: no block appeared or disappeared, the
    other blocks kept their contents, b kept its size, and nothing of the
    process state outside the heap changed. *)
Definition in_place (b : block) (w w' : world) : Prop :=
  (forall b', b' <> b -> heap w' !! b' = heap w !! b') /\
  (exists cells cells', heap w !! b = Some cells /\ heap w' !! b = Some cells' /\
                        length cells' = length cells) /\
  w' = set_heap (heap w') w.

(** ** Specification of the tokenizer, and the invariant of its loop *)

Definition not_delim (c : ascii) : bool := negb (is_delim c).

(** [runs s toks]: toks are the maximal runs of non-delimiter characters of
    s, from left to right. Each token is non-empty, holds no delimiter, and is
    enclosed by delimiters or by the ends of s. *)
Inductive runs : cstring -> list cstring -> Prop :=
| runs_none ws :
    forallb is_delim ws = true ->
    runs ws []
| runs_last ws t :
    forallb is_delim ws = true ->
    t <> [] -> forallb not_delim t = true ->
    runs (ws ++ t) [t]
| runs_more ws t c rest toks :
    forallb is_delim ws = true ->
    t <> [] -> forallb not_delim t = true ->
    is_delim c = true ->
    runs rest toks ->
    runs (ws ++ t ++ c :: rest) (t :: toks).

(** The same, as a function: a non-delimiter character opens a token when a
    delimiter or the end of the line follows it, and otherwise joins the token
    that starts right after it. *)
Fixpoint tokens_of (s : cstring) : list cstring :=
  match s with
  | [] => []
  | c :: r =>
      if is_delim c then tokens_of r
      else
        match r with
        | [] => [[c]]
        | c' :: _ =>
            if is_delim c' then [c] :: tokens_of r
            else
              match tokens_of r with
              | t :: ts => (c :: t) :: ts
              | [] => [[c]]
              end
        end
  end.

(** The part of the process state that is neither the heap nor the hidden
    pointer of [strtok]. *)
Definition outside (w : world) : gmap cstring cstring * Z * cstring * list event * kernel :=
  (environ w, errno w, cwd w, trace w, sys w).

(** The cells of a token array whose entries point at the blocks bs. *)
Definition tok_ptrs (bs : list block) : list val :=
  map (fun b => Vptr (Ptr b 0)) bs.

(** Block by block, bs hold the strings ts. *)
Definition holds (h : gmap block (list val)) (bs : list block)
    (ts : list cstring) : Prop :=
  Forall2 (fun b t => h !! b = Some (str_cells t) /\ cstr_ok t = true) bs ts.

(** The heap h0 of the caller is intact inside h. *)
Definition preserved (h0 h : gmap block (list val)) : Prop :=
  forall b cells, h0 !! b = Some cells -> h !! b = Some cells.

(** The invariant of the loop of [cmd_parse]: the token array bt has n
    cells and starts with pointers to the blocks bs, which hold the tokens
    found so far; the working copy bl of the line is live; none of these is a
    block of the caller, whose heap h0 is intact. *)
Definition tok_inv (h0 : gmap block (list val)) (bl bt : block) (n : nat)
    (bs : list block) (ts : list cstring) (h : gmap block (list val)) : Prop :=
  (exists post, h !! bt = Some (tok_ptrs bs ++ post) /\
                length (tok_ptrs bs ++ post) = n) /\
  holds h bs ts /\
  bt <> bl /\ (bt ∉ bs) /\ (bl ∉ bs) /\
  preserved h0 h /\ h0 !! bt = None /\ h0 !! bl = None /\
  is_Some (h !! bl).

(** The state at the head of the loop: [token] is null when no token is left;
    otherwise it points at the first of the remaining tokens inside the
    working copy bl, and the saved pointer of [strtok] points at the rest of
    the line, which holds the other tokens. *)
Definition at_token (bl : block) (toks : list cstring) (token : ptr)
    (w : world) : Prop :=
  match toks with
  | [] => token = NULL
  | t :: toks' =>
      exists st off rest,
        token = Ptr bl st /\
        read_cstr (heap w) token = Some t /\
        strtok_save w = Ptr bl off /\
        read_cstr (heap w) (Ptr bl off) = Some rest /\
        runs rest toks'
  end.

(** What the loop of [cmd_parse] can end in, started with the blocks bs in
    the array and the tokens toks still to come in state w. *)
Definition loop_post (h0 : gmap block (list val)) (bl : block)
    (bs : list block) (ts toks : list cstring) (w : world)
    (o : outcome (ptr * Z)) : Prop :=
  match o with
  | Ret r w' =>
      exists bt' bufsize' bs',
        r = (Ptr bt' 0, Z.of_nat (length (bs ++ bs'))) /\
        tok_inv h0 bl bt' (Z.to_nat bufsize') (bs ++ bs') (ts ++ toks) (heap w') /\
        (Z.of_nat (length (bs ++ bs')) < bufsize')%Z /\
        outside w' = outside w
  | Exited _ _ => False
  | Fault f =>
      f = IntOverflow /\
      (2 ^ 30 <= Z.of_nat (length bs) + Z.of_nat (length toks))%Z
  end.

(** What [cmd_parse] can end in on a line s in state w. *)
Definition parse_post (w : world) (s : cstring) (o : outcome ptr) : Prop :=
  match o with
  | Ret p w' =>
      read_argv (heap w') p = Some (tokens_of s) /\
      preserved (heap w) (heap w') /\
      outside w' = outside w
  | Exited _ _ => False
  | Fault f =>
      f = IntOverflow /\ (2 ^ 30 <= Z.of_nat (length (tokens_of s)))%Z
  end.

(** ** States for the examples *)

(** A kernel for the examples: the directories "/" and "/home/user" exist,
    any other path fails with ENOENT (2); user 1000 has home "/home/user" and
    no other user has an entry; no descriptor is a terminal (ENOTTY is
    25). *)
Definition kernel_of (uid : Z) : kernel :=
  Kernel
    (fun _ path =>
       if bool_decide (path = lit "/") then inl path
       else if bool_decide (path = lit "/home/user") then inl path
       else inr 2%Z)
    uid
    (<[1000%Z := lit "/home/user"]> ∅)
    (fun _ => false)
    4242%Z
    (fun _ _ => None)
    (fun _ => 0%Z)
    (fun _ => 25%Z)
    (fun _ _ => Tc_ok).

(** The process of user 1000, in "/tmp", with the given heap and
    environment. *)
Definition demo_world (h : gmap block (list val))
    (env : gmap cstring cstring) : world :=
  World h env NULL 0%Z (lit "/tmp") [] (kernel_of 1000).


(** A heap that holds one string, at block 0. *)
Definition line_heap (s : cstring) : gmap block (list val) :=
  <[0 := str_cells s]> ∅.

Fixpoint put_strs (b : block) (l : list cstring)
    (h : gmap block (list val)) : gmap block (list val) :=
  match l with
  | [] => h
  | s :: r => <[b := str_cells s]> (put_strs (S b) r h)
  end.

(** A heap that holds an argument vector at block 0, its strings at the
    blocks 1, 2, ... *)
Definition argv_heap (l : list cstring) : gmap block (list val) :=
  <[0 := tok_ptrs (seq 1 (length l)) ++ [Vptr NULL]]> (put_strs 1 l ∅).

Definition env_of (l : list (cstring * cstring)) : gmap cstring cstring :=
  list_to_map l.

Definition demo_session : shell := Shell 7%Z 7%Z 7%Z 7%Z NULL.

(** The session and the process state that [sh_init] leaves when run on
    [demo_session] with no terminal and no MY_PROMPT. *)
Definition init_session : shell := Shell 0%Z 7%Z 7%Z 0%Z (Ptr 0 0).
Definition init_world : world :=
  set_errno 25%Z (demo_world (line_heap (lit "shell>")) ∅).

(** A kernel whose standard input is a terminal with attributes 31, of
    which the process is in the foreground group: [tcsetpgrp] succeeds.
    [setpgid] fails with the given errno, when one is given. *)
Definition tty_kernel (err : option Z) : kernel :=
  Kernel
    (k_chdir (kernel_of 1000))
    1000%Z
    (k_passwd (kernel_of 1000))
    (fun fd => (fd =? 0)%Z)
    4242%Z
    (fun _ _ => err)
    (fun _ => 31%Z)
    (fun _ => 9%Z)
    (fun _ _ => Tc_ok).

(** The same terminal for a process that [setpgid] moves to a group of its
    own, with the given answer of [tcsetpgrp]. *)
Definition bg_kernel (tc : tc_answer) : kernel :=
  Kernel
    (k_chdir (kernel_of 1000))
    1000%Z
    (k_passwd (kernel_of 1000))
    (fun fd => (fd =? 0)%Z)
    4242%Z
    (fun _ _ => None)
    (fun _ => 31%Z)
    (fun _ => 9%Z)
    (fun _ _ => tc).

Definition bg_world (tc : tc_answer) : world :=
  World ∅ ∅ NULL 0%Z (lit "/tmp") [] (bg_kernel tc).

(** A process on a terminal, with an empty heap. *)
Definition tty_world (err : option Z) (env : gmap cstring cstring) : world :=
  World ∅ env NULL 0%Z (lit "/tmp") [] (tty_kernel err).

(** A line of 2^30 one-letter tokens, and a process that holds it. *)
Definition many_tokens : cstring :=
  concat (repeat (lit "a ") (Z.to_nat (2 ^ 30))).
Definition many_world : world := demo_world (line_heap many_tokens) ∅.

(** A process whose heap holds the argument vector of "ls -a". *)
Definition ls_world : world := demo_world (argv_heap [lit "ls"; lit "-a"]) ∅.

(** ** lab.c: releasing a vector, and the argument parser *)

(** The loop of [cmd_free]:
    [for (int i = 0; line[i] != NULL; i++) free(line[i]);] *)
Fixpoint cmd_free_loop (fuel : nat) (line : ptr) (i : Z) : M unit :=
  do p <- load_ptr (ptr_add line (Z.to_nat i));
  if is_null p then ret tt
  else
    match fuel with
    | 0 => fail OutOfFuel
    | S fuel' =>
        do q <- load_ptr (ptr_add line (Z.to_nat i));
        free q;;;
        do i <- int_add i 1;
        cmd_free_loop fuel' line i
    end.

(** [void cmd_free(char **line)]; [fuel], the size of the block of the
    vector, bounds the loop and is not a variable of the source. *)
Definition cmd_free (line : ptr) : M unit :=
  if is_null line then ret tt
  else
    do fuel <- block_size line;
    (cmd_free_loop fuel line 0%Z;;;
     free line).

(** [void parse_args(int argc, char **argv)] *)
Definition parse_args (argc : Z) (argv : ptr) : M unit := ret tt.

(** ** Specification of the ownership of an argument vector *)

(** The heap once the blocks bs are released, in order. *)
Definition free_all (bs : list block) (h : gmap block (list val))
    : gmap block (list val) :=
  foldl (fun h b => delete b h) h bs.

(** Block bt holds a null-terminated vector whose entries point at the
    blocks bs; the array and the entries are live, pairwise distinct
    blocks. *)
Definition owned_vector (h : gmap block (list val)) (bt : block)
    (bs : list block) : Prop :=
  (exists post, h !! bt = Some (tok_ptrs bs ++ Vptr NULL :: post)) /\
  Forall (fun b => is_Some (h !! b)) bs /\
  NoDup (bt :: bs).

(** ** Specification of the footprint of the tokenizer *)

Definition pow2 (n : Z) : Prop := exists j, (0 <= j)%Z /\ n = (2 ^ j)%Z.

(** What the loop of [cmd_parse] owns: every live block is a block of the
    caller, the array bt, the working copy bl or one of the token copies bs;
    the copies are pairwise distinct and none was a block of the caller. *)
Definition tok_own (h0 : gmap block (list val)) (bl bt : block)
    (bs : list block) (h : gmap block (list val)) : Prop :=
  (forall b, is_Some (h !! b) ->
             is_Some (h0 !! b) \/ b = bt \/ b = bl \/ b ∈ bs) /\
  NoDup bs /\
  (forall b, b ∈ bs -> h0 !! b = None).

(** What the loop of [cmd_parse] leaves when it returns: the invariant and
    the footprint; a capacity that is a power of two, above the number of
    tokens and, once the array has grown, at most twice that number; the
    saved pointer of [strtok] inside the working copy. *)
Definition loop_footprint (h0 : gmap block (list val)) (bl : block)
    (bs : list block) (ts toks : list cstring) (o : outcome (ptr * Z)) : Prop :=
  match o with
  | Ret r w' =>
      exists bt' bufsize' bs',
        r = (Ptr bt' 0, Z.of_nat (length (bs ++ bs'))) /\
        tok_inv h0 bl bt' (Z.to_nat bufsize') (bs ++ bs') (ts ++ toks) (heap w') /\
        tok_own h0 bl bt' (bs ++ bs') (heap w') /\
        (Z.of_nat (length (bs ++ bs')) < bufsize' <= INT_MAX)%Z /\
        pow2 bufsize' /\
        (bufsize' <= Z.max 64 (2 * Z.of_nat (length (bs ++ bs'))))%Z /\
        (exists off, strtok_save w' = Ptr bl off)
  | _ => True
  end.

(** What [cmd_parse] leaves when it returns on a line s in state w: an array
    bt of [bufsize] cells and one block per token, all new and pairwise
    distinct; every other block as it was; the saved pointer of [strtok]
    inside the released working copy. *)
Definition parse_footprint (w : world) (s : cstring) (o : outcome ptr) : Prop :=
  match o with
  | Ret p w' =>
      exists bt bs post bufsize bl off,
        p = Ptr bt 0 /\
        heap w' !! bt = Some (tok_ptrs bs ++ Vptr NULL :: post) /\
        length (tok_ptrs bs ++ Vptr NULL :: post) = Z.to_nat bufsize /\
        holds (heap w') bs (tokens_of s) /\
        NoDup (bt :: bs) /\
        (forall b, b ∈ bt :: bs -> heap w !! b = None) /\
        (forall b, b ∉ bt :: bs -> heap w' !! b = heap w !! b) /\
        (Z.of_nat (length bs) < bufsize <= INT_MAX)%Z /\
        pow2 bufsize /\
        (bufsize <= Z.max 64 (2 * Z.of_nat (length bs)))%Z /\
        strtok_save w' = Ptr bl off /\ heap w' !! bl = None
  | _ => True
  end.

(** ** Specification of what a call leaves alone *)

(** The state w' differs from w in errno, working directory and output
    only, and the output of w is the start of the output of w'. *)
Definition same_memory (w w' : world) : Prop :=
  heap w' = heap w /\ environ w' = environ w /\
  strtok_save w' = strtok_save w /\ sys w' = sys w /\
  exists evs, trace w' = trace w ++ evs.

(** A computation that, whether it returns or exits, leaves the memory
    alone. *)
Definition keeps_memory {A} (m : M A) : Prop :=
  forall w,
    match m w with
    | Ret _ w' | Exited _ w' => same_memory w w'
    | Fault _ => True
    end.

(** The names [do_builtin] answers true for. *)
Definition is_builtin_name (t : cstring) : bool :=
  bool_decide (t = lit "exit") || bool_decide (t = lit "cd") ||
  bool_decide (t = lit "history").

(** The text of the prompt [sh_init] installs. *)
Definition prompt_text (w : world) : cstring :=
  default (lit "shell>") (environ w !! lit "MY_PROMPT").

(** The state after the [isatty] probe of [sh_init]: off a terminal errno
    holds what [isatty] left. *)
Definition probed_world (w : world) : world :=
  if k_isatty (sys w) STDIN_FILENO then w
  else set_errno (k_isatty_errno (sys w) STDIN_FILENO) w.

(** The session [sh_init] builds before it looks at the terminal. *)
Definition probed (s : shell) (w : world) : shell :=
  Shell (if k_isatty (sys w) STDIN_FILENO then 1 else 0)%Z
        (shell_pgid s) (shell_tmodes s) STDIN_FILENO (prompt s).

(** ** Basic facts about strings and memory *)

Lemma cstr_ok_cons c s :
  cstr_ok (c :: s) = true <-> is_nul c = false /\ cstr_ok s = true.
Proof.
  unfold cstr_ok; simpl. rewrite andb_true_iff, negb_true_iff. tauto.
Qed.

Lemma cstr_ok_app s t :
  cstr_ok (s ++ t) = true <-> cstr_ok s = true /\ cstr_ok t = true.
Proof. unfold cstr_ok. rewrite forallb_app, andb_true_iff. tauto. Qed.

Lemma is_nul_NUL : is_nul NUL = true.
Proof. reflexivity. Qed.

Lemma is_nul_true c : is_nul c = true -> c = NUL.
Proof. unfold is_nul. apply Ascii.eqb_eq. Qed.

Lemma cstr_of_str s rest :
  cstr_ok s = true -> cstr_of (map Vchar s ++ Vchar NUL :: rest) = Some s.
Proof.
  induction s as [|c s IH]; simpl; intros Hok; [reflexivity|].
  apply cstr_ok_cons in Hok as [Hc Hs]. rewrite Hc, (IH Hs). reflexivity.
Qed.

Lemma cstr_of_inv cells s :
  cstr_of cells = Some s ->
  cstr_ok s = true /\ exists rest, cells = map Vchar s ++ Vchar NUL :: rest.
Proof.
  revert s. induction cells as [|v cells IH]; simpl; intros s H; [discriminate|].
  destruct v as [|c|q]; try discriminate.
  destruct (is_nul c) eqn:Hc.
  - inversion H; subst. split; [reflexivity|].
    apply is_nul_true in Hc; subst. exists cells. reflexivity.
  - destruct (cstr_of cells) as [s'|] eqn:Hs; [|discriminate].
    inversion H; subst. destruct (IH s' eq_refl) as [Hok [rest ->]].
    split; [apply cstr_ok_cons; auto|]. exists rest. reflexivity.
Qed.

Lemma cells_at_start h b cells :
  h !! b = Some cells -> cells_at h (Ptr b 0) = Some cells.
Proof.
  intros H. unfold cells_at. rewrite H.
  destruct (decide (0 <= length cells)); [reflexivity | lia].
Qed.

Lemma cells_at_split h b pre X :
  h !! b = Some (pre ++ X) -> cells_at h (Ptr b (length pre)) = Some X.
Proof.
  intros H. unfold cells_at. rewrite H.
  destruct (decide (length pre <= length (pre ++ X))) as [_|n].
  - rewrite drop_app_length. reflexivity.
  - rewrite length_app in n. lia.
Qed.

Lemma cells_at_next h p v rest :
  cells_at h p = Some (v :: rest) -> cells_at h (ptr_add p 1) = Some rest.
Proof.
  destruct p as [|b off]; [discriminate|]. unfold cells_at. cbn [ptr_add].
  destruct (h !! b) as [cells|]; [|discriminate].
  destruct (decide (off <= length cells)) as [Hle|]; [|discriminate].
  intros H. inversion H as [E].
  assert (Hlen : length (drop off cells) = S (length rest)) by (rewrite E; reflexivity).
  rewrite length_drop in Hlen.
  destruct (decide (off + 1 <= length cells)) as [_|n]; [|lia].
  rewrite <- drop_drop, E. reflexivity.
Qed.

Lemma read_cstr_start h b s :
  cstr_ok s = true -> h !! b = Some (str_cells s) ->
  read_cstr h (Ptr b 0) = Some s.
Proof.
  intros Hok H. unfold read_cstr. rewrite (cells_at_start _ _ _ H).
  unfold str_cells. apply cstr_of_str, Hok.
Qed.

Lemma read_cstr_split h b pre s rest :
  h !! b = Some (pre ++ map Vchar s ++ Vchar NUL :: rest) ->
  cstr_ok s = true ->
  read_cstr h (Ptr b (length pre)) = Some s.
Proof.
  intros H Hok. unfold read_cstr. rewrite (cells_at_split _ _ _ _ H).
  apply cstr_of_str, Hok.
Qed.

Lemma read_cstr_inv h b off s :
  read_cstr h (Ptr b off) = Some s ->
  cstr_ok s = true /\
  exists pre rest, h !! b = Some (pre ++ map Vchar s ++ Vchar NUL :: rest) /\
                   length pre = off.
Proof.
  unfold read_cstr, cells_at. intros H.
  destruct (h !! b) as [cells|]; [|discriminate].
  destruct (decide (off <= length cells)) as [Hle|]; [|discriminate].
  apply cstr_of_inv in H as [Hok [rest Hrest]]. split; [exact Hok|].
  exists (take off cells), rest. split.
  - rewrite <- Hrest, take_drop. reflexivity.
  - rewrite length_take. lia.
Qed.

Lemma read_cstr_same_block (h h' : gmap block (list val)) b off :
  h' !! b = h !! b -> read_cstr h' (Ptr b off) = read_cstr h (Ptr b off).
Proof. intros H. unfold read_cstr, cells_at. rewrite H. reflexivity. Qed.

Lemma fresh_block_new (h : gmap block (list val)) : h !! fresh (dom h) = None.
Proof. apply not_elem_of_dom, is_fresh. Qed.

Lemma strcmp_refl a : strcmp a a = 0%Z.
Proof.
  induction a as [|x a IH]; simpl; [reflexivity|].
  rewrite Ascii.eqb_refl. exact IH.
Qed.

Lemma strcmp_eq a b : strcmp a b = 0%Z <-> a = b.
Proof.
  split; [|intros ->; apply strcmp_refl].
  revert b. induction a as [|x a IH]; intros [|y b]; simpl; try discriminate; auto.
  destruct (Ascii.eqb x y) eqn:E.
  - apply Ascii.eqb_eq in E. subst. intros H. f_equal. auto.
  - destruct (nat_of_ascii x <? nat_of_ascii y)%nat; discriminate.
Qed.

Lemma strcmp_eqb a b : (strcmp a b =? 0)%Z = bool_decide (a = b).
Proof.
  destruct (Z.eqb_spec (strcmp a b) 0) as [H|H].
  - apply strcmp_eq in H. rewrite bool_decide_eq_true_2; auto.
  - rewrite bool_decide_eq_false_2; auto. intros E. apply H, strcmp_eq, E.
Qed.

(** Equal lists up to the bracketing of [++]. *)
Ltac list_assoc :=
  rewrite ?map_app; simpl; repeat (rewrite <- app_assoc; simpl); reflexivity.

(** ** Stepping through computations *)

Lemma bind_ret {A B} (m : M A) (k : A -> M B) w a w' :
  m w = Ret a w' -> bind m k w = k a w'.
Proof. intros H. unfold bind. rewrite H. reflexivity. Qed.

(** One step of a computation whose outcome is known. *)
Tactic Notation "run" uconstr(H) := rewrite (bind_ret _ _ _ _ _ H).

Lemma bind_exited {A B} (m : M A) (k : A -> M B) w c w' :
  m w = Exited c w' -> bind m k w = Exited c w'.
Proof. intros H. unfold bind. rewrite H. reflexivity. Qed.

Lemma bind_fault {A B} (m : M A) (k : A -> M B) w f :
  m w = Fault f -> bind m k w = Fault f.
Proof. intros H. unfold bind. rewrite H. reflexivity. Qed.

Lemma load_ok p v rest w :
  cells_at (heap w) p = Some (v :: rest) -> load p w = Ret v w.
Proof. intros H. unfold load, bind, get_world. rewrite H. reflexivity. Qed.

Lemma load_ptr_ok p q rest w :
  cells_at (heap w) p = Some (Vptr q :: rest) -> load_ptr p w = Ret q w.
Proof.
  intros H. unfold load_ptr. run (load_ok _ _ _ _ H).
  reflexivity.
Qed.

Lemma load_char_ok p c rest w :
  cells_at (heap w) p = Some (Vchar c :: rest) -> load_char p w = Ret c w.
Proof.
  intros H. unfold load_char. run (load_ok _ _ _ _ H).
  reflexivity.
Qed.

Lemma load_cstr_ok p s w :
  read_cstr (heap w) p = Some s -> load_cstr p w = Ret s w.
Proof. intros H. unfold load_cstr, bind, get_world. rewrite H. reflexivity. Qed.

Lemma strcmp_lit_ok p s l w :
  read_cstr (heap w) p = Some s -> strcmp_lit p l w = Ret (strcmp s l) w.
Proof.
  intros H. unfold strcmp_lit.
  run (load_cstr_ok _ _ _ H). reflexivity.
Qed.

Lemma strlen_ok p s w :
  read_cstr (heap w) p = Some s -> strlen p w = Ret (length s) w.
Proof.
  intros H. unfold strlen. run (load_cstr_ok _ _ _ H).
  reflexivity.
Qed.

Lemma block_size_ok b off cells w :
  heap w !! b = Some cells -> block_size (Ptr b off) w = Ret (length cells) w.
Proof. intros H. unfold block_size, bind, get_world. rewrite H. reflexivity. Qed.

Lemma getenv_ok name w : getenv name w = Ret (environ w !! name) w.
Proof. reflexivity. Qed.

Lemma store_ok b pre x post v w :
  heap w !! b = Some (pre ++ x :: post) ->
  store (Ptr b (length pre)) v w =
    Ret tt (set_heap (<[b := pre ++ v :: post]> (heap w)) w).
Proof.
  intros H. unfold store. unfold bind at 1. cbn [get_world]. rewrite H.
  destruct (decide (length pre < length (pre ++ x :: post))) as [_|n].
  - replace (length pre) with (length pre + 0) at 1 by lia.
    rewrite insert_app_r. reflexivity.
  - rewrite length_app in n. simpl in n. lia.
Qed.

Lemma set_heap_same w : set_heap (heap w) w = w.
Proof. destruct w; reflexivity. Qed.

Lemma malloc_spec w n :
  exists bt, heap w !! bt = None /\
    malloc n w = Ret (Ptr bt 0) (set_heap (<[bt := replicate n Vundef]> (heap w)) w).
Proof.
  exists (fresh (dom (heap w))). split; [apply fresh_block_new | reflexivity].
Qed.

(** [strdup] of a well-formed string hands out an owned copy. *)
Lemma strdup_of_owned s w :
  cstr_ok s = true ->
  exists p w', strdup_of s w = Ret p w' /\ owned_copy w w' p s.
Proof.
  intros Hok.
  exists (Ptr (fresh (dom (heap w))) 0),
         (set_heap (<[fresh (dom (heap w)) := str_cells s]> (heap w)) w).
  split; [reflexivity|].
  exists (fresh (dom (heap w))). split; [reflexivity|].
  split; [apply fresh_block_new|]. split; [reflexivity|].
  apply read_cstr_start; [exact Hok|]. simpl. apply lookup_insert_eq.
Qed.

Lemma strdup_spec w p t :
  read_cstr (heap w) p = Some t ->
  exists bn, heap w !! bn = None /\
    strdup p w = Ret (Ptr bn 0) (set_heap (<[bn := str_cells t]> (heap w)) w).
Proof.
  intros H. exists (fresh (dom (heap w))). split; [apply fresh_block_new|].
  unfold strdup. run (load_cstr_ok _ _ _ H). reflexivity.
Qed.

Lemma free_live b cells w :
  heap w !! b = Some cells ->
  free (Ptr b 0) w = Ret tt (set_heap (delete b (heap w)) w).
Proof. intros H. unfold free, bind, get_world. rewrite H. reflexivity. Qed.

Lemma realloc_spec w bt cells n :
  heap w !! bt = Some cells ->
  exists bt', heap w !! bt' = None /\
    realloc (Ptr bt 0) n w =
      Ret (Ptr bt' 0)
          (set_heap (delete bt
             (<[bt' := take n (cells ++ replicate (n - length cells) Vundef)]>
                (heap w))) w).
Proof.
  intros H. exists (fresh (dom (heap w))).
  pose proof (fresh_block_new (heap w)) as Hnew. split; [exact Hnew|].
  unfold realloc. unfold bind at 1. cbn [get_world]. rewrite H.
  unfold alloc. unfold bind at 1. unfold bind at 1. cbn [get_world].
  unfold bind at 1. cbn [modify ret].
  match goal with
  | |- bind _ _ ?w1 = _ =>
      assert (Hlive : heap w1 !! bt = Some cells)
        by (cbn [heap set_heap]; rewrite lookup_insert_ne by congruence; exact H)
  end.
  run (free_live _ _ _ Hlive). reflexivity.
Qed.

Lemma int_of_ok r w :
  (INT_MIN <= r <= INT_MAX)%Z -> int_of r w = Ret r w.
Proof.
  intros [H1 H2]. unfold int_of.
  apply Z.leb_le in H1, H2. rewrite H1, H2. reflexivity.
Qed.

Lemma int_of_overflow r w :
  (INT_MAX < r)%Z -> int_of r w = @Fault Z IntOverflow.
Proof.
  intros H. unfold int_of.
  replace (r <=? INT_MAX)%Z with false by (symmetry; apply Z.leb_gt, H).
  rewrite andb_false_r. reflexivity.
Qed.

(** ** The builtin dispatcher *)

Lemma first_token_inv h argv t :
  first_token h argv = Some t ->
  exists q rest, cells_at h argv = Some (Vptr q :: rest) /\
                 read_cstr h q = Some t /\
                 is_null q = false /\ is_null argv = false.
Proof.
  unfold first_token. intros H.
  destruct (cells_at h argv) as [[|[| |q] rest]|] eqn:Hc; try discriminate.
  exists q, rest. repeat split; auto.
  - destruct q; [discriminate H | reflexivity].
  - destruct argv; [discriminate Hc | reflexivity].
Qed.

(** A well-formed argument vector, read slot by slot. *)
Lemma read_argv_nil_inv h argv :
  read_argv h argv = Some [] ->
  exists rest, cells_at h argv = Some (Vptr NULL :: rest).
Proof.
  unfold read_argv. intros H.
  destruct (cells_at h argv) as [[|[| |[|b off]] rest]|]; try discriminate.
  - eauto.
  - simpl in H. destruct (read_cstr h (Ptr b off)), (argv_of h rest); discriminate.
Qed.

Lemma read_argv_cons_inv h argv t args :
  read_argv h argv = Some (t :: args) ->
  first_token h argv = Some t /\ second_arg h argv = Some (head args).
Proof.
  unfold read_argv, first_token, second_arg. intros H.
  destruct (cells_at h argv) as [[|[| |q] rest]|] eqn:Hc; try discriminate.
  rewrite (cells_at_next _ _ _ _ Hc).
  destruct q as [|b off]; [discriminate|]. cbn [argv_of] in H.
  destruct (read_cstr h (Ptr b off)) as [s|]; [|discriminate].
  destruct (argv_of h rest) as [l|] eqn:Hrest; [|discriminate].
  inversion H; subst. split; [reflexivity|].
  destruct rest as [|[| |[|b2 off2]] rest2]; try discriminate.
  - inversion Hrest. reflexivity.
  - cbn [argv_of] in Hrest.
    destruct (read_cstr h (Ptr b2 off2)) as [s2|]; [|discriminate].
    destruct (argv_of h rest2); [|discriminate].
    inversion Hrest. reflexivity.
Qed.

Lemma do_builtin_dispatch sh argv t w :
  first_token (heap w) argv = Some t ->
  do_builtin sh argv w = dispatch t argv w.
Proof.
  intros H. destruct (first_token_inv _ _ _ H) as (q & rest & Hc & Hq & Hn & Hn').
  unfold do_builtin, dispatch. rewrite Hn'.
  run (load_ptr_ok _ _ _ _ Hc). rewrite Hn.
  run (strcmp_lit_ok _ _ _ _ Hq). rewrite strcmp_eqb.
  destruct (bool_decide (t = lit "exit")); [reflexivity|].
  run (strcmp_lit_ok _ _ _ _ Hq). rewrite strcmp_eqb.
  destruct (bool_decide (t = lit "cd")); [reflexivity|].
  run (strcmp_lit_ok _ _ _ _ Hq). rewrite strcmp_eqb.
  destruct (bool_decide (t = lit "history")); reflexivity.
Qed.

Lemma do_builtin_empty sh argv rest w :
  cells_at (heap w) argv = Some (Vptr NULL :: rest) ->
  do_builtin sh argv w = Ret false w.
Proof.
  intros Hc. unfold do_builtin. destruct argv; [reflexivity|]. cbn [is_null].
  run (load_ptr_ok _ _ _ _ Hc). reflexivity.
Qed.

(** C10: the session argument of [do_builtin] is never read: for any two
    sessions, null included, the same argument vector and the same process
    state give the same result and the same effects. *)
Theorem do_builtin_ignores_session (sh1 sh2 : option shell) (argv : ptr) (w : world) :
  do_builtin sh1 argv w = do_builtin sh2 argv w.
Proof. reflexivity. Qed.

(** C6: for an argument vector that starts with "exit", [do_builtin] returns
    true and leaves the process running, its state untouched, if SKIP_EXIT is
    set to "1"; in every other case (unset, or set to another value) the
    process ends in exit(0). *)
Theorem do_builtin_exit (sh : option shell) (argv : ptr) (args : list cstring)
    (w : world) :
  read_argv (heap w) argv = Some (lit "exit" :: args) ->
  (environ w !! lit "SKIP_EXIT" = Some (lit "1") ->
   do_builtin sh argv w = Ret true w) /\
  (environ w !! lit "SKIP_EXIT" <> Some (lit "1") ->
   do_builtin sh argv w = Exited 0 w).
Proof.
  intros H. apply read_argv_cons_inv in H as [H _].
  rewrite (do_builtin_dispatch _ _ _ _ H). unfold dispatch.
  rewrite bool_decide_eq_true_2 by reflexivity.
  unfold exit_unless_bypass. run (getenv_ok _ _).
  split; intros E.
  - rewrite E. reflexivity.
  - destruct (environ w !! lit "SKIP_EXIT") as [v|]; [|reflexivity].
    rewrite strcmp_eqb, bool_decide_eq_false_2; [reflexivity|congruence].
Qed.

(** C7: [do_builtin] answers false for a null argument vector, for an empty
    one, and for one whose first token is none of "exit", "cd" and "history";
    for "history" it answers true and changes nothing. *)
Theorem do_builtin_not_builtin (sh : option shell) (argv : ptr) (w : world) :
  (argv = NULL -> do_builtin sh argv w = Ret false w) /\
  (read_argv (heap w) argv = Some [] -> do_builtin sh argv w = Ret false w) /\
  (forall t args, read_argv (heap w) argv = Some (t :: args) ->
     t <> lit "exit" -> t <> lit "cd" -> t <> lit "history" ->
     do_builtin sh argv w = Ret false w) /\
  (forall args, read_argv (heap w) argv = Some (lit "history" :: args) ->
     do_builtin sh argv w = Ret true w).
Proof.
  repeat split.
  - intros ->. reflexivity.
  - intros H. apply read_argv_nil_inv in H as [rest Hc].
    eapply do_builtin_empty, Hc.
  - intros t args H He Hc Hh. apply read_argv_cons_inv in H as [H _].
    rewrite (do_builtin_dispatch _ _ _ _ H). unfold dispatch.
    rewrite !bool_decide_eq_false_2 by assumption. reflexivity.
  - intros args H. apply read_argv_cons_inv in H as [H _].
    rewrite (do_builtin_dispatch _ _ _ _ H). reflexivity.
Qed.

(** ** The directory changer *)

Lemma change_dir_to_outcome t w : change_dir_to t w = chdir_outcome t w.
Proof.
  unfold change_dir_to, chdir_outcome, chdir, bind, get_world, modify. simpl.
  destruct (k_chdir (sys w) (cwd w) t); reflexivity.
Qed.

Lemma second_arg_inv h argv o :
  second_arg h argv = Some o ->
  exists q rest, cells_at h (ptr_add argv 1) = Some (Vptr q :: rest) /\
    match o with
    | None => q = NULL
    | Some s => is_null q = false /\ read_cstr h q = Some s
    end.
Proof.
  unfold second_arg. intros H.
  destruct (cells_at h (ptr_add argv 1)) as [[|[| |q] rest]|]; try discriminate.
  exists q, rest. split; [reflexivity|].
  destruct q as [|b off].
  - inversion H. reflexivity.
  - destruct (read_cstr h (Ptr b off)); [|discriminate].
    inversion H. auto.
Qed.

Lemma change_dir_outcome argv o w :
  second_arg (heap w) argv = Some o ->
  change_dir argv w =
    match resolve_target o (environ w !! lit "HOME")
                         (k_passwd (sys w) !! k_uid (sys w)) with
    | Some t => chdir_outcome t w
    | None =>
        Ret (-1)%Z
          (emit (Ev_perror (lit "change_dir: cannot determine home directory")
                           (errno w)) w)
    end.
Proof.
  intros H. destruct (second_arg_inv _ _ _ H) as (q & rest & Hc & Ho).
  unfold change_dir. run (load_ptr_ok _ _ _ _ Hc).
  destruct o as [s|]; simpl.
  - destruct Ho as [Hn Hs]. rewrite Hn.
    run (load_cstr_ok _ _ _ Hs).
    apply change_dir_to_outcome.
  - subst q. cbn [is_null]. run (getenv_ok _ _).
    destruct (environ w !! lit "HOME") as [t|]; [apply change_dir_to_outcome|].
    unfold getpwuid_dir, bind, get_world. simpl.
    destruct (k_passwd (sys w) !! k_uid (sys w)) as [t|];
      [apply change_dir_to_outcome | reflexivity].
Qed.


(** C5: for an argument vector that starts with "cd", [do_builtin] runs
    [change_dir] and answers true whatever [change_dir] returned: 0 or -1. *)
Theorem do_builtin_cd_handled (sh : option shell) (argv : ptr)
    (args : list cstring) (w : world) :
  read_argv (heap w) argv = Some (lit "cd" :: args) ->
  exists r w', change_dir argv w = Ret r w' /\
               (r = 0 \/ r = -1)%Z /\
               do_builtin sh argv w = Ret true w'.
Proof.
  intros H. apply read_argv_cons_inv in H as [H1 H2].
  rewrite (do_builtin_dispatch _ _ _ _ H1). unfold dispatch.
  rewrite bool_decide_eq_false_2 by discriminate.
  rewrite bool_decide_eq_true_2 by reflexivity.
  assert (Hcd : exists r w', change_dir argv w = Ret r w' /\ (r = 0 \/ r = -1)%Z).
  { rewrite (change_dir_outcome _ _ _ H2).
    destruct (resolve_target _ _ _) as [t|]; [|eauto].
    unfold chdir_outcome. destruct (k_chdir _ _ _); eauto. }
  destruct Hcd as (r & w' & Hr & Hv). exists r, w'.
  split; [exact Hr|]. split; [exact Hv|].
  run Hr. reflexivity.
Qed.

(** ** The prompt and the session *)

Lemma lit_shell_ok : cstr_ok (lit "shell>") = true.
Proof. reflexivity. Qed.

(** C3: [get_prompt] returns an owned copy of the value of the variable when
    it is set, the empty string included, and an owned copy of "shell>" when
    it is unset. *)
Theorem get_prompt_value (env : cstring) (w : world) :
  (forall v, environ w !! env = Some v -> cstr_ok v = true ->
     exists p w', get_prompt env w = Ret p w' /\ owned_copy w w' p v) /\
  (environ w !! env = Some [] ->
     exists p w', get_prompt env w = Ret p w' /\
                  read_cstr (heap w') p = Some []) /\
  (environ w !! env = None ->
     exists p w', get_prompt env w = Ret p w' /\
                  owned_copy w w' p (lit "shell>")).
Proof.
  assert (Hset : forall v, environ w !! env = Some v -> cstr_ok v = true ->
     exists p w', get_prompt env w = Ret p w' /\ owned_copy w w' p v).
  { intros v Hv Hok. unfold get_prompt.
    run (getenv_ok _ _). rewrite Hv.
    apply strdup_of_owned, Hok. }
  split; [exact Hset|]. split.
  - intros Hv. destruct (Hset [] Hv eq_refl) as (p & w' & Hr & b & _ & _ & _ & Hread).
    exists p, w'. split; assumption.
  - intros Hv. unfold get_prompt.
    run (getenv_ok _ _). rewrite Hv.
    apply strdup_of_owned, lit_shell_ok.
Qed.

Lemma get_prompt_live env w :
  exists b, get_prompt env w = Ret (Ptr b 0)
              (set_heap (<[b := str_cells (default (lit "shell>") (environ w !! env))]>
                           (heap w)) w).
Proof.
  exists (fresh (dom (heap w))). unfold get_prompt.
  run (getenv_ok _ _).
  destruct (environ w !! env); reflexivity.
Qed.

(** A session that [sh_init] returned owns its prompt. *)
Lemma sh_init_owns_prompt s0 o w w' :
  sh_init (Some s0) w = Ret o w' -> exists s, o = Some s /\ owns_prompt w' s.
Proof.
  unfold sh_init. unfold bind at 1.
  destruct (isatty _ w) as [tty w0| |]; try discriminate.
  run (getenv_ok _ _).
  intros H. unfold bind at 1 in H.
  match type of H with
  | match ?m w0 with _ => _ end = _ => destruct (m w0) as [s1 w1| |] eqn:E
  end; try discriminate.
  destruct (get_prompt_live (lit "MY_PROMPT") w1) as [b Hb].
  rewrite (bind_ret _ _ _ _ _ Hb) in H. inversion H; subst.
  eexists. split; [reflexivity|]. exists b. split; [reflexivity|].
  simpl. rewrite lookup_insert_eq. eauto.
Qed.

(** C9: on a session that owns its prompt, [sh_destroy] frees the prompt
    block and nulls the field; the other fields and the rest of the process
    state stay as they were. A second [sh_destroy] on the session so left
    frees nothing and changes nothing. *)
Theorem sh_destroy_releases_prompt (s : shell) (w : world) :
  owns_prompt w s ->
  exists b s' w',
    prompt s = Ptr b 0 /\
    sh_destroy (Some s) w = Ret (Some s') w' /\
    w' = set_heap (delete b (heap w)) w /\
    prompt s' = NULL /\
    shell_is_interactive s' = shell_is_interactive s /\
    shell_pgid s' = shell_pgid s /\
    shell_tmodes s' = shell_tmodes s /\
    shell_terminal s' = shell_terminal s /\
    sh_destroy (Some s') w' = Ret (Some s') w'.
Proof.
  intros (b & Hp & cells & Hb).
  exists b, (set_prompt NULL s), (set_heap (delete b (heap w)) w).
  split; [exact Hp|]. split.
  - unfold sh_destroy. rewrite Hp. cbn [is_null].
    run (free_live _ _ _ Hb). reflexivity.
  - repeat split; reflexivity.
Qed.

(** ** The trimmer *)

Lemma take_drop_while p s : take_while p s ++ drop_while p s = s.
Proof.
  induction s as [|c s IH]; simpl; [reflexivity|].
  destruct (p c); simpl; [rewrite IH|]; reflexivity.
Qed.

Lemma take_while_all p s : forallb p (take_while p s) = true.
Proof.
  induction s as [|c s IH]; simpl; [reflexivity|].
  destruct (p c) eqn:E; simpl; [rewrite E, IH|]; reflexivity.
Qed.

Lemma drop_while_head p s c r : drop_while p s = c :: r -> p c = false.
Proof.
  induction s as [|x s IH]; simpl; [discriminate|].
  destruct (p x) eqn:E; [exact IH|]. intros H. inversion H; subst. exact E.
Qed.

Lemma drop_while_all p s : forallb p s = true -> drop_while p s = [].
Proof.
  induction s as [|c s IH]; simpl; [reflexivity|].
  destruct (p c); simpl; [exact IH | discriminate].
Qed.

Lemma drop_while_keeps p s c :
  p c = false -> drop_while p (s ++ [c]) <> [].
Proof.
  intros Hc. induction s as [|x s IH]; simpl.
  - rewrite Hc. discriminate.
  - destruct (p x); [exact IH | discriminate].
Qed.

Lemma drop_while_length p s : length (drop_while p s) <= length s.
Proof.
  induction s as [|c s IH]; simpl; [lia|]. destruct (p c); simpl; lia.
Qed.

Lemma take_while_nonempty p c s :
  p c = true -> take_while p (c :: s) <> [].
Proof. intros H. simpl. rewrite H. discriminate. Qed.

Lemma forallb_rev' (p : ascii -> bool) s : forallb p (rev s) = forallb p s.
Proof.
  induction s as [|c s IH]; simpl; [reflexivity|].
  rewrite forallb_app, IH. simpl. rewrite andb_true_r. apply andb_comm.
Qed.

(** A string that starts with a non-space character splits into what [trim]
    keeps, ending in a non-space character, and the spaces it drops. *)
Lemma trim_split c s :
  isspace c = false ->
  exists keep0 cl dropped,
    c :: s = (keep0 ++ [cl]) ++ dropped /\
    trim (c :: s) = keep0 ++ [cl] /\
    isspace cl = false /\ forallb isspace dropped = true.
Proof.
  intros Hc. unfold trim. simpl drop_while at 2. rewrite Hc.
  pose proof (take_drop_while isspace (rev (c :: s))) as Hsplit.
  destruct (drop_while isspace (rev (c :: s))) as [|cl k] eqn:Hk.
  - exfalso. simpl rev in Hk. revert Hk. apply drop_while_keeps, Hc.
  - exists (rev k), cl, (rev (take_while isspace (rev (c :: s)))).
    split; [|split; [reflexivity|split]].
    + rewrite <- (rev_involutive (c :: s)), <- Hsplit at 1.
      rewrite rev_app_distr. reflexivity.
    + eapply drop_while_head, Hk.
    + rewrite forallb_rev'. apply take_while_all.
Qed.

Lemma skip_leading_spec b w s :
  forall fuel pre rest,
    heap w !! b = Some (pre ++ map Vchar s ++ Vchar NUL :: rest) ->
    cstr_ok s = true -> length s <= fuel ->
    skip_leading fuel (Ptr b (length pre)) w =
      Ret (Ptr b (length pre + length (take_while isspace s))) w.
Proof.
  induction s as [|c s IH]; intros fuel pre rest Hb Hok Hfuel.
  - destruct fuel; simpl;
      run (load_char_ok _ _ _ _ (cells_at_split _ _ _ _ Hb));
      simpl; rewrite Nat.add_0_r; reflexivity.
  - apply cstr_ok_cons in Hok as [Hc Hok].
    destruct fuel as [|fuel]; [simpl in Hfuel; lia|].
    simpl in Hb. simpl skip_leading.
    run (load_char_ok _ _ _ _ (cells_at_split _ _ _ _ Hb)).
    rewrite Hc. simpl. destruct (isspace c).
    + replace (length pre + 1) with (length (pre ++ [Vchar c]))
        by (rewrite length_app; reflexivity).
      rewrite (IH fuel (pre ++ [Vchar c]) rest).
      * rewrite length_app. simpl. f_equal. f_equal. lia.
      * rewrite <- app_assoc. exact Hb.
      * exact Hok.
      * simpl in Hfuel. lia.
    + rewrite Nat.add_0_r. reflexivity.
Qed.

Lemma skip_trailing_spec b w pre keep0 cl :
  isspace cl = false ->
  forall dropped fuel tail,
    heap w !! b =
      Some (pre ++ map Vchar keep0 ++ Vchar cl :: map Vchar dropped ++ tail) ->
    forallb isspace dropped = true -> length dropped <= fuel ->
    skip_trailing fuel (Ptr b (length pre))
                  (Ptr b (length pre + length keep0 + length dropped)) w =
      Ret (Ptr b (length pre + length keep0)) w.
Proof.
  intros Hcl dropped. induction dropped as [|c d IH] using rev_ind;
    intros fuel tail Hb Hsp Hfuel.
  - simpl length. rewrite Nat.add_0_r.
    assert (Hload : load_char (Ptr b (length pre + length keep0)) w = Ret cl w).
    { eapply load_char_ok. rewrite <- (length_map Vchar keep0), <- length_app.
      apply cells_at_split. rewrite <- app_assoc. exact Hb. }
    destruct fuel; simpl; rewrite Nat.eqb_refl; simpl;
      (destruct (length pre <? length pre + length keep0)%nat; [|reflexivity]);
      run Hload; rewrite Hcl; reflexivity.
  - rewrite forallb_app in Hsp. apply andb_true_iff in Hsp as [Hsp Hc].
    simpl in Hc. rewrite andb_true_r in Hc.
    rewrite length_app in *. simpl length in *.
    destruct fuel as [|fuel]; [lia|].
    assert (Hload : load_char
               (Ptr b (length pre + length keep0 + (length d + 1))) w = Ret c w).
    { eapply load_char_ok.
      replace (length pre + length keep0 + (length d + 1))
        with (length (pre ++ map Vchar keep0 ++ Vchar cl :: map Vchar d)).
      - apply cells_at_split. rewrite Hb. f_equal. list_assoc.
      - rewrite !length_app. simpl. rewrite !length_map. lia. }
    simpl skip_trailing. rewrite Nat.eqb_refl. simpl.
    replace (length pre <? length pre + length keep0 + (length d + 1))%nat
      with true by (symmetry; apply Nat.ltb_lt; lia).
    run Hload. rewrite Hc.
    replace (length pre + length keep0 + (length d + 1))
      with (S (length pre + length keep0 + length d)) by lia.
    simpl ptr_dec. unfold bind at 1. simpl.
    apply (IH fuel (Vchar c :: tail)).
    + rewrite Hb. f_equal. list_assoc.
    + exact Hsp.
    + lia.
Qed.

(** C2: [trim_white] returns null for null. For a string s at (b, off) it
    returns the pointer into the same block advanced past the leading
    whitespace of s, and the string there is then s without its leading and
    trailing whitespace: the empty string when s is all whitespace. The call
    works in place. *)
Theorem trim_white_trims (w : world) :
  trim_white NULL w = Ret NULL w /\
  forall b off s,
    read_cstr (heap w) (Ptr b off) = Some s ->
    let p := Ptr b (off + length (take_while isspace s)) in
    exists w',
      trim_white (Ptr b off) w = Ret p w' /\
      read_cstr (heap w') p = Some (trim s) /\
      (forallb isspace s = true -> trim s = []) /\
      in_place b w w'.
Proof.
  split; [reflexivity|]. intros b off s Hread p.
  destruct (read_cstr_inv _ _ _ _ Hread) as (Hok & pre & rest & Hb & Hoff).
  subst off. subst p.
  pose proof (take_drop_while isspace s) as Hs.
  set (lead := take_while isspace s) in *.
  assert (Hall : forallb isspace s = true -> trim s = []).
  { intros Ha. unfold trim. rewrite (drop_while_all _ _ Ha). reflexivity. }
  unfold trim_white. cbn [is_null].
  run (block_size_ok _ _ _ _ Hb).
  assert (Hfuel : length s <=
            length (pre ++ map Vchar s ++ Vchar NUL :: rest)).
  { rewrite !length_app, length_map. lia. }
  run (skip_leading_spec _ _ _ _ _ _ Hb Hok Hfuel).
  fold lead.
  assert (HL : length pre + length lead = length (pre ++ map Vchar lead))
    by (rewrite length_app, length_map; reflexivity).
  rewrite HL.
  destruct (drop_while isspace s) as [|c s2] eqn:Hs1.
  - (* nothing but whitespace *)
    assert (Hb' : heap w !! b =
              Some ((pre ++ map Vchar lead) ++ map Vchar [] ++ Vchar NUL :: rest)).
    { rewrite Hb. f_equal. rewrite <- Hs, app_nil_r. list_assoc. }
    run (load_char_ok _ _ _ _ (cells_at_split _ _ _ _ Hb')).
    cbn [is_nul NUL Ascii.eqb Bool.eqb]. exists w. split; [reflexivity|].
    split; [|split; [exact Hall|]].
    + unfold trim. rewrite Hs1. simpl. apply (read_cstr_split _ _ _ [] rest Hb').
      reflexivity.
    + split; [reflexivity|]. split; [|symmetry; apply set_heap_same].
      eexists _, _. split; [exact Hb|]. split; [exact Hb|reflexivity].
  - (* some content: c starts it *)
    assert (Hc : isspace c = false) by (eapply drop_while_head, Hs1).
    assert (Hok1 : cstr_ok (c :: s2) = true).
    { rewrite <- Hs in Hok. apply cstr_ok_app in Hok. tauto. }
    assert (Htrim : trim s = trim (c :: s2)).
    { unfold trim. rewrite Hs1. simpl. rewrite Hc. reflexivity. }
    destruct (trim_split c s2 Hc) as (keep0 & cl & dropped & Hsplit & Hkeep & Hcl & Hdr).
    assert (Hb1 : heap w !! b =
              Some ((pre ++ map Vchar lead) ++ map Vchar (c :: s2) ++ Vchar NUL :: rest)).
    { rewrite Hb. f_equal. rewrite <- Hs. list_assoc. }
    assert (Hload : load_char (Ptr b (length (pre ++ map Vchar lead))) w = Ret c w).
    { eapply load_char_ok, cells_at_split. simpl in Hb1. exact Hb1. }
    run Hload.
    apply cstr_ok_cons in Hok1 as Hnul. destruct Hnul as [Hnul _]. rewrite Hnul.
    rewrite (bind_ret _ _ _ _ _
               (strlen_ok _ _ _ (read_cstr_split _ _ _ _ _ Hb1 Hok1))).
    assert (Hlen : length (c :: s2) = S (length keep0 + length dropped)).
    { rewrite Hsplit, !length_app. simpl. lia. }
    rewrite Hlen. cbn [ptr_add].
    replace (length (pre ++ map Vchar lead) + S (length keep0 + length dropped))
      with (S (length (pre ++ map Vchar lead) + length keep0 + length dropped))
      by lia.
    unfold bind at 1. cbn [ptr_dec ret].
    assert (Hb2 : heap w !! b =
              Some ((pre ++ map Vchar lead) ++ map Vchar keep0 ++
                    Vchar cl :: map Vchar dropped ++ Vchar NUL :: rest)).
    { rewrite Hb1, Hsplit. f_equal. list_assoc. }
    assert (Hfuel2 : length dropped <=
              length (pre ++ map Vchar s ++ Vchar NUL :: rest)).
    { rewrite <- Hs, Hsplit. rewrite !length_app, !length_map, !length_app.
      lia. }
    rewrite (bind_ret _ _ _ _ _
               (skip_trailing_spec _ _ _ _ _ Hcl _ _ _ Hb2 Hdr Hfuel2)).
    cbn [ptr_add].
    assert (Hcell : exists x post,
               map Vchar dropped ++ Vchar NUL :: rest = x :: post).
    { destruct dropped; simpl; eauto. }
    destruct Hcell as (x & post & Hx).
    assert (Hb3 : heap w !! b =
              Some (((pre ++ map Vchar lead) ++ map Vchar (keep0 ++ [cl])) ++
                    x :: post)).
    { rewrite Hb2, Hx. f_equal. list_assoc. }
    replace (length (pre ++ map Vchar lead) + length keep0 + 1)
      with (length ((pre ++ map Vchar lead) ++ map Vchar (keep0 ++ [cl])))
      by (rewrite !length_app, !length_map, length_app; simpl; lia).
    run (store_ok _ _ _ _ _ _ Hb3).
    eexists. split; [reflexivity|]. cbn [heap set_heap].
    rewrite Htrim, Hkeep. split; [|split; [rewrite <- Hkeep, <- Htrim; exact Hall|]].
    + apply (read_cstr_split _ _ _ _ post).
      * rewrite lookup_insert_eq. f_equal. list_assoc.
      * rewrite <- Hkeep. rewrite Hsplit in Hok1.
        apply cstr_ok_app in Hok1 as [Hk _]. rewrite Hkeep. exact Hk.
    + split; [intros b' Hne; apply lookup_insert_ne; congruence|].
      split; [|reflexivity].
      eexists _, _. split; [exact Hb3|].
      split; [apply lookup_insert_eq|]. rewrite !length_app. reflexivity.
Qed.

(** ** The tokenizer: what the tokens of a line are *)

Lemma tokens_of_skip ws s :
  forallb is_delim ws = true -> tokens_of (ws ++ s) = tokens_of s.
Proof.
  induction ws as [|c ws IH]; simpl; [reflexivity|].
  intros H. apply andb_true_iff in H as [Hc Hws]. rewrite Hc. auto.
Qed.

Lemma tokens_of_all_delims ws :
  forallb is_delim ws = true -> tokens_of ws = [].
Proof.
  intros H. rewrite <- (app_nil_r ws). rewrite tokens_of_skip; auto.
Qed.

(** A run of non-delimiters followed by a delimiter or by the end is the
    first token. *)
Lemma tokens_of_token t rest :
  t <> [] -> forallb not_delim t = true ->
  (rest = [] \/ exists c r, rest = c :: r /\ is_delim c = true) ->
  tokens_of (t ++ rest) = t :: tokens_of rest.
Proof.
  intros Hne Ht Hrest. induction t as [|c t IH]; [congruence|].
  simpl in Ht. apply andb_true_iff in Ht as [Hc Ht].
  unfold not_delim in Hc. apply negb_true_iff in Hc.
  destruct t as [|c2 t].
  - simpl. rewrite Hc. destruct Hrest as [->|(d & r & -> & Hd)].
    + reflexivity.
    + rewrite Hd. reflexivity.
  - assert (Hc2 : is_delim c2 = false).
    { simpl in Ht. apply andb_true_iff in Ht as [Hc2 _].
      apply negb_true_iff in Hc2. exact Hc2. }
    change ((c :: c2 :: t) ++ rest) with (c :: (c2 :: t) ++ rest).
    cbn [tokens_of]. rewrite Hc.
    change ((c2 :: t) ++ rest) with (c2 :: t ++ rest) at 1. cbv iota.
    rewrite Hc2. rewrite IH by (discriminate || assumption). reflexivity.
Qed.

(** The relation determines the tokens, and the function computes them. *)
Lemma runs_tokens_of s toks : runs s toks -> tokens_of s = toks.
Proof.
  induction 1 as [ws Hws | ws t Hws Hne Ht | ws t c rest toks Hws Hne Ht Hc _ IH].
  - apply tokens_of_all_delims, Hws.
  - rewrite tokens_of_skip by exact Hws.
    rewrite <- (app_nil_r t) at 1. rewrite tokens_of_token; auto.
  - rewrite tokens_of_skip by exact Hws.
    rewrite tokens_of_token; eauto.
    f_equal. simpl. rewrite Hc. exact IH.
Qed.

Lemma runs_total s : exists toks, runs s toks.
Proof.
  remember (length s) as n eqn:Hn. revert s Hn.
  induction n as [n IH] using lt_wf_ind. intros s Hn.
  pose proof (take_drop_while is_delim s) as Hs.
  pose proof (take_while_all is_delim s) as Hws.
  destruct (drop_while is_delim s) as [|c s1] eqn:Hs1.
  - exists []. rewrite app_nil_r in Hs. rewrite <- Hs. apply runs_none, Hws.
  - assert (Hc : not_delim c = true).
    { unfold not_delim. apply negb_true_iff. eapply drop_while_head, Hs1. }
    pose proof (take_drop_while not_delim (c :: s1)) as Ht.
    pose proof (take_while_all not_delim (c :: s1)) as Htok.
    pose proof (take_while_nonempty not_delim c s1 Hc) as Hne.
    remember (take_while not_delim (c :: s1)) as t eqn:Et. clear Et.
    destruct (drop_while not_delim (c :: s1)) as [|d rest] eqn:Hrest.
    + exists [t].
      rewrite <- Hs, <- Ht, app_nil_r. apply runs_last; assumption.
    + assert (Hd : is_delim d = true).
      { apply drop_while_head in Hrest. unfold not_delim in Hrest.
        apply negb_false_iff in Hrest. exact Hrest. }
      destruct (IH (length rest)) with (s := rest) as [toks Htoks]; [|reflexivity|].
      { subst n. rewrite <- Hs, <- Ht, !length_app. simpl. lia. }
      exists (t :: toks).
      rewrite <- Hs, <- Ht. apply runs_more; assumption.
Qed.

Lemma runs_of_tokens_of s : runs s (tokens_of s).
Proof.
  destruct (runs_total s) as [toks H].
  rewrite (runs_tokens_of _ _ H). exact H.
Qed.

Lemma runs_functional s toks1 toks2 : runs s toks1 -> runs s toks2 -> toks1 = toks2.
Proof.
  intros H1 H2. apply runs_tokens_of in H1, H2. congruence.
Qed.


(** n tokens take at least 2n - 1 characters. *)
Lemma runs_twice_length s toks : runs s toks -> 2 * length toks <= length s + 1.
Proof.
  induction 1 as [| ws [|c t] | ws [|c t]]; simpl; try congruence; try lia.
  - rewrite length_app. simpl. lia.
  - rewrite !length_app. simpl. rewrite length_app. simpl. lia.
Qed.

Lemma runs_length s toks : runs s toks -> length toks <= length s.
Proof.
  induction 1 as [| ws [|c t] | ws [|c t]]; simpl; try congruence; try lia.
  - rewrite length_app. simpl. lia.
  - rewrite !length_app. simpl. rewrite length_app. simpl. lia.
Qed.

(** ** The tokenizer: [strtok] *)

(** The delimiters are space, tab, carriage return and newline. *)
Lemma is_delim_spec c :
  is_delim c = true <->
  c = " "%char \/ c = "009"%char \/ c = "013"%char \/ c = "010"%char.
Proof.
  unfold is_delim, in_set, DELIMS. cbn [existsb].
  rewrite !orb_true_iff, !Ascii.eqb_eq. intuition discriminate.
Qed.

Lemma delim_not_nul c : is_delim c = true -> is_nul c = false.
Proof.
  intros H. destruct (is_nul c) eqn:E; [|reflexivity].
  apply is_nul_true in E. subst c. vm_compute in H. discriminate H.
Qed.

Lemma strspn_run ws c r :
  forallb is_delim ws = true ->
  is_nul c = true \/ is_delim c = false ->
  strspn (map Vchar ws ++ Vchar c :: r) DELIMS = Some (length ws).
Proof.
  intros Hws Hc. induction ws as [|d ws IH]; simpl.
  - destruct (is_nul c); [reflexivity|].
    destruct Hc as [Hc|Hc]; [discriminate|].
    unfold is_delim in Hc. rewrite Hc. reflexivity.
  - simpl in Hws. apply andb_true_iff in Hws as [Hd Hws].
    rewrite (delim_not_nul _ Hd). unfold is_delim in Hd. rewrite Hd.
    rewrite (IH Hws). reflexivity.
Qed.

Lemma strcspn_run t c r :
  forallb not_delim t = true -> cstr_ok t = true ->
  is_nul c = true \/ is_delim c = true ->
  strcspn (map Vchar t ++ Vchar c :: r) DELIMS = Some (length t).
Proof.
  intros Ht Hok Hc. induction t as [|d t IH]; simpl.
  - destruct (is_nul c); [reflexivity|].
    destruct Hc as [Hc|Hc]; [discriminate|].
    unfold is_delim in Hc. rewrite Hc. reflexivity.
  - simpl in Ht. apply andb_true_iff in Ht as [Hd Ht].
    apply cstr_ok_cons in Hok as [Hn Hok]. rewrite Hn.
    unfold not_delim, is_delim in Hd. apply negb_true_iff in Hd. rewrite Hd.
    rewrite (IH Ht Hok). reflexivity.
Qed.

Lemma not_delim_head c t : forallb not_delim (c :: t) = true -> is_delim c = false.
Proof.
  simpl. intros H. apply andb_true_iff in H as [H _].
  apply negb_true_iff in H. exact H.
Qed.

(** One call of [strtok] on the tokenizer's working copy. The scan position
    (the argument, or the saved pointer when the argument is null) points at
    the string rest inside block bl. With no token left the call returns null
    and leaves the heap alone; otherwise it returns the first token of rest,
    now NUL-terminated in place, and saves the position of what follows. *)
Lemma strtok_next w src bl off rest toks :
  (if is_null src then strtok_save w else src) = Ptr bl off ->
  read_cstr (heap w) (Ptr bl off) = Some rest ->
  runs rest toks ->
  match toks with
  | [] =>
      exists w', strtok src DELIMS w = Ret NULL w' /\
                 heap w' = heap w /\ outside w' = outside w
  | t :: toks' =>
      exists w' st off' rest' cells',
        strtok src DELIMS w = Ret (Ptr bl st) w' /\
        heap w' = <[bl := cells']> (heap w) /\ outside w' = outside w /\
        strtok_save w' = Ptr bl off' /\
        read_cstr (heap w') (Ptr bl st) = Some t /\
        read_cstr (heap w') (Ptr bl off') = Some rest' /\
        runs rest' toks'
  end.
Proof.
  intros Hsrc Hread Hruns.
  destruct (read_cstr_inv _ _ _ _ Hread) as (Hok & pre & tail & Hb & Hoff).
  subst off.
  inversion Hruns as [ws Hws E1 E2 | ws t Hws Hne Ht E1 E2
                     | ws t c rest' toks' Hws Hne Ht Hc Hrest E1 E2];
    subst; clear Hruns;
    unfold strtok; unfold bind at 1; cbn [get_world]; rewrite Hsrc.
  - (* only delimiters are left *)
    rewrite (cells_at_split _ _ _ _ Hb). unfold lift at 1.
    unfold bind at 1. cbn [ret].
    rewrite strspn_run by (auto using is_nul_NUL). unfold lift at 1.
    unfold bind at 1. cbn [ret ptr_add].
    assert (Hb' : heap w !! bl =
              Some ((pre ++ map Vchar rest) ++ Vchar NUL :: tail)).
    { rewrite Hb. f_equal. list_assoc. }
    replace (length pre + length rest) with (length (pre ++ map Vchar rest))
      by (rewrite length_app, length_map; reflexivity).
    run (load_char_ok _ _ _ _ (cells_at_split _ _ _ _ Hb')).
    rewrite is_nul_NUL. eexists. split; [reflexivity|]. split; reflexivity.
  - (* the last token runs to the end of the line *)
    destruct t as [|c0 t]; [congruence|].
    apply cstr_ok_app in Hok as [Hokws Hokt].
    apply cstr_ok_cons in Hokt as Hn0. destruct Hn0 as [Hn0 _].
    assert (Hb1 : heap w !! bl =
              Some (pre ++ map Vchar ws ++ Vchar c0 ::
                    (map Vchar t ++ Vchar NUL :: tail))).
    { rewrite Hb. f_equal. list_assoc. }
    rewrite (cells_at_split _ _ _ _ Hb1). unfold lift at 1.
    unfold bind at 1. cbn [ret].
    rewrite strspn_run by (eauto using not_delim_head). unfold lift at 1.
    unfold bind at 1. cbn [ret ptr_add].
    assert (Hb2 : heap w !! bl =
              Some ((pre ++ map Vchar ws) ++ map Vchar (c0 :: t) ++ Vchar NUL :: tail)).
    { rewrite Hb. f_equal. list_assoc. }
    assert (Hlen2 : length pre + length ws = length (pre ++ map Vchar ws))
      by (rewrite length_app, length_map; reflexivity).
    rewrite Hlen2.
    run (load_char_ok _ _ _ _ (cells_at_split _ _ _ _ Hb2)).
    rewrite Hn0. rewrite drop_app_length' by (rewrite length_map; reflexivity).
    change (Vchar c0 :: map Vchar t ++ Vchar NUL :: tail)
      with (map Vchar (c0 :: t) ++ Vchar NUL :: tail).
    rewrite strcspn_run by (auto using is_nul_NUL). unfold lift at 1.
    unfold bind at 1. cbn [ret ptr_add].
    assert (Hb3 : heap w !! bl =
              Some (((pre ++ map Vchar ws) ++ map Vchar (c0 :: t)) ++
                    map Vchar [] ++ Vchar NUL :: tail)).
    { rewrite Hb. f_equal. list_assoc. }
    replace (length (pre ++ map Vchar ws) + length (c0 :: t))
      with (length ((pre ++ map Vchar ws) ++ map Vchar (c0 :: t)))
      by (rewrite (length_app _ (map Vchar (c0 :: t))), length_map; reflexivity).
    run (load_char_ok _ _ _ _ (cells_at_split _ _ _ _ Hb3)).
    rewrite is_nul_NUL.
    eexists _, _, _, [], _. split; [reflexivity|]. cbn [heap set_strtok_save].
    split; [symmetry; apply insert_id; exact Hb|].
    split; [reflexivity|]. split; [reflexivity|].
    split; [apply (read_cstr_split _ _ _ _ _ Hb2 Hokt)|].
    split; [apply (read_cstr_split _ _ _ _ _ Hb3 eq_refl)|].
    apply runs_none. reflexivity.
  - (* a token, a delimiter, and more *)
    destruct t as [|c0 t]; [congruence|].
    apply cstr_ok_app in Hok as [Hokws Hok].
    apply cstr_ok_app in Hok as [Hokt Hok].
    apply cstr_ok_cons in Hok as [_ Hokr].
    apply cstr_ok_cons in Hokt as Hn0. destruct Hn0 as [Hn0 _].
    assert (Hb1 : heap w !! bl =
              Some (pre ++ map Vchar ws ++ Vchar c0 ::
                    (map Vchar t ++ Vchar c :: map Vchar rest' ++ Vchar NUL :: tail))).
    { rewrite Hb. f_equal. list_assoc. }
    rewrite (cells_at_split _ _ _ _ Hb1). unfold lift at 1.
    unfold bind at 1. cbn [ret].
    rewrite strspn_run by (eauto using not_delim_head). unfold lift at 1.
    unfold bind at 1. cbn [ret ptr_add].
    assert (Hb2 : heap w !! bl =
              Some ((pre ++ map Vchar ws) ++ map Vchar (c0 :: t) ++
                    Vchar c :: map Vchar rest' ++ Vchar NUL :: tail)).
    { rewrite Hb. f_equal. list_assoc. }
    assert (Hlen2 : length pre + length ws = length (pre ++ map Vchar ws))
      by (rewrite length_app, length_map; reflexivity).
    rewrite Hlen2.
    run (load_char_ok _ _ _ _ (cells_at_split _ _ _ _ Hb2)).
    rewrite Hn0. rewrite drop_app_length' by (rewrite length_map; reflexivity).
    change (Vchar c0 :: map Vchar t ++ Vchar c :: map Vchar rest' ++ Vchar NUL :: tail)
      with (map Vchar (c0 :: t) ++ Vchar c :: map Vchar rest' ++ Vchar NUL :: tail).
    rewrite strcspn_run by auto. unfold lift at 1.
    unfold bind at 1. cbn [ret ptr_add].
    assert (Hb3 : heap w !! bl =
              Some (((pre ++ map Vchar ws) ++ map Vchar (c0 :: t)) ++
                    Vchar c :: map Vchar rest' ++ Vchar NUL :: tail)).
    { rewrite Hb. f_equal. list_assoc. }
    replace (length (pre ++ map Vchar ws) + length (c0 :: t))
      with (length ((pre ++ map Vchar ws) ++ map Vchar (c0 :: t)))
      by (rewrite (length_app _ (map Vchar (c0 :: t))), length_map; reflexivity).
    run (load_char_ok _ _ _ _ (cells_at_split _ _ _ _ Hb3)).
    rewrite (delim_not_nul _ Hc).
    run (store_ok _ _ _ _ _ _ Hb3).
    eexists _, _, _, rest', _. split; [reflexivity|].
    cbn [heap set_strtok_save set_heap].
    split; [reflexivity|]. split; [reflexivity|]. split; [reflexivity|].
    split.
    + apply (read_cstr_split _ _ _ _ (map Vchar rest' ++ Vchar NUL :: tail)).
      * rewrite lookup_insert_eq. f_equal. list_assoc.
      * exact Hokt.
    + split; [|exact Hrest].
      replace (length ((pre ++ map Vchar ws) ++ map Vchar (c0 :: t)) + 1)
        with (length (((pre ++ map Vchar ws) ++ map Vchar (c0 :: t)) ++ [Vchar NUL]))
        by (rewrite (length_app _ [Vchar NUL]); reflexivity).
      apply (read_cstr_split _ _ _ _ tail).
      * rewrite lookup_insert_eq. f_equal. list_assoc.
      * exact Hokr.
Qed.

Lemma strtok_step w src bl off rest toks :
  (if is_null src then strtok_save w else src) = Ptr bl off ->
  read_cstr (heap w) (Ptr bl off) = Some rest ->
  runs rest toks ->
  exists token w' cells',
    strtok src DELIMS w = Ret token w' /\
    heap w' = <[bl := cells']> (heap w) /\
    outside w' = outside w /\
    at_token bl toks token w'.
Proof.
  intros Hsrc Hread Hruns.
  pose proof (strtok_next _ _ _ _ _ _ Hsrc Hread Hruns) as H.
  destruct toks as [|t toks'].
  - destruct H as (w' & Hr & Hh & Ho).
    destruct (read_cstr_inv _ _ _ _ Hread) as (_ & pre & tail & Hb & _).
    exists NULL, w', (pre ++ map Vchar rest ++ Vchar NUL :: tail).
    split; [exact Hr|]. split; [|split; [exact Ho|reflexivity]].
    rewrite Hh. symmetry. apply insert_id, Hb.
  - destruct H as (w' & st & off' & rest' & cells' & Hr & Hh & Ho & Hs & Ht & Hrest & Hruns').
    exists (Ptr bl st), w', cells'. split; [exact Hr|].
    split; [exact Hh|]. split; [exact Ho|].
    exists st, off', rest'. auto.
Qed.

(** ** The tokenizer: the token array *)

Lemma holds_same h h' bs ts :
  holds h bs ts -> (forall b, b ∈ bs -> h' !! b = h !! b) -> holds h' bs ts.
Proof.
  intros H. induction H as [|b t bs ts [Hb Hok] _ IH]; intros Hsame.
  - constructor.
  - constructor.
    + split; [|exact Hok]. rewrite Hsame; [exact Hb|]. apply list_elem_of_here.
    + apply IH. intros b' Hin. apply Hsame. apply list_elem_of_further, Hin.
Qed.

Lemma holds_live h bs ts b : holds h bs ts -> b ∈ bs -> is_Some (h !! b).
Proof.
  intros H. induction H as [|b' t bs ts [Hb _] _ IH]; intros Hin.
  - inversion Hin.
  - apply elem_of_cons in Hin as [->|Hin]; eauto.
Qed.

Lemma holds_fresh h bs ts b : holds h bs ts -> h !! b = None -> b ∉ bs.
Proof.
  intros H Hb Hin. destruct (holds_live _ _ _ _ H Hin) as [c Hc]. congruence.
Qed.

Lemma holds_app h bs ts b t :
  holds h bs ts -> h !! b = Some (str_cells t) -> cstr_ok t = true ->
  holds h (bs ++ [b]) (ts ++ [t]).
Proof.
  intros H Hb Hok. apply Forall2_app; [exact H|].
  constructor; [split; assumption | constructor].
Qed.

Lemma argv_of_holds h bs ts rest :
  holds h bs ts -> argv_of h (tok_ptrs bs ++ Vptr NULL :: rest) = Some ts.
Proof.
  intros H. induction H as [|b t bs ts [Hb Hok] _ IH]; simpl; [reflexivity|].
  rewrite (read_cstr_start _ _ _ Hok Hb), IH. reflexivity.
Qed.

Lemma tok_ptrs_app bs b : tok_ptrs (bs ++ [b]) = tok_ptrs bs ++ [Vptr (Ptr b 0)].
Proof. unfold tok_ptrs. rewrite map_app. reflexivity. Qed.

Lemma tok_ptrs_length bs : length (tok_ptrs bs) = length bs.
Proof. apply length_map. Qed.

(** *** The loop, for a fixed caller and a fixed working copy

    Through one run of [cmd_parse] the heap h0 the caller had on entry and the
    block bl of the working copy stay the same. *)
Section Loop.

Variable h0 : gmap block (list val).
Variable bl : block.

(** A token is appended: its copy bn is new, and slot [length bs] of the
    array now points at it. *)
Lemma tok_inv_push bt n bs ts h bn t x post :
  tok_inv h0 bl bt n bs ts h ->
  h !! bt = Some (tok_ptrs bs ++ x :: post) ->
  h !! bn = None -> cstr_ok t = true ->
  tok_inv h0 bl bt n (bs ++ [bn]) (ts ++ [t])
    (<[bt := tok_ptrs bs ++ Vptr (Ptr bn 0) :: post]>
       (<[bn := str_cells t]> h)).
Proof.
  intros ((post0 & Hbt & Hlen) & Hholds & Hne & Hbt_bs & Hbl_bs & Hpres & H0t & H0l
          & Hlive) Hbt' Hbn Hok.
  assert (Hbn_bt : bn <> bt) by congruence.
  assert (Hbn_bl : bn <> bl) by (destruct Hlive; congruence).
  assert (Hbn_bs : bn ∉ bs) by (eapply holds_fresh; eauto).
  repeat split.
  - exists post. rewrite lookup_insert_eq. split.
    + f_equal. rewrite tok_ptrs_app. list_assoc.
    + rewrite Hbt in Hbt'. inversion Hbt' as [E]. rewrite <- Hlen, E.
      rewrite tok_ptrs_app, !length_app. simpl. lia.
  - apply holds_app.
    + eapply holds_same; [exact Hholds|]. intros b Hin.
      rewrite !lookup_insert_ne; [reflexivity| |]; congruence.
    + rewrite lookup_insert_ne by congruence. apply lookup_insert_eq.
    + exact Hok.
  - exact Hne.
  - rewrite elem_of_app, list_elem_of_singleton. intros [?|?]; congruence.
  - rewrite elem_of_app, list_elem_of_singleton. intros [?|?]; congruence.
  - intros b cells Hb. assert (b <> bt) by congruence.
    assert (b <> bn) by (pose proof (Hpres _ _ Hb); congruence).
    rewrite !lookup_insert_ne by congruence. apply Hpres, Hb.
  - exact H0t.
  - exact H0l.
  - rewrite !lookup_insert_ne by congruence. exact Hlive.
Qed.

(** The array moves to a larger block bt'. *)
Lemma tok_inv_grow bt n bs ts h cells bt' n2 :
  tok_inv h0 bl bt n bs ts h ->
  h !! bt = Some cells -> h !! bt' = None -> n <= n2 ->
  tok_inv h0 bl bt' n2 bs ts
    (delete bt (<[bt' := take n2 (cells ++ replicate (n2 - length cells) Vundef)]> h)).
Proof.
  intros ((post & Hbt & Hlen) & Hholds & Hne & Hbt_bs & Hbl_bs & Hpres & H0t & H0l
          & Hlive) Hcells Hnew Hle.
  assert (Hne' : bt' <> bt) by congruence.
  rewrite Hbt in Hcells. inversion Hcells as [E]; subst cells.
  repeat split.
  - exists (post ++ replicate (n2 - n) Vundef).
    rewrite lookup_delete_ne by congruence. rewrite lookup_insert_eq. rewrite Hlen.
    assert (Hn2 : length ((tok_ptrs bs ++ post) ++ replicate (n2 - n) Vundef) = n2).
    { rewrite length_app, Hlen, length_replicate. lia. }
    split.
    + f_equal. rewrite take_ge by lia. list_assoc.
    + rewrite app_assoc. exact Hn2.
  - eapply holds_same; [exact Hholds|]. intros b Hin.
    assert (b <> bt) by congruence.
    assert (b <> bt').
    { intros ->. destruct (holds_live _ _ _ _ Hholds Hin). congruence. }
    rewrite lookup_delete_ne, lookup_insert_ne by congruence. reflexivity.
  - destruct Hlive. congruence.
  - eapply holds_fresh; eauto.
  - exact Hbl_bs.
  - intros b c Hb. assert (b <> bt) by congruence.
    assert (b <> bt') by (pose proof (Hpres _ _ Hb); congruence).
    rewrite lookup_delete_ne, lookup_insert_ne by congruence. apply Hpres, Hb.
  - destruct (h0 !! bt') eqn:E; [|reflexivity]. apply Hpres in E. congruence.
  - exact H0l.
  - assert (bl <> bt') by (destruct Hlive; congruence).
    rewrite lookup_delete_ne, lookup_insert_ne by congruence. exact Hlive.
Qed.

(** [strtok] rewrites the working copy. *)
Lemma tok_inv_scan bt n bs ts h cells' :
  tok_inv h0 bl bt n bs ts h ->
  tok_inv h0 bl bt n bs ts (<[bl := cells']> h).
Proof.
  intros ((post & Hbt & Hlen) & Hholds & Hne & Hbt_bs & Hbl_bs & Hpres & H0t & H0l
          & Hlive).
  repeat split; try assumption.
  - exists post. rewrite lookup_insert_ne by congruence. auto.
  - eapply holds_same; [exact Hholds|]. intros b Hin.
    rewrite lookup_insert_ne by congruence. reflexivity.
  - intros b c Hb. rewrite lookup_insert_ne by congruence. apply Hpres, Hb.
  - rewrite lookup_insert_eq. eauto.
Qed.

(** Every outcome of the loop: it returns with the remaining tokens appended
    to the array, or the doubling of [bufsize] overflows, which takes 2^30
    tokens. *)
Lemma cmd_parse_loop_outcome toks :
  forall fuel bt bufsize bs ts w token,
    tok_inv h0 bl bt (Z.to_nat bufsize) bs ts (heap w) ->
    (Z.of_nat (length bs) < bufsize <= INT_MAX)%Z ->
    length toks <= fuel ->
    at_token bl toks token w ->
    loop_post h0 bl bs ts toks w
      (cmd_parse_loop fuel (Ptr bt 0) bufsize (Z.of_nat (length bs)) token w).
Proof.
  induction toks as [|t toks IH];
    intros fuel bt bufsize bs ts w token Hinv Hbuf Hfuel Hat.
  - simpl in Hat. subst token.
    replace (cmd_parse_loop fuel (Ptr bt 0) bufsize (Z.of_nat (length bs)) NULL w)
      with (Ret (Ptr bt 0, Z.of_nat (length bs)) w) by (destruct fuel; reflexivity).
    exists bt, bufsize, []. rewrite !app_nil_r.
    split; [reflexivity|]. split; [exact Hinv|]. split; [lia|reflexivity].
  - destruct Hat as (st & off & rest & -> & Htok & Hsave & Hrest & Hruns).
    destruct fuel as [|fuel]; [simpl in Hfuel; lia|].
    cbn [cmd_parse_loop is_null].
    (* t = strdup(token) *)
    destruct (strdup_spec _ _ _ Htok) as (bn & Hbn & Hdup).
    run Hdup. clear Hdup.
    assert (Hokt : cstr_ok t = true).
    { apply read_cstr_inv in Htok as [Hokt _]. exact Hokt. }
    (* tokens[position] = t *)
    pose proof Hinv as ((post & Hbt & Hlen) & Hholds & Hne & Hbt_bs & Hbl_bs & Hpres
                        & H0t & H0l & Hlive).
    destruct post as [|x post].
    { rewrite app_nil_r, tok_ptrs_length in Hlen. lia. }
    assert (Hbt1 : heap (set_heap (<[bn := str_cells t]> (heap w)) w) !! bt =
                   Some (tok_ptrs bs ++ x :: post)).
    { cbn [heap set_heap]. rewrite lookup_insert_ne by congruence. exact Hbt. }
    replace (ptr_add (Ptr bt 0) (Z.to_nat (Z.of_nat (length bs))))
      with (Ptr bt (length (tok_ptrs bs)))
      by (simpl; rewrite Nat2Z.id, tok_ptrs_length; reflexivity).
    run (store_ok _ _ _ _ _ _ Hbt1). clear Hbt1.
    cbn [heap set_heap].
    pose proof (tok_inv_push _ _ _ _ _ _ _ _ _ Hinv Hbt Hbn Hokt) as Hinv2.
    set (h2 := <[bt := tok_ptrs bs ++ Vptr (Ptr bn 0) :: post]>
                 (<[bn := str_cells t]> (heap w))) in *.
    (* position++ *)
    unfold int_add. unfold INT_MAX in Hbuf.
    assert (Hint1 : (INT_MIN <= Z.of_nat (length bs) + 1 <= INT_MAX)%Z)
      by (unfold INT_MIN, INT_MAX; lia).
    run (int_of_ok _ _ Hint1).
    assert (Hpos : (Z.of_nat (length bs) + 1)%Z = Z.of_nat (length (bs ++ [bn])))
      by (rewrite length_app; simpl; lia).
    (* the array grows when it is full *)
    set (grow :=
      if (Z.of_nat (length bs) + 1 >=? bufsize)%Z then
         do bufsize' <- int_mul bufsize 2;
         do tokens' <- realloc (Ptr bt 0) (Z.to_nat bufsize');
         if is_null tokens' then
           fprintf_stderr (lit "cmd_parse: allocation error" ++ newline);;;
           exit EXIT_FAILURE
         else ret (tokens', bufsize')
       else ret (Ptr bt 0, bufsize)).
    set (w2 := set_heap h2 (set_heap (<[bn := str_cells t]> (heap w)) w)).
    assert (Hgrow :
      (exists bt2 bufsize2 w4,
         grow w2 = Ret (Ptr bt2 0, bufsize2) w4 /\
         tok_inv h0 bl bt2 (Z.to_nat bufsize2) (bs ++ [bn]) (ts ++ [t]) (heap w4) /\
         (Z.of_nat (length (bs ++ [bn])) < bufsize2 <= INT_MAX)%Z /\
         heap w4 !! bl = heap w !! bl /\
         strtok_save w4 = strtok_save w /\ outside w4 = outside w) \/
      (grow w2 = Fault IntOverflow /\ (2 ^ 30 <= Z.of_nat (length bs) + 1)%Z)).
    { assert (Hbl2 : h2 !! bl = heap w !! bl).
      { unfold h2. destruct Hlive.
        rewrite !lookup_insert_ne by congruence. reflexivity. }
      unfold grow, w2.
      destruct (Z.geb_spec (Z.of_nat (length bs) + 1) bufsize) as [Hfull|Hroom].
      - unfold int_mul.
        destruct (Z_le_gt_dec (bufsize * 2) INT_MAX) as [Hfit|Hover].
        + left.
          assert (Hint2 : (INT_MIN <= bufsize * 2 <= INT_MAX)%Z)
            by (unfold INT_MIN, INT_MAX in *; lia).
          run (int_of_ok _ _ Hint2).
          destruct Hinv2 as ((post2 & Hbt2 & Hlen2) & Hrest2).
          destruct (realloc_spec (set_heap h2 (set_heap (<[bn := str_cells t]> (heap w)) w))
                      bt _ (Z.to_nat (bufsize * 2)) Hbt2) as (bt' & Hnew & Hre).
          run Hre. cbn [is_null].
          eexists _, _, _. split; [reflexivity|]. cbn [heap set_heap] in *.
          split.
          * apply (tok_inv_grow bt (Z.to_nat bufsize) _ _ h2 _ bt'
                     (Z.to_nat (bufsize * 2)));
              [split; [eauto | exact Hrest2] | exact Hbt2 | exact Hnew | lia].
          * split; [unfold INT_MAX in *; lia|]. split; [|split; reflexivity].
            assert (bl <> bt') by (destruct Hlive; congruence).
            rewrite lookup_delete_ne, lookup_insert_ne by congruence. exact Hbl2.
        + right. split; [|unfold INT_MAX in Hover; lia].
          apply bind_fault, int_of_overflow. lia.
      - left. eexists _, _, _. split; [reflexivity|]. cbn [heap set_heap].
        split; [exact Hinv2|]. split; [unfold INT_MAX; lia|].
        split; [exact Hbl2|]. split; reflexivity. }
    destruct Hgrow as [(bt2 & bufsize2 & w4 & Hg & Hinv4 & Hbuf4 & Hbl4 & Hsave4 & Hout4)
                      | [Hg Hbig]].
    2:{ rewrite (bind_fault _ _ _ _ Hg). split; [reflexivity|].
        simpl length. lia. }
    run Hg. clear Hg. cbn [fst snd].
    (* token = strtok(NULL, ...) *)
    assert (Hrest4 : read_cstr (heap w4) (Ptr bl off) = Some rest).
    { rewrite (read_cstr_same_block _ _ _ _ Hbl4). exact Hrest. }
    destruct (strtok_step w4 NULL bl off rest toks) as
      (token' & w5 & cells' & Hstep & Hh5 & Hout5 & Hat5);
      [cbn [is_null]; congruence | exact Hrest4 | exact Hruns |].
    run Hstep. clear Hstep.
    rewrite Hpos.
    assert (Hrec : loop_post h0 bl (bs ++ [bn]) (ts ++ [t]) toks w5
              (cmd_parse_loop fuel (Ptr bt2 0) bufsize2
                 (Z.of_nat (length (bs ++ [bn]))) token' w5)).
    { apply IH.
      - rewrite Hh5. apply tok_inv_scan, Hinv4.
      - exact Hbuf4.
      - simpl in Hfuel. lia.
      - exact Hat5. }
    destruct (cmd_parse_loop fuel (Ptr bt2 0) bufsize2
                (Z.of_nat (length (bs ++ [bn]))) token' w5) as [r w'|c w'|f];
      cbn [loop_post] in *.
    + destruct Hrec as (bt' & bufsize' & bs' & Hr & Hinv' & Hlt' & Hout').
      exists bt', bufsize', (bn :: bs').
      replace (bs ++ bn :: bs') with ((bs ++ [bn]) ++ bs') by list_assoc.
      replace (ts ++ t :: toks) with ((ts ++ [t]) ++ toks) by list_assoc.
      split; [exact Hr|]. split; [exact Hinv'|]. split; [exact Hlt'|].
      congruence.
    + exact Hrec.
    + destruct Hrec as [Hf Hbig]. split; [exact Hf|].
      rewrite <- Hpos in Hbig. simpl length. lia.
Qed.

End Loop.

(** ** The tokenizer: [cmd_parse] *)

(** Every outcome of [cmd_parse] on a line s: it returns the tokens of s and
    leaves the caller's memory as it was, or the doubling of [bufsize]
    overflows, which takes 2^30 tokens. *)
Lemma cmd_parse_outcome w line s :
  read_cstr (heap w) line = Some s ->
  parse_post w s (cmd_parse line w).
Proof.
  intros Hline. unfold cmd_parse.
  (* tokens = malloc(...) *)
  destruct (malloc_spec w (Z.to_nat 64)) as (bt & Hbt & Hm).
  run Hm. clear Hm. cbn [is_null].
  (* line_copy = strdup(line) *)
  destruct line as [|b off]; [discriminate Hline|].
  assert (Hb_live : is_Some (heap w !! b)).
  { unfold read_cstr, cells_at in Hline. destruct (heap w !! b); [eauto|discriminate]. }
  assert (Hbbt : b <> bt) by (destruct Hb_live; congruence).
  set (w1 := set_heap (<[bt := replicate (Z.to_nat 64) Vundef]> (heap w)) w).
  assert (Hline1 : read_cstr (heap w1) (Ptr b off) = Some s).
  { rewrite <- Hline. apply read_cstr_same_block. unfold w1. cbn [heap set_heap].
    apply lookup_insert_ne. congruence. }
  destruct (strdup_spec _ _ _ Hline1) as (bl & Hbl & Hdup).
  run Hdup. clear Hdup.
  set (w2 := set_heap (<[bl := str_cells s]> (heap w1)) w1).
  assert (Hoks : cstr_ok s = true).
  { apply read_cstr_inv in Hline as [Hoks _]. exact Hoks. }
  assert (Hcopy : read_cstr (heap w2) (Ptr bl 0) = Some s).
  { apply read_cstr_start; [exact Hoks|]. unfold w2. cbn [heap set_heap].
    apply lookup_insert_eq. }
  run (strlen_ok _ _ _ Hcopy).
  assert (Hblbt : bl <> bt).
  { intros ->. unfold w1 in Hbl. cbn [heap set_heap] in Hbl.
    rewrite lookup_insert_eq in Hbl. discriminate. }
  assert (Hbl0 : heap w !! bl = None).
  { unfold w1 in Hbl. cbn [heap set_heap] in Hbl.
    rewrite lookup_insert_ne in Hbl by congruence. exact Hbl. }
  assert (Hinv2 : tok_inv (heap w) bl bt (Z.to_nat 64) [] [] (heap w2)).
  { unfold w2, w1. cbn [heap set_heap]. repeat split.
    - exists (replicate (Z.to_nat 64) Vundef).
      rewrite lookup_insert_ne by congruence. rewrite lookup_insert_eq.
      split; [reflexivity|]. cbn [tok_ptrs map app]. apply length_replicate.
    - constructor.
    - congruence.
    - apply not_elem_of_nil.
    - apply not_elem_of_nil.
    - intros b' c Hb'. rewrite !lookup_insert_ne by congruence. exact Hb'.
    - exact Hbt.
    - exact Hbl0.
    - rewrite lookup_insert_eq. eauto. }
  (* token = strtok(line_copy, ...) *)
  pose proof (runs_of_tokens_of s) as Hruns.
  destruct (strtok_step w2 (Ptr bl 0) bl 0 s (tokens_of s) eq_refl Hcopy Hruns)
    as (token & w3 & cells3 & Hstep & Hh3 & Hout3 & Hat3).
  run Hstep. clear Hstep.
  (* the loop *)
  assert (Hpost : loop_post (heap w) bl [] [] (tokens_of s) w3
            (cmd_parse_loop (length s) (Ptr bt 0) 64%Z
               (Z.of_nat (@length block [])) token w3)).
  { apply cmd_parse_loop_outcome.
    - rewrite Hh3. apply tok_inv_scan, Hinv2.
    - unfold INT_MAX. simpl. lia.
    - apply runs_length, Hruns.
    - exact Hat3. }
  change 0%Z with (Z.of_nat (@length block [])).
  destruct (cmd_parse_loop (length s) (Ptr bt 0) 64%Z
              (Z.of_nat (@length block [])) token w3) as [r w4|c w4|f] eqn:Hloop;
    cbn [loop_post] in Hpost.
  2:{ contradiction. }
  2:{ rewrite (bind_fault _ _ _ _ Hloop). exact Hpost. }
  destruct Hpost as (bt' & bufsize' & bs & -> & Hinv4 & Hlt4 & Hout4).
  run Hloop. clear Hloop. cbn [fst snd app] in *.
  (* tokens[position] = NULL *)
  destruct Hinv4 as ((post & Hbt4 & Hlen4) & Hholds & Hne & Hbt_bs & Hbl_bs & Hpres
                     & H0t & H0l & Hlive).
  destruct post as [|x post].
  { rewrite app_nil_r, tok_ptrs_length in Hlen4. lia. }
  replace (ptr_add (Ptr bt' 0) (Z.to_nat (Z.of_nat (length bs))))
    with (Ptr bt' (length (tok_ptrs bs)))
    by (simpl; rewrite Nat2Z.id, tok_ptrs_length; reflexivity).
  run (store_ok _ _ _ _ _ _ Hbt4).
  (* free(line_copy) *)
  destruct Hlive as [lcells Hlive].
  assert (Hlive5 : heap (set_heap (<[bt' := tok_ptrs bs ++ Vptr NULL :: post]>
                                      (heap w4)) w4) !! bl = Some lcells).
  { cbn [heap set_heap]. rewrite lookup_insert_ne by congruence. exact Hlive. }
  run (free_live _ _ _ Hlive5). clear Hlive5.
  cbn [bind ret parse_post heap set_heap].
  split; [|split].
  - unfold read_argv. erewrite cells_at_start.
    2:{ rewrite lookup_delete_ne by congruence. apply lookup_insert_eq. }
    apply argv_of_holds. eapply holds_same; [exact Hholds|].
    intros b' Hin.
    rewrite lookup_delete_ne, lookup_insert_ne by congruence. reflexivity.
  - intros b' c Hb'. assert (b' <> bl) by congruence.
    assert (b' <> bt') by congruence.
    rewrite lookup_delete_ne, lookup_insert_ne by congruence. apply Hpres, Hb'.
  - transitivity (outside w4); [reflexivity|].
    rewrite Hout4, Hout3. reflexivity.
Qed.

(** Below 2^30 tokens [cmd_parse] returns. *)
Lemma cmd_parse_returns w line s :
  read_cstr (heap w) line = Some s ->
  (Z.of_nat (length (tokens_of s)) < 2 ^ 30)%Z ->
  exists p w', cmd_parse line w = Ret p w'.
Proof.
  intros Hline Hbound. pose proof (cmd_parse_outcome _ _ _ Hline) as H.
  destruct (cmd_parse line w) as [p w'|c w'|f]; cbn [parse_post] in H.
  - eauto.
  - contradiction.
  - destruct H as [_ H]. lia.
Qed.

(** A line shorter than INT_MAX characters has fewer than 2^30 tokens. *)
Lemma short_line_tokens s :
  (Z.of_nat (length s) < INT_MAX)%Z ->
  (Z.of_nat (length (tokens_of s)) < 2 ^ 30)%Z.
Proof.
  intros H. pose proof (runs_twice_length _ _ (runs_of_tokens_of s)) as Hlen.
  unfold INT_MAX in H. lia.
Qed.


(** C8: [cmd_parse] leaves the memory of its caller as it found it: whenever
    it returns, every block that was live before the call, the one that holds
    the line among them, has the same contents after it, so the line reads the
    same. The splitting was done on a copy, which is gone by then. It returns
    for every line with fewer than 2^30 tokens. *)
Theorem cmd_parse_keeps_line (w : world) (line : ptr) (s : cstring) :
  read_cstr (heap w) line = Some s ->
  ((Z.of_nat (length (tokens_of s)) < 2 ^ 30)%Z ->
   exists p w', cmd_parse line w = Ret p w') /\
  (forall p w', cmd_parse line w = Ret p w' ->
     (forall b cells, heap w !! b = Some cells -> heap w' !! b = Some cells) /\
     read_cstr (heap w') line = Some s).
Proof.
  intros Hline. split; [apply cmd_parse_returns, Hline|].
  intros p w' Hr. pose proof (cmd_parse_outcome _ _ _ Hline) as H.
  rewrite Hr in H. destruct H as (_ & Hpres & _).
  split; [exact Hpres|].
  destruct line as [|b off]; [discriminate Hline|].
  rewrite <- Hline. apply read_cstr_same_block.
  unfold read_cstr, cells_at in Hline.
  destruct (heap w !! b) as [cells|] eqn:Hb; [|discriminate].
  rewrite (Hpres _ _ Hb). reflexivity.
Qed.

(** ** Concrete runs *)

Example cmd_parse_foo_v :
  exists p w',
    cmd_parse (Ptr 0 0) (demo_world (line_heap (lit "foo -v")) ∅) = Ret p w' /\
    read_argv (heap w') p = Some [lit "foo"; lit "-v"].
Proof. eexists _, _. split; vm_compute; reflexivity. Qed.

Example cmd_parse_ls_a_l :
  exists p w',
    cmd_parse (Ptr 0 0) (demo_world (line_heap (lit "ls -a -l")) ∅) = Ret p w' /\
    read_argv (heap w') p = Some [lit "ls"; lit "-a"; lit "-l"].
Proof. eexists _, _. split; vm_compute; reflexivity. Qed.

Example cmd_parse_blank :
  exists p w',
    cmd_parse (Ptr 0 0) (demo_world (line_heap (lit "   ")) ∅) = Ret p w' /\
    read_argv (heap w') p = Some [].
Proof. eexists _, _. split; vm_compute; reflexivity. Qed.

(** Seventy tokens: the array of 64 slots is reallocated once. *)
Example cmd_parse_grows :
  exists p w',
    cmd_parse (Ptr 0 0)
      (demo_world (line_heap (concat (repeat (lit "a ") 70))) ∅) = Ret p w' /\
    read_argv (heap w') p = Some (repeat (lit "a") 70) /\
    (exists cells, heap w' !! 0 = Some cells /\ length cells = 141) /\
    p = Ptr 67 0.
Proof.
  eexists _, _. split; [vm_compute; reflexivity|].
  split; [vm_compute; reflexivity|].
  split; [eexists; split; vm_compute; reflexivity | reflexivity].
Qed.

Example tokens_of_blank : tokens_of (lit "   ") = [] /\ tokens_of [] = [].
Proof. split; reflexivity. Qed.

Example trim_examples :
  trim (lit "ls -a") = lit "ls -a" /\ trim (lit " ls -a ") = lit "ls -a" /\
  trim (lit " ") = [] /\ trim (lit " a ") = lit "a".
Proof. repeat split; reflexivity. Qed.

Example trim_white_both_ends :
  exists w',
    trim_white (Ptr 0 0) (demo_world (line_heap (lit " ls -a ")) ∅) =
      Ret (Ptr 0 1) w' /\
    read_cstr (heap w') (Ptr 0 1) = Some (lit "ls -a") /\
    heap w' !! 0 =
      Some (map Vchar (lit " ls -a") ++ [Vchar NUL; Vchar NUL]).
Proof. eexists. repeat split; vm_compute; reflexivity. Qed.

Example trim_white_only_space :
  trim_white (Ptr 0 0) (demo_world (line_heap (lit " ")) ∅) =
    Ret (Ptr 0 1) (demo_world (line_heap (lit " ")) ∅) /\
  read_cstr (line_heap (lit " ")) (Ptr 0 1) = Some [].
Proof. split; vm_compute; reflexivity. Qed.

Example get_prompt_examples :
  (exists w', get_prompt (lit "MY_PROMPT") (demo_world ∅ ∅) = Ret (Ptr 0 0) w' /\
              read_cstr (heap w') (Ptr 0 0) = Some (lit "shell>")) /\
  (exists w', get_prompt (lit "MY_PROMPT")
                (demo_world ∅ (env_of [(lit "MY_PROMPT", lit "foo>")])) =
                Ret (Ptr 0 0) w' /\
              read_cstr (heap w') (Ptr 0 0) = Some (lit "foo>")) /\
  (exists w', get_prompt (lit "MY_PROMPT")
                (demo_world ∅ (env_of [(lit "MY_PROMPT", [])])) =
                Ret (Ptr 0 0) w' /\
              read_cstr (heap w') (Ptr 0 0) = Some []).
Proof. repeat split; eexists; split; vm_compute; reflexivity. Qed.


Lemma cmd_parse_keeps_line_witness :
  read_cstr (heap (demo_world (line_heap (lit "ls -a -l")) ∅)) (Ptr 0 0) =
    Some (lit "ls -a -l") /\
  (Z.of_nat (length (tokens_of (lit "ls -a -l"))) < 2 ^ 30)%Z /\
  exists p w',
    cmd_parse (Ptr 0 0) (demo_world (line_heap (lit "ls -a -l")) ∅) = Ret p w' /\
    (forall b cells,
        heap (demo_world (line_heap (lit "ls -a -l")) ∅) !! b = Some cells ->
        heap w' !! b = Some cells) /\
    read_cstr (heap w') (Ptr 0 0) = Some (lit "ls -a -l").
Proof.
  assert (Hline : read_cstr (heap (demo_world (line_heap (lit "ls -a -l")) ∅))
                    (Ptr 0 0) = Some (lit "ls -a -l")) by (vm_compute; reflexivity).
  assert (Hbound : (Z.of_nat (length (tokens_of (lit "ls -a -l"))) < 2 ^ 30)%Z)
    by (vm_compute; reflexivity).
  split; [exact Hline|]. split; [exact Hbound|].
  destruct (cmd_parse_keeps_line _ _ _ Hline) as (Hret & Hres).
  destruct (Hret Hbound) as (p & w' & Hr).
  exists p, w'. split; [exact Hr | exact (Hres p w' Hr)].
Defined.

Lemma trim_white_trims_witness :
  read_cstr (heap (demo_world (line_heap (lit "  ls -a ")) ∅)) (Ptr 0 0) =
    Some (lit "  ls -a ") /\
  exists w',
    trim_white (Ptr 0 0) (demo_world (line_heap (lit "  ls -a ")) ∅) =
      Ret (Ptr 0 (0 + length (take_while isspace (lit "  ls -a ")))) w' /\
    read_cstr (heap w') (Ptr 0 (0 + length (take_while isspace (lit "  ls -a ")))) =
      Some (trim (lit "  ls -a ")) /\
    (forallb isspace (lit "  ls -a ") = true -> trim (lit "  ls -a ") = []) /\
    in_place 0 (demo_world (line_heap (lit "  ls -a ")) ∅) w'.
Proof.
  split; [vm_compute; reflexivity|].
  apply (proj2 (trim_white_trims (demo_world (line_heap (lit "  ls -a ")) ∅))
               0 0 (lit "  ls -a ")).
  vm_compute; reflexivity.
Defined.

Lemma get_prompt_value_witness :
  (exists p w',
      get_prompt (lit "MY_PROMPT")
        (demo_world ∅ (env_of [(lit "MY_PROMPT", lit "foo>")])) = Ret p w' /\
      owned_copy (demo_world ∅ (env_of [(lit "MY_PROMPT", lit "foo>")])) w' p
                 (lit "foo>")) /\
  (exists p w',
      get_prompt (lit "MY_PROMPT")
        (demo_world ∅ (env_of [(lit "MY_PROMPT", [])])) = Ret p w' /\
      read_cstr (heap w') p = Some []) /\
  (exists p w',
      get_prompt (lit "MY_PROMPT") (demo_world ∅ ∅) = Ret p w' /\
      owned_copy (demo_world ∅ ∅) w' p (lit "shell>")).
Proof.
  split; [|split].
  - apply (proj1 (get_prompt_value (lit "MY_PROMPT")
                    (demo_world ∅ (env_of [(lit "MY_PROMPT", lit "foo>")]))));
      vm_compute; reflexivity.
  - apply (proj1 (proj2 (get_prompt_value (lit "MY_PROMPT")
                    (demo_world ∅ (env_of [(lit "MY_PROMPT", [])])))));
      vm_compute; reflexivity.
  - apply (proj2 (proj2 (get_prompt_value (lit "MY_PROMPT") (demo_world ∅ ∅))));
      vm_compute; reflexivity.
Defined.

Lemma do_builtin_exit_witness :
  do_builtin (Some demo_session) (Ptr 0 0)
    (demo_world (argv_heap [lit "exit"]) (env_of [(lit "SKIP_EXIT", lit "1")])) =
    Ret true
      (demo_world (argv_heap [lit "exit"]) (env_of [(lit "SKIP_EXIT", lit "1")])) /\
  do_builtin (Some demo_session) (Ptr 0 0)
    (demo_world (argv_heap [lit "exit"]) (env_of [(lit "SKIP_EXIT", lit "0")])) =
    Exited 0
      (demo_world (argv_heap [lit "exit"]) (env_of [(lit "SKIP_EXIT", lit "0")])) /\
  do_builtin None (Ptr 0 0) (demo_world (argv_heap [lit "exit"]) ∅) =
    Exited 0 (demo_world (argv_heap [lit "exit"]) ∅).
Proof.
  split; [|split].
  - apply (do_builtin_exit _ _ []); vm_compute; reflexivity.
  - apply (do_builtin_exit _ _ []); [vm_compute; reflexivity|].
    vm_compute. discriminate.
  - apply (do_builtin_exit _ _ []); [vm_compute; reflexivity|].
    vm_compute. discriminate.
Defined.

Lemma do_builtin_not_builtin_witness :
  do_builtin (Some demo_session) NULL (demo_world ∅ ∅) = Ret false (demo_world ∅ ∅) /\
  do_builtin (Some demo_session) (Ptr 0 0) (demo_world (argv_heap []) ∅) =
    Ret false (demo_world (argv_heap []) ∅) /\
  do_builtin (Some demo_session) (Ptr 0 0)
    (demo_world (argv_heap [lit "ls"; lit "-a"]) ∅) =
    Ret false (demo_world (argv_heap [lit "ls"; lit "-a"]) ∅) /\
  do_builtin (Some demo_session) (Ptr 0 0) (demo_world (argv_heap [lit "history"]) ∅) =
    Ret true (demo_world (argv_heap [lit "history"]) ∅).
Proof.
  split; [|split; [|split]].
  - apply (proj1 (do_builtin_not_builtin (Some demo_session) NULL
                    (demo_world ∅ ∅))). reflexivity.
  - apply (proj1 (proj2 (do_builtin_not_builtin (Some demo_session) (Ptr 0 0)
                           (demo_world (argv_heap []) ∅)))).
    vm_compute. reflexivity.
  - apply (proj1 (proj2 (proj2 (do_builtin_not_builtin (Some demo_session) (Ptr 0 0)
             (demo_world (argv_heap [lit "ls"; lit "-a"]) ∅)))) (lit "ls") [lit "-a"]);
      [vm_compute; reflexivity | vm_compute; discriminate ..].
  - apply (proj2 (proj2 (proj2 (do_builtin_not_builtin (Some demo_session) (Ptr 0 0)
             (demo_world (argv_heap [lit "history"]) ∅)))) []).
    vm_compute. reflexivity.
Defined.

Lemma do_builtin_cd_handled_witness :
  exists r w',
    change_dir (Ptr 0 0)
      (demo_world (argv_heap [lit "cd"; lit "/invalid/path"]) ∅) = Ret r w' /\
    (r = 0 \/ r = -1)%Z /\
    do_builtin (Some demo_session) (Ptr 0 0)
      (demo_world (argv_heap [lit "cd"; lit "/invalid/path"]) ∅) = Ret true w'.
Proof.
  apply (do_builtin_cd_handled (Some demo_session) (Ptr 0 0) [lit "/invalid/path"]).
  vm_compute; reflexivity.
Defined.

(** The dispatcher answers true on a directory change that failed. *)
Example do_builtin_cd_invalid :
  exists w',
    change_dir (Ptr 0 0)
      (demo_world (argv_heap [lit "cd"; lit "/invalid/path"]) ∅) = Ret (-1)%Z w' /\
    do_builtin (Some demo_session) (Ptr 0 0)
      (demo_world (argv_heap [lit "cd"; lit "/invalid/path"]) ∅) = Ret true w' /\
    cwd w' = lit "/tmp".
Proof. eexists. repeat split; vm_compute; reflexivity. Qed.


Example sh_init_demo :
  sh_init (Some demo_session) (demo_world ∅ ∅) = Ret (Some init_session) init_world.
Proof. vm_compute. reflexivity. Qed.

Lemma sh_destroy_releases_prompt_witness :
  owns_prompt init_world init_session /\
  exists b s' w',
    prompt init_session = Ptr b 0 /\
    sh_destroy (Some init_session) init_world = Ret (Some s') w' /\
    w' = set_heap (delete b (heap init_world)) init_world /\
    prompt s' = NULL /\
    shell_is_interactive s' = shell_is_interactive init_session /\
    shell_pgid s' = shell_pgid init_session /\
    shell_tmodes s' = shell_tmodes init_session /\
    shell_terminal s' = shell_terminal init_session /\
    sh_destroy (Some s') w' = Ret (Some s') w'.
Proof.
  assert (H : owns_prompt init_world init_session).
  { exists 0. split; [reflexivity|]. vm_compute. eauto. }
  split; [exact H|]. apply sh_destroy_releases_prompt, H.
Defined.


(** ** Releasing an argument vector: [cmd_free] *)

Lemma free_all_notin bs : forall (h : gmap block (list val)) b,
  b ∉ bs -> free_all bs h !! b = h !! b.
Proof.
  induction bs as [|b0 bs IH]; intros h b Hb; [reflexivity|].
  apply not_elem_of_cons in Hb as [Hne Hb]. cbn [free_all foldl].
  change (foldl (fun h b => delete b h) (delete b0 h) bs)
    with (free_all bs (delete b0 h)).
  rewrite (IH _ _ Hb). apply lookup_delete_ne. congruence.
Qed.

Lemma free_all_in bs : forall (h : gmap block (list val)) b,
  b ∈ bs -> free_all bs h !! b = None.
Proof.
  induction bs as [|b0 bs IH]; intros h b Hb; [inversion Hb|].
  cbn [free_all foldl].
  change (foldl (fun h b => delete b h) (delete b0 h) bs)
    with (free_all bs (delete b0 h)).
  destruct (decide (b ∈ bs)) as [Hin|Hout]; [apply IH, Hin|].
  rewrite (free_all_notin _ _ _ Hout).
  apply elem_of_cons in Hb as [->|Hb]; [apply lookup_delete_eq | contradiction].
Qed.

Lemma tok_ptrs_app2 bs1 bs2 : tok_ptrs (bs1 ++ bs2) = tok_ptrs bs1 ++ tok_ptrs bs2.
Proof. unfold tok_ptrs. apply map_app. Qed.

Lemma cmd_free_loop_spec bt post bs :
  forall done fuel w,
    heap w !! bt = Some (tok_ptrs (done ++ bs) ++ Vptr NULL :: post) ->
    bt ∉ bs -> NoDup bs ->
    (forall b, b ∈ bs -> is_Some (heap w !! b)) ->
    length bs <= fuel ->
    (Z.of_nat (length done + length bs) <= INT_MAX)%Z ->
    cmd_free_loop fuel (Ptr bt 0) (Z.of_nat (length done)) w =
      Ret tt (set_heap (free_all bs (heap w)) w).
Proof.
  induction bs as [|b bs IH]; intros done fuel w Hbt Hbt_bs Hnd Hlive Hfuel Hint.
  - assert (Hslot : cells_at (heap w)
                      (ptr_add (Ptr bt 0) (Z.to_nat (Z.of_nat (length done)))) =
                    Some (Vptr NULL :: post)).
    { replace (ptr_add (Ptr bt 0) (Z.to_nat (Z.of_nat (length done))))
        with (Ptr bt (length (tok_ptrs done)))
        by (simpl; rewrite Nat2Z.id, tok_ptrs_length; reflexivity).
      apply cells_at_split. rewrite Hbt, app_nil_r. reflexivity. }
    cbn [free_all foldl]. rewrite set_heap_same.
    destruct fuel; cbn [cmd_free_loop]; run (load_ptr_ok _ _ _ _ Hslot);
      reflexivity.
  - apply not_elem_of_cons in Hbt_bs as [Hne Hbt_bs].
    apply NoDup_cons in Hnd as [Hb_bs Hnd].
    destruct fuel as [|fuel]; [simpl in Hfuel; lia|].
    assert (Hslot : cells_at (heap w)
                      (ptr_add (Ptr bt 0) (Z.to_nat (Z.of_nat (length done)))) =
                    Some (Vptr (Ptr b 0) :: tok_ptrs bs ++ Vptr NULL :: post)).
    { replace (ptr_add (Ptr bt 0) (Z.to_nat (Z.of_nat (length done))))
        with (Ptr bt (length (tok_ptrs done)))
        by (simpl; rewrite Nat2Z.id, tok_ptrs_length; reflexivity).
      apply cells_at_split. rewrite Hbt, tok_ptrs_app2. f_equal.
      rewrite <- app_assoc. reflexivity. }
    cbn [cmd_free_loop]. run (load_ptr_ok _ _ _ _ Hslot). cbn [is_null].
    run (load_ptr_ok _ _ _ _ Hslot).
    destruct (Hlive b (list_elem_of_here _ _)) as [cells Hb].
    run (free_live _ _ _ Hb).
    unfold int_add. simpl length in Hint.
    assert (Hi : (INT_MIN <= Z.of_nat (length done) + 1 <= INT_MAX)%Z)
      by (unfold INT_MIN, INT_MAX in *; lia).
    run (int_of_ok _ _ Hi).
    replace (Z.of_nat (length done) + 1)%Z with (Z.of_nat (length (done ++ [b])))
      by (rewrite length_app; simpl; lia).
    rewrite (IH (done ++ [b]) fuel).
    + reflexivity.
    + cbn [heap set_heap]. rewrite lookup_delete_ne by congruence.
      rewrite Hbt. do 2 f_equal. rewrite <- app_assoc. reflexivity.
    + exact Hbt_bs.
    + exact Hnd.
    + intros b' Hin. cbn [heap set_heap].
      rewrite lookup_delete_ne by (intros ->; contradiction).
      apply Hlive. apply list_elem_of_further, Hin.
    + simpl in Hfuel. lia.
    + rewrite length_app. simpl. lia.
Qed.

Lemma holds_length h bs ts : holds h bs ts -> length bs = length ts.
Proof. apply Forall2_length. Qed.

Lemma cmd_free_spec bt bs w :
  owned_vector (heap w) bt bs ->
  (Z.of_nat (length bs) <= INT_MAX)%Z ->
  cmd_free (Ptr bt 0) w =
    Ret tt (set_heap (delete bt (free_all bs (heap w))) w).
Proof.
  intros ((post & Hbt) & Hlive & Hnd) Hint.
  apply NoDup_cons in Hnd as [Hbt_bs Hnd].
  rewrite Forall_forall in Hlive.
  unfold cmd_free. cbn [is_null].
  run (block_size_ok _ _ _ _ Hbt).
  assert (Hloop : cmd_free_loop (length (tok_ptrs bs ++ Vptr NULL :: post))
                    (Ptr bt 0) (Z.of_nat (@length block [])) w =
                  Ret tt (set_heap (free_all bs (heap w)) w)).
  { apply (cmd_free_loop_spec bt post bs []); try assumption.
    rewrite length_app, tok_ptrs_length. lia. }
  change 0%Z with (Z.of_nat (@length block [])).
  run Hloop.
  assert (Harr : heap (set_heap (free_all bs (heap w)) w) !! bt =
                  Some (tok_ptrs bs ++ Vptr NULL :: post)).
  { cbn [heap set_heap]. rewrite free_all_notin by exact Hbt_bs. exact Hbt. }
  rewrite (free_live _ _ _ Harr). reflexivity.
Qed.

Lemma block_size_dead b off w :
  heap w !! b = None -> block_size (Ptr b off) w = Ret 0 w.
Proof. intros H. unfold block_size, bind, get_world. rewrite H. reflexivity. Qed.

Lemma load_ptr_dead b off w :
  heap w !! b = None -> load_ptr (Ptr b off) w = Fault MemFault.
Proof.
  intros H. unfold load_ptr. apply bind_fault.
  unfold load, bind, get_world, cells_at. rewrite H. reflexivity.
Qed.

(** X1: [cmd_free] does nothing on null. On a vector of at most INT_MAX
    entries (the index is an int) whose array and strings are distinct live
    blocks it frees the strings and the array and nothing else: those blocks
    are gone, every other block is as it was, and nothing outside the heap
    changes. *)
Theorem cmd_free_releases (w : world) :
  cmd_free NULL w = Ret tt w /\
  forall bt bs,
    owned_vector (heap w) bt bs ->
    (Z.of_nat (length bs) <= INT_MAX)%Z ->
    exists w',
      cmd_free (Ptr bt 0) w = Ret tt w' /\
      (forall b, b ∈ bt :: bs -> heap w' !! b = None) /\
      (forall b, b ∉ bt :: bs -> heap w' !! b = heap w !! b) /\
      w' = set_heap (heap w') w.
Proof.
  split; [reflexivity|]. intros bt bs Hvec Hint.
  eexists. split; [apply (cmd_free_spec _ _ _ Hvec Hint)|].
  cbn [heap set_heap]. split; [|split; [|reflexivity]].
  - intros b Hb. apply elem_of_cons in Hb as [->|Hb].
    + apply lookup_delete_eq.
    + destruct (decide (b = bt)) as [->|Hne]; [apply lookup_delete_eq|].
      rewrite lookup_delete_ne by congruence. apply free_all_in, Hb.
  - intros b Hb. apply not_elem_of_cons in Hb as [Hne Hb].
    rewrite lookup_delete_ne by congruence. apply free_all_notin, Hb.
Qed.

(** X2: [cmd_free] does not clear anything for its caller: a second
    [cmd_free] of the same vector reads the released array, which is a
    memory fault. *)
Theorem cmd_free_twice_faults (w : world) (bt : block) (bs : list block) :
  owned_vector (heap w) bt bs ->
  (Z.of_nat (length bs) <= INT_MAX)%Z ->
  exists w',
    cmd_free (Ptr bt 0) w = Ret tt w' /\
    cmd_free (Ptr bt 0) w' = Fault MemFault.
Proof.
  intros Hvec Hint. eexists. split; [apply (cmd_free_spec _ _ _ Hvec Hint)|].
  unfold cmd_free. cbn [is_null].
  run (block_size_dead bt 0 _ (lookup_delete_eq _ _)).
  apply bind_fault. cbn [cmd_free_loop]. apply bind_fault.
  apply load_ptr_dead. apply lookup_delete_eq.
Qed.

Lemma ls_world_owned : owned_vector (heap ls_world) 0 [1; 2].
Proof.
  split; [exists []; vm_compute; reflexivity|].
  split.
  - repeat constructor; vm_compute; eauto.
  - compute_done.
Qed.

Lemma cmd_free_releases_witness :
  owned_vector (heap ls_world) 0 [1; 2] /\
  (Z.of_nat (length [1; 2]) <= INT_MAX)%Z /\
  exists w',
    cmd_free (Ptr 0 0) ls_world = Ret tt w' /\
    (forall b, b ∈ [0; 1; 2] -> heap w' !! b = None) /\
    (forall b, b ∉ [0; 1; 2] -> heap w' !! b = heap ls_world !! b) /\
    w' = set_heap (heap w') ls_world.
Proof.
  assert (Hint : (Z.of_nat (length [1; 2]) <= INT_MAX)%Z) by (vm_compute; discriminate).
  split; [exact ls_world_owned|]. split; [exact Hint|].
  exact (proj2 (cmd_free_releases ls_world) 0 [1; 2] ls_world_owned Hint).
Defined.

Lemma cmd_free_twice_faults_witness :
  owned_vector (heap ls_world) 0 [1; 2] /\
  (Z.of_nat (length [1; 2]) <= INT_MAX)%Z /\
  exists w',
    cmd_free (Ptr 0 0) ls_world = Ret tt w' /\
    cmd_free (Ptr 0 0) w' = Fault MemFault.
Proof.
  assert (Hint : (Z.of_nat (length [1; 2]) <= INT_MAX)%Z) by (vm_compute; discriminate).
  split; [exact ls_world_owned|]. split; [exact Hint|].
  exact (cmd_free_twice_faults ls_world 0 [1; 2] ls_world_owned Hint).
Defined.

(** ** The tokenizer: what it allocates and what it leaves behind *)

Lemma load_char_inv p c w w' : load_char p w = Ret c w' -> w' = w.
Proof.
  unfold load_char, load, bind, get_world, ret, fail.
  intros H. repeat case_match; simplify_eq; reflexivity.
Qed.

Lemma store_inv p v w w' :
  store p v w = Ret tt w' -> strtok_save w' = strtok_save w.
Proof.
  unfold store, bind, get_world, modify, fail.
  intros H. repeat case_match; simplify_eq; reflexivity.
Qed.

(** Whenever [strtok] returns, the pointer it saves is in the block it
    scanned. *)
Lemma strtok_save_block src d w token w' bl off :
  (if is_null src then strtok_save w else src) = Ptr bl off ->
  strtok src d w = Ret token w' ->
  exists off', strtok_save w' = Ptr bl off'.
Proof.
  intros Hsrc. unfold strtok. unfold bind at 1. unfold get_world at 1.
  rewrite Hsrc.
  destruct (cells_at (heap w) (Ptr bl off)) as [cells|]; [|discriminate].
  unfold lift at 1. unfold bind at 1. cbn [ret].
  destruct (strspn cells d) as [skip|]; [|discriminate].
  unfold lift at 1. unfold bind at 1. cbn [ret].
  unfold bind at 1.
  destruct (load_char (ptr_add (Ptr bl off) skip) w) as [c w1| |] eqn:E1;
    [|discriminate..].
  apply load_char_inv in E1. subst w1.
  destruct (is_nul c).
  { intros H. inversion H. cbn. eauto. }
  unfold bind at 1.
  destruct (strcspn (drop skip cells) d) as [n|]; [|discriminate].
  cbn [lift ret]. unfold bind at 1.
  destruct (load_char (ptr_add (ptr_add (Ptr bl off) skip) n) w) as [c2 w2| |] eqn:E2;
    [|discriminate..].
  apply load_char_inv in E2. subst w2.
  destruct (is_nul c2).
  { intros H. inversion H. cbn. eauto. }
  unfold bind at 1.
  destruct (store (ptr_add (ptr_add (Ptr bl off) skip) n) (Vchar NUL) w)
    as [[] w3| |]; [|discriminate..].
  intros H. inversion H. cbn. eauto.
Qed.

Section Footprint.

Variable h0 : gmap block (list val).
Variable bl : block.

Lemma tok_own_push bt n bs ts h bn t cells :
  tok_inv h0 bl bt n bs ts h -> tok_own h0 bl bt bs h ->
  h !! bn = None ->
  tok_own h0 bl bt (bs ++ [bn]) (<[bt := cells]> (<[bn := str_cells t]> h)).
Proof.
  intros (_ & Hholds & _ & _ & _ & Hpres & _) (Hfoot & Hnd & Hnew) Hbn.
  split; [|split].
  - intros b Hb. destruct (decide (b = bt)) as [->|Hbt]; [auto|].
    destruct (decide (b = bn)) as [->|Hne].
    { right; right; right. apply elem_of_app. right.
      apply list_elem_of_singleton. reflexivity. }
    rewrite !lookup_insert_ne in Hb by congruence.
    destruct (Hfoot b Hb) as [?|[?|[?|?]]]; auto.
    right; right; right. apply elem_of_app. auto.
  - apply NoDup_app. split; [exact Hnd|]. split; [|apply NoDup_singleton].
    intros x Hx Hx'. apply list_elem_of_singleton in Hx'. subst x.
    revert Hx. eapply holds_fresh; eauto.
  - intros b Hb. apply elem_of_app in Hb as [Hb|Hb]; [auto|].
    apply list_elem_of_singleton in Hb. subst b.
    destruct (h0 !! bn) eqn:E; [|reflexivity]. apply Hpres in E. congruence.
Qed.

Lemma tok_own_grow bt bs h bt' cells :
  tok_own h0 bl bt bs h ->
  tok_own h0 bl bt' bs (delete bt (<[bt' := cells]> h)).
Proof.
  intros (Hfoot & Hnd & Hnew). split; [|split; assumption].
  intros b Hb. destruct (decide (b = bt)) as [->|Hbt].
  { rewrite lookup_delete_eq in Hb. destruct Hb; discriminate. }
  rewrite lookup_delete_ne in Hb by congruence.
  destruct (decide (b = bt')) as [->|Hbt']; [auto|].
  rewrite lookup_insert_ne in Hb by congruence.
  destruct (Hfoot b Hb) as [?|[?|[?|?]]]; auto. congruence.
Qed.

Lemma tok_own_scan bt bs h cells' :
  tok_own h0 bl bt bs h -> tok_own h0 bl bt bs (<[bl := cells']> h).
Proof.
  intros (Hfoot & Hnd & Hnew). split; [|split; assumption].
  intros b Hb. destruct (decide (b = bl)) as [->|Hne]; [auto|].
  rewrite lookup_insert_ne in Hb by congruence. auto.
Qed.

Lemma pow2_double n : pow2 n -> pow2 (n * 2).
Proof.
  intros (j & Hj & ->). exists (j + 1)%Z. split; [lia|].
  rewrite Z.pow_add_r by lia. reflexivity.
Qed.

(** When the loop returns, it leaves the invariant and the footprint. *)
Lemma cmd_parse_loop_footprint toks :
  forall fuel bt bufsize bs ts w token,
    tok_inv h0 bl bt (Z.to_nat bufsize) bs ts (heap w) ->
    tok_own h0 bl bt bs (heap w) ->
    (Z.of_nat (length bs) < bufsize <= INT_MAX)%Z ->
    pow2 bufsize ->
    (bufsize <= Z.max 64 (2 * Z.of_nat (length bs)))%Z ->
    (exists off, strtok_save w = Ptr bl off) ->
    length toks <= fuel ->
    at_token bl toks token w ->
    loop_footprint h0 bl bs ts toks
      (cmd_parse_loop fuel (Ptr bt 0) bufsize (Z.of_nat (length bs)) token w).
Proof.
  induction toks as [|t toks IH];
    intros fuel bt bufsize bs ts w token Hinv Hown Hbuf Hpow Hcap Hsv Hfuel Hat.
  - simpl in Hat. subst token.
    replace (cmd_parse_loop fuel (Ptr bt 0) bufsize (Z.of_nat (length bs)) NULL w)
      with (Ret (Ptr bt 0, Z.of_nat (length bs)) w) by (destruct fuel; reflexivity).
    exists bt, bufsize, []. rewrite !app_nil_r. auto 10.
  - destruct Hat as (st & off & rest & -> & Htok & Hsave & Hrest & Hruns).
    destruct fuel as [|fuel]; [simpl in Hfuel; lia|].
    cbn [cmd_parse_loop is_null].
    (* t = strdup(token) *)
    destruct (strdup_spec _ _ _ Htok) as (bn & Hbn & Hdup).
    run Hdup. clear Hdup.
    assert (Hokt : cstr_ok t = true).
    { apply read_cstr_inv in Htok as [Hokt _]. exact Hokt. }
    (* tokens[position] = t *)
    pose proof Hinv as ((post & Hbt & Hlen) & Hholds & Hne & Hbt_bs & Hbl_bs & Hpres
                        & H0t & H0l & Hlive).
    destruct post as [|x post].
    { rewrite app_nil_r, tok_ptrs_length in Hlen. lia. }
    assert (Hbt1 : heap (set_heap (<[bn := str_cells t]> (heap w)) w) !! bt =
                   Some (tok_ptrs bs ++ x :: post)).
    { cbn [heap set_heap]. rewrite lookup_insert_ne by congruence. exact Hbt. }
    replace (ptr_add (Ptr bt 0) (Z.to_nat (Z.of_nat (length bs))))
      with (Ptr bt (length (tok_ptrs bs)))
      by (simpl; rewrite Nat2Z.id, tok_ptrs_length; reflexivity).
    run (store_ok _ _ _ _ _ _ Hbt1). clear Hbt1.
    cbn [heap set_heap].
    pose proof (tok_inv_push _ _ _ _ _ _ _ _ _ _ _ Hinv Hbt Hbn Hokt) as Hinv2.
    pose proof (tok_own_push _ _ _ _ _ _ t
                  (tok_ptrs bs ++ Vptr (Ptr bn 0) :: post) Hinv Hown Hbn) as Hown2.
    set (h2 := <[bt := tok_ptrs bs ++ Vptr (Ptr bn 0) :: post]>
                 (<[bn := str_cells t]> (heap w))) in *.
    (* position++ *)
    unfold int_add. unfold INT_MAX in Hbuf.
    assert (Hint1 : (INT_MIN <= Z.of_nat (length bs) + 1 <= INT_MAX)%Z)
      by (unfold INT_MIN, INT_MAX; lia).
    run (int_of_ok _ _ Hint1).
    assert (Hpos : (Z.of_nat (length bs) + 1)%Z = Z.of_nat (length (bs ++ [bn])))
      by (rewrite length_app; simpl; lia).
    (* the array grows when it is full *)
    set (grow :=
      if (Z.of_nat (length bs) + 1 >=? bufsize)%Z then
         do bufsize' <- int_mul bufsize 2;
         do tokens' <- realloc (Ptr bt 0) (Z.to_nat bufsize');
         if is_null tokens' then
           fprintf_stderr (lit "cmd_parse: allocation error" ++ newline);;;
           exit EXIT_FAILURE
         else ret (tokens', bufsize')
       else ret (Ptr bt 0, bufsize)).
    set (w2 := set_heap h2 (set_heap (<[bn := str_cells t]> (heap w)) w)).
    assert (Hgrow :
      (exists bt2 bufsize2 w4,
         grow w2 = Ret (Ptr bt2 0, bufsize2) w4 /\
         tok_inv h0 bl bt2 (Z.to_nat bufsize2) (bs ++ [bn]) (ts ++ [t]) (heap w4) /\
         tok_own h0 bl bt2 (bs ++ [bn]) (heap w4) /\
         (Z.of_nat (length (bs ++ [bn])) < bufsize2 <= INT_MAX)%Z /\
         pow2 bufsize2 /\
         (bufsize2 <= Z.max 64 (2 * Z.of_nat (length (bs ++ [bn]))))%Z /\
         heap w4 !! bl = heap w !! bl /\
         strtok_save w4 = strtok_save w) \/
      (exists f, grow w2 = Fault f)).
    { assert (Hbl2 : h2 !! bl = heap w !! bl).
      { unfold h2. destruct Hlive.
        rewrite !lookup_insert_ne by congruence. reflexivity. }
      unfold grow, w2.
      destruct (Z.geb_spec (Z.of_nat (length bs) + 1) bufsize) as [Hfull|Hroom].
      - unfold int_mul.
        destruct (Z_le_gt_dec (bufsize * 2) INT_MAX) as [Hfit|Hover].
        + left.
          assert (Hint2 : (INT_MIN <= bufsize * 2 <= INT_MAX)%Z)
            by (unfold INT_MIN, INT_MAX in *; lia).
          run (int_of_ok _ _ Hint2).
          destruct Hinv2 as ((post2 & Hbt2 & Hlen2) & Hrest2).
          destruct (realloc_spec (set_heap h2 (set_heap (<[bn := str_cells t]> (heap w)) w))
                      bt _ (Z.to_nat (bufsize * 2)) Hbt2) as (bt' & Hnew & Hre).
          run Hre. cbn [is_null].
          eexists _, _, _. split; [reflexivity|]. cbn [heap set_heap] in *.
          split.
          * apply (tok_inv_grow h0 bl bt (Z.to_nat bufsize) _ _ h2 _ bt'
                     (Z.to_nat (bufsize * 2)));
              [split; [eauto | exact Hrest2] | exact Hbt2 | exact Hnew | lia].
          * split; [apply tok_own_grow, Hown2|].
            split; [unfold INT_MAX in *; lia|].
            split; [apply pow2_double, Hpow|].
            split; [lia|]. split; [|reflexivity].
            assert (bl <> bt') by (destruct Hlive; congruence).
            rewrite lookup_delete_ne, lookup_insert_ne by congruence. exact Hbl2.
        + right. eexists. apply bind_fault, int_of_overflow. lia.
      - left. eexists _, _, _. split; [reflexivity|]. cbn [heap set_heap].
        split; [exact Hinv2|]. split; [exact Hown2|].
        split; [unfold INT_MAX; lia|]. split; [exact Hpow|].
        split; [lia|]. split; [exact Hbl2|reflexivity]. }
    destruct Hgrow as [(bt2 & bufsize2 & w4 & Hg & Hinv4 & Hown4 & Hbuf4 & Hpow4 & Hcap4
                        & Hbl4 & Hsave4)
                      | [f Hg]].
    2:{ rewrite (bind_fault _ _ _ _ Hg). exact I. }
    run Hg. clear Hg. cbn [fst snd].
    (* token = strtok(NULL, ...) *)
    assert (Hrest4 : read_cstr (heap w4) (Ptr bl off) = Some rest).
    { rewrite (read_cstr_same_block _ _ _ _ Hbl4). exact Hrest. }
    assert (Hsrc4 : (if is_null NULL then strtok_save w4 else NULL) = Ptr bl off)
      by (cbn [is_null]; congruence).
    destruct (strtok_step w4 NULL bl off rest toks Hsrc4 Hrest4 Hruns) as
      (token' & w5 & cells' & Hstep & Hh5 & Hout5 & Hat5).
    pose proof (strtok_save_block NULL DELIMS w4 token' w5 bl off Hsrc4 Hstep)
      as Hsv5.
    run Hstep. clear Hstep.
    rewrite Hpos.
    assert (Hrec : loop_footprint h0 bl (bs ++ [bn]) (ts ++ [t]) toks
              (cmd_parse_loop fuel (Ptr bt2 0) bufsize2
                 (Z.of_nat (length (bs ++ [bn]))) token' w5)).
    { apply IH.
      - rewrite Hh5. apply tok_inv_scan, Hinv4.
      - rewrite Hh5. apply tok_own_scan, Hown4.
      - exact Hbuf4.
      - exact Hpow4.
      - exact Hcap4.
      - exact Hsv5.
      - simpl in Hfuel. lia.
      - exact Hat5. }
    destruct (cmd_parse_loop fuel (Ptr bt2 0) bufsize2
                (Z.of_nat (length (bs ++ [bn]))) token' w5) as [r w'|c w'|f];
      cbn [loop_footprint] in *; [|exact I..].
    destruct Hrec as (bt' & bufsize' & bs' & Hr & Hinv' & Hrest').
    exists bt', bufsize', (bn :: bs').
    replace (bs ++ bn :: bs') with ((bs ++ [bn]) ++ bs') by list_assoc.
    replace (ts ++ t :: toks) with ((ts ++ [t]) ++ toks) by list_assoc.
    split; [exact Hr|]. split; [exact Hinv'|]. exact Hrest'.
Qed.

End Footprint.

(** When [cmd_parse] returns, it has allocated the array and one block per
    token, released its working copy, and touched nothing else. *)
Lemma cmd_parse_footprint w line s :
  read_cstr (heap w) line = Some s ->
  parse_footprint w s (cmd_parse line w).
Proof.
  intros Hline. unfold cmd_parse.
  (* tokens = malloc(...) *)
  destruct (malloc_spec w (Z.to_nat 64)) as (bt & Hbt & Hm).
  run Hm. clear Hm. cbn [is_null].
  (* line_copy = strdup(line) *)
  destruct line as [|b off]; [discriminate Hline|].
  assert (Hb_live : is_Some (heap w !! b)).
  { unfold read_cstr, cells_at in Hline. destruct (heap w !! b); [eauto|discriminate]. }
  assert (Hbbt : b <> bt) by (destruct Hb_live; congruence).
  set (w1 := set_heap (<[bt := replicate (Z.to_nat 64) Vundef]> (heap w)) w).
  assert (Hline1 : read_cstr (heap w1) (Ptr b off) = Some s).
  { rewrite <- Hline. apply read_cstr_same_block. unfold w1. cbn [heap set_heap].
    apply lookup_insert_ne. congruence. }
  destruct (strdup_spec _ _ _ Hline1) as (bl & Hbl & Hdup).
  run Hdup. clear Hdup.
  set (w2 := set_heap (<[bl := str_cells s]> (heap w1)) w1).
  assert (Hoks : cstr_ok s = true).
  { apply read_cstr_inv in Hline as [Hoks _]. exact Hoks. }
  assert (Hcopy : read_cstr (heap w2) (Ptr bl 0) = Some s).
  { apply read_cstr_start; [exact Hoks|]. unfold w2. cbn [heap set_heap].
    apply lookup_insert_eq. }
  run (strlen_ok _ _ _ Hcopy).
  assert (Hblbt : bl <> bt).
  { intros ->. unfold w1 in Hbl. cbn [heap set_heap] in Hbl.
    rewrite lookup_insert_eq in Hbl. discriminate. }
  assert (Hbl0 : heap w !! bl = None).
  { unfold w1 in Hbl. cbn [heap set_heap] in Hbl.
    rewrite lookup_insert_ne in Hbl by congruence. exact Hbl. }
  assert (Hinv2 : tok_inv (heap w) bl bt (Z.to_nat 64) [] [] (heap w2)).
  { unfold w2, w1. cbn [heap set_heap]. repeat split.
    - exists (replicate (Z.to_nat 64) Vundef).
      rewrite lookup_insert_ne by congruence. rewrite lookup_insert_eq.
      split; [reflexivity|]. cbn [tok_ptrs map app]. apply length_replicate.
    - constructor.
    - congruence.
    - apply not_elem_of_nil.
    - apply not_elem_of_nil.
    - intros b' c Hb'. rewrite !lookup_insert_ne by congruence. exact Hb'.
    - exact Hbt.
    - exact Hbl0.
    - rewrite lookup_insert_eq. eauto. }
  assert (Hown2 : tok_own (heap w) bl bt [] (heap w2)).
  { unfold w2, w1. cbn [heap set_heap]. split; [|split].
    - intros b' Hb'. destruct (decide (b' = bl)) as [->|Hn1]; [auto|].
      destruct (decide (b' = bt)) as [->|Hn2]; [auto|].
      rewrite !lookup_insert_ne in Hb' by congruence. auto.
    - apply NoDup_nil_2.
    - intros b' Hb'. inversion Hb'. }
  (* token = strtok(line_copy, ...) *)
  pose proof (runs_of_tokens_of s) as Hruns.
  destruct (strtok_step w2 (Ptr bl 0) bl 0 s (tokens_of s) eq_refl Hcopy Hruns)
    as (token & w3 & cells3 & Hstep & Hh3 & Hout3 & Hat3).
  pose proof (strtok_save_block (Ptr bl 0) DELIMS w2 token w3 bl 0 eq_refl Hstep)
    as Hsv3.
  run Hstep. clear Hstep.
  (* the loop *)
  assert (Hpost : loop_footprint (heap w) bl [] [] (tokens_of s)
            (cmd_parse_loop (length s) (Ptr bt 0) 64%Z
               (Z.of_nat (@length block [])) token w3)).
  { apply cmd_parse_loop_footprint.
    - rewrite Hh3. apply tok_inv_scan, Hinv2.
    - rewrite Hh3. apply tok_own_scan, Hown2.
    - unfold INT_MAX. simpl. lia.
    - exists 6%Z. split; [lia | reflexivity].
    - simpl. lia.
    - exact Hsv3.
    - apply runs_length, Hruns.
    - exact Hat3. }
  change 0%Z with (Z.of_nat (@length block [])).
  destruct (cmd_parse_loop (length s) (Ptr bt 0) 64%Z
              (Z.of_nat (@length block [])) token w3) as [r w4|c w4|f] eqn:Hloop;
    cbn [loop_footprint] in Hpost.
  2:{ rewrite (bind_exited _ _ _ _ _ Hloop). exact I. }
  2:{ rewrite (bind_fault _ _ _ _ Hloop). exact I. }
  destruct Hpost as (bt' & bufsize' & bs & -> & Hinv4 & Hown4 & Hlt4 & Hpow4 & Hcap4
                     & (off4 & Hsv4)).
  run Hloop. clear Hloop. cbn [fst snd app] in *.
  (* tokens[position] = NULL *)
  destruct Hinv4 as ((post & Hbt4 & Hlen4) & Hholds & Hne & Hbt_bs & Hbl_bs & Hpres
                     & H0t & H0l & Hlive).
  destruct Hown4 as (Hfoot & Hnd & Hnew).
  destruct post as [|x post].
  { rewrite app_nil_r, tok_ptrs_length in Hlen4. lia. }
  replace (ptr_add (Ptr bt' 0) (Z.to_nat (Z.of_nat (length bs))))
    with (Ptr bt' (length (tok_ptrs bs)))
    by (simpl; rewrite Nat2Z.id, tok_ptrs_length; reflexivity).
  run (store_ok _ _ _ _ _ _ Hbt4).
  (* free(line_copy) *)
  destruct Hlive as [lcells Hlive].
  assert (Hlive5 : heap (set_heap (<[bt' := tok_ptrs bs ++ Vptr NULL :: post]>
                                      (heap w4)) w4) !! bl = Some lcells).
  { cbn [heap set_heap]. rewrite lookup_insert_ne by congruence. exact Hlive. }
  run (free_live _ _ _ Hlive5). clear Hlive5.
  cbn [bind ret parse_footprint heap set_heap strtok_save].
  exists bt', bs, post, bufsize', bl, off4.
  split; [reflexivity|].
  split; [rewrite lookup_delete_ne by congruence; apply lookup_insert_eq|].
  split; [rewrite <- Hlen4, !length_app; reflexivity|].
  split.
  { eapply holds_same; [exact Hholds|]. intros b' Hin.
    rewrite lookup_delete_ne, lookup_insert_ne by congruence. reflexivity. }
  split; [apply NoDup_cons; auto|].
  split.
  { intros b' Hb'. apply elem_of_cons in Hb' as [->|Hb']; auto. }
  split.
  { intros b' Hb'. apply not_elem_of_cons in Hb' as [Hn1 Hn2].
    destruct (decide (b' = bl)) as [->|Hn3].
    { rewrite lookup_delete_eq. symmetry. exact H0l. }
    rewrite lookup_delete_ne, lookup_insert_ne by congruence.
    destruct (heap w !! b') as [c|] eqn:E; [apply Hpres, E|].
    destruct (heap w4 !! b') as [c|] eqn:E4; [|reflexivity].
    destruct (Hfoot b' (ex_intro _ c E4)) as [[c' Hc]|[?|[?|?]]]; congruence. }
  split; [exact Hlt4|]. split; [exact Hpow4|]. split; [exact Hcap4|].
  split; [exact Hsv4 | apply lookup_delete_eq].
Qed.

Lemma pow2_int_le n : pow2 n -> (n <= INT_MAX)%Z -> (n <= 2 ^ 30)%Z.
Proof.
  intros (j & Hj & ->) Hmax. unfold INT_MAX in Hmax.
  destruct (Z_le_gt_dec j 30) as [Hle|Hgt].
  - apply Z.pow_le_mono_r; lia.
  - assert (2 ^ 31 <= 2 ^ j)%Z by (apply Z.pow_le_mono_r; lia). lia.
Qed.

(** X3: when [cmd_parse] returns, its result is made of new blocks only: the
    array and one block per token, each block holding just its token,
    pairwise distinct and none of them live before the call. Every other
    block, live or not, is as it was: the working copy of the line is
    released and nothing else is allocated, written or freed. *)
Theorem cmd_parse_allocates (w : world) (line : ptr) (s : cstring)
    (p : ptr) (w' : world) :
  read_cstr (heap w) line = Some s ->
  cmd_parse line w = Ret p w' ->
  exists bt bs,
    p = Ptr bt 0 /\
    owned_vector (heap w') bt bs /\
    holds (heap w') bs (tokens_of s) /\
    (forall b, b ∈ bt :: bs -> heap w !! b = None) /\
    (forall b, b ∉ bt :: bs -> heap w' !! b = heap w !! b).
Proof.
  intros Hline Hr. pose proof (cmd_parse_footprint _ _ _ Hline) as H.
  rewrite Hr in H.
  destruct H as (bt & bs & post & bufsize & bl & off & -> & Hbt & _ & Hholds & Hnd
                 & Hnew & Hframe & _).
  exists bt, bs. split; [reflexivity|]. split; [|auto].
  split; [eauto|]. split; [|exact Hnd].
  apply Forall_forall. intros b Hb. eapply holds_live; eauto.
Qed.

(** X4: [cmd_free] undoes [cmd_parse]: after parsing a line and freeing the
    result the heap is exactly the heap before the parse, and the
    environment, errno, working directory and output are untouched. *)
Theorem cmd_parse_cmd_free (w : world) (line : ptr) (s : cstring)
    (p : ptr) (w' : world) :
  read_cstr (heap w) line = Some s ->
  cmd_parse line w = Ret p w' ->
  exists w'',
    cmd_free p w' = Ret tt w'' /\
    heap w'' = heap w /\
    outside w'' = outside w.
Proof.
  intros Hline Hr. pose proof (cmd_parse_footprint _ _ _ Hline) as H.
  pose proof (cmd_parse_outcome _ _ _ Hline) as Hout.
  rewrite Hr in H, Hout. destruct Hout as (_ & _ & Hout).
  destruct H as (bt & bs & post & bufsize & bl & off & -> & Hbt & _ & Hholds & Hnd
                 & Hnew & Hframe & Hlt & _).
  assert (Hvec : owned_vector (heap w') bt bs).
  { split; [eauto|]. split; [|exact Hnd].
    apply Forall_forall. intros b Hb. eapply holds_live; eauto. }
  assert (Hint : (Z.of_nat (length bs) <= INT_MAX)%Z) by lia.
  eexists. split; [apply (cmd_free_spec _ _ _ Hvec Hint)|].
  cbn [heap set_heap]. split; [|exact Hout].
  apply map_eq. intros b.
  destruct (decide (b ∈ bt :: bs)) as [Hin|Hnotin].
  - rewrite (Hnew b Hin). apply elem_of_cons in Hin as [->|Hin].
    + apply lookup_delete_eq.
    + destruct (decide (b = bt)) as [->|Hne]; [apply lookup_delete_eq|].
      rewrite lookup_delete_ne by congruence. apply free_all_in, Hin.
  - rewrite <- (Hframe b Hnotin). apply not_elem_of_cons in Hnotin as [Hne Hnotin].
    rewrite lookup_delete_ne by congruence. apply free_all_notin, Hnotin.
Qed.


Lemma tokens_of_letter r :
  tokens_of ("a"%char :: " "%char :: r) = ["a"%char] :: tokens_of r.
Proof. reflexivity. Qed.

Lemma tokens_of_letters n :
  tokens_of (concat (repeat (lit "a ") n)) = repeat (lit "a") n.
Proof.
  induction n as [|n IH]; [reflexivity|].
  cbn [repeat concat].
  change (lit "a " ++ concat (repeat (lit "a ") n))
    with ("a"%char :: " "%char :: concat (repeat (lit "a ") n)).
  rewrite tokens_of_letter, IH. reflexivity.
Qed.

Lemma letters_ok n : cstr_ok (concat (repeat (lit "a ") n)) = true.
Proof.
  induction n as [|n IH]; [reflexivity|].
  cbn [repeat concat]. apply cstr_ok_app. split; [reflexivity | exact IH].
Qed.

Lemma many_tokens_line :
  read_cstr (heap many_world) (Ptr 0 0) = Some many_tokens.
Proof.
  apply read_cstr_start; [apply letters_ok|].
  unfold many_world, demo_world, line_heap. cbn [heap].
  apply lookup_insert_eq.
Qed.

Lemma many_tokens_count :
  Z.of_nat (length (tokens_of many_tokens)) = (2 ^ 30)%Z.
Proof.
  unfold many_tokens. rewrite tokens_of_letters, repeat_length.
  apply Z2Nat.id. apply Z.pow_nonneg. lia.
Qed.


(** X5: [cmd_parse] cannot return on a line with 2^30 tokens or more:
    whenever it returns, the line has fewer than 2^30 tokens. The capacity
    [bufsize] is an int that is always a power of two above the number of
    tokens stored, and doubling it past 2^30 overflows. *)
Theorem cmd_parse_limit (w : world) (line : ptr) (s : cstring) :
  read_cstr (heap w) line = Some s ->
  (forall p w', cmd_parse line w = Ret p w' ->
     (Z.of_nat (length (tokens_of s)) < 2 ^ 30)%Z) /\
  ((2 ^ 30 <= Z.of_nat (length (tokens_of s)))%Z ->
   forall p w', cmd_parse line w <> Ret p w').
Proof.
  intros Hline. pose proof (cmd_parse_footprint _ _ _ Hline) as H.
  assert (Hret : forall p w', cmd_parse line w = Ret p w' ->
                   (Z.of_nat (length (tokens_of s)) < 2 ^ 30)%Z).
  { intros p w' Hr. rewrite Hr in H.
    destruct H as (bt & bs & post & bufsize & bl & off & _ & _ & _ & Hholds & _
                   & _ & _ & Hlt & Hpow & _).
    rewrite <- (holds_length _ _ _ Hholds).
    pose proof (pow2_int_le _ Hpow (proj2 Hlt)). lia. }
  split; [exact Hret|].
  intros Hbig p w' Hr. specialize (Hret p w' Hr). lia.
Qed.

(** X6: the array [cmd_parse] returns has a power of two of cells, at
    least one more than there are tokens, and, once it has grown beyond the
    initial 64, at most twice as many as there are tokens. *)
Theorem cmd_parse_capacity (w : world) (line : ptr) (s : cstring)
    (p : ptr) (w' : world) :
  read_cstr (heap w) line = Some s ->
  cmd_parse line w = Ret p w' ->
  exists bt cells j,
    p = Ptr bt 0 /\
    heap w' !! bt = Some cells /\
    (0 <= j)%Z /\ Z.of_nat (length cells) = (2 ^ j)%Z /\
    (Z.of_nat (length (tokens_of s)) < Z.of_nat (length cells)
       <= Z.max 64 (2 * Z.of_nat (length (tokens_of s))))%Z.
Proof.
  intros Hline Hr. pose proof (cmd_parse_footprint _ _ _ Hline) as H.
  rewrite Hr in H.
  destruct H as (bt & bs & post & bufsize & bl & off & -> & Hbt & Hlen & Hholds & _
                 & _ & _ & Hlt & (j & Hj & Hpow) & Hcap & _).
  exists bt, (tok_ptrs bs ++ Vptr NULL :: post), j.
  rewrite <- (holds_length _ _ _ Hholds), Hlen, Z2Nat.id by lia.
  split; [reflexivity|]. split; [exact Hbt|]. split; [exact Hj|].
  split; [exact Hpow | lia].
Qed.

(** X7: [cmd_parse] takes over the hidden state of [strtok] and leaves it
    dangling: after it returns the saved pointer is into the released
    working copy, so a scan the caller had under way is lost and a
    following [strtok(NULL, d)] reads freed memory. *)
Theorem cmd_parse_invalidates_strtok (w : world) (line : ptr) (s : cstring)
    (p : ptr) (w' : world) (d : cstring) :
  read_cstr (heap w) line = Some s ->
  cmd_parse line w = Ret p w' ->
  (exists bl off, strtok_save w' = Ptr bl off /\ heap w' !! bl = None) /\
  strtok NULL d w' = Fault MemFault.
Proof.
  intros Hline Hr. pose proof (cmd_parse_footprint _ _ _ Hline) as H.
  rewrite Hr in H.
  destruct H as (bt & bs & post & bufsize & bl & off & _ & _ & _ & _ & _
                 & _ & _ & _ & _ & _ & Hsv & Hdead).
  split; [eauto|].
  unfold strtok, bind, get_world. cbn [is_null]. rewrite Hsv.
  unfold cells_at. rewrite Hdead. reflexivity.
Qed.

Lemma cmd_parse_allocates_witness :
  read_cstr (heap (demo_world (line_heap (lit "ls -a -l")) ∅)) (Ptr 0 0) =
    Some (lit "ls -a -l") /\
  exists p w',
    cmd_parse (Ptr 0 0) (demo_world (line_heap (lit "ls -a -l")) ∅) = Ret p w' /\
    exists bt bs,
      p = Ptr bt 0 /\
      owned_vector (heap w') bt bs /\
      holds (heap w') bs (tokens_of (lit "ls -a -l")) /\
      (forall b, b ∈ bt :: bs ->
                 heap (demo_world (line_heap (lit "ls -a -l")) ∅) !! b = None) /\
      (forall b, b ∉ bt :: bs ->
                 heap w' !! b = heap (demo_world (line_heap (lit "ls -a -l")) ∅) !! b).
Proof.
  assert (Hline : read_cstr (heap (demo_world (line_heap (lit "ls -a -l")) ∅))
                    (Ptr 0 0) = Some (lit "ls -a -l")) by (vm_compute; reflexivity).
  assert (Hbound : (Z.of_nat (length (tokens_of (lit "ls -a -l"))) < 2 ^ 30)%Z)
    by (vm_compute; reflexivity).
  split; [exact Hline|].
  destruct (cmd_parse_returns _ _ _ Hline Hbound) as (p & w' & Hr).
  exists p, w'. split; [exact Hr|].
  exact (cmd_parse_allocates _ _ _ _ _ Hline Hr).
Defined.

Lemma cmd_parse_cmd_free_witness :
  read_cstr (heap (demo_world (line_heap (lit "foo -v")) ∅)) (Ptr 0 0) =
    Some (lit "foo -v") /\
  exists p w',
    cmd_parse (Ptr 0 0) (demo_world (line_heap (lit "foo -v")) ∅) = Ret p w' /\
    exists w'',
      cmd_free p w' = Ret tt w'' /\
      heap w'' = heap (demo_world (line_heap (lit "foo -v")) ∅) /\
      outside w'' = outside (demo_world (line_heap (lit "foo -v")) ∅).
Proof.
  assert (Hline : read_cstr (heap (demo_world (line_heap (lit "foo -v")) ∅))
                    (Ptr 0 0) = Some (lit "foo -v")) by (vm_compute; reflexivity).
  assert (Hbound : (Z.of_nat (length (tokens_of (lit "foo -v"))) < 2 ^ 30)%Z)
    by (vm_compute; reflexivity).
  split; [exact Hline|].
  destruct (cmd_parse_returns _ _ _ Hline Hbound) as (p & w' & Hr).
  exists p, w'. split; [exact Hr|].
  exact (cmd_parse_cmd_free _ _ _ _ _ Hline Hr).
Defined.

Lemma cmd_parse_limit_witness :
  (* a line of three tokens: the call returns *)
  (read_cstr (heap (demo_world (line_heap (lit "ls -a -l")) ∅)) (Ptr 0 0) =
     Some (lit "ls -a -l") /\
   exists p w',
     cmd_parse (Ptr 0 0) (demo_world (line_heap (lit "ls -a -l")) ∅) = Ret p w' /\
     (Z.of_nat (length (tokens_of (lit "ls -a -l"))) < 2 ^ 30)%Z) /\
  (* a line of 2^30 tokens: it cannot *)
  (read_cstr (heap many_world) (Ptr 0 0) = Some many_tokens /\
   (2 ^ 30 <= Z.of_nat (length (tokens_of many_tokens)))%Z /\
   forall p w', cmd_parse (Ptr 0 0) many_world <> Ret p w').
Proof.
  assert (Hline : read_cstr (heap (demo_world (line_heap (lit "ls -a -l")) ∅))
                    (Ptr 0 0) = Some (lit "ls -a -l")) by (vm_compute; reflexivity).
  assert (Hbig : (2 ^ 30 <= Z.of_nat (length (tokens_of many_tokens)))%Z)
    by (rewrite many_tokens_count; apply Z.le_refl).
  split.
  - split; [exact Hline|].
    destruct (cmd_parse (Ptr 0 0) (demo_world (line_heap (lit "ls -a -l")) ∅))
      as [p w'|c w'|f] eqn:Hr; [|vm_compute in Hr; discriminate Hr..].
    exists p, w'. split; [reflexivity|].
    exact (proj1 (cmd_parse_limit _ _ _ Hline) p w' Hr).
  - split; [exact many_tokens_line|]. split; [exact Hbig|].
    exact (proj2 (cmd_parse_limit _ _ _ many_tokens_line) Hbig).
Defined.

Lemma cmd_parse_capacity_witness :
  read_cstr (heap (demo_world (line_heap (lit "ls -a -l")) ∅)) (Ptr 0 0) =
    Some (lit "ls -a -l") /\
  exists p w',
    cmd_parse (Ptr 0 0) (demo_world (line_heap (lit "ls -a -l")) ∅) = Ret p w' /\
    exists bt cells j,
      p = Ptr bt 0 /\
      heap w' !! bt = Some cells /\
      (0 <= j)%Z /\ Z.of_nat (length cells) = (2 ^ j)%Z /\
      (Z.of_nat (length (tokens_of (lit "ls -a -l"))) < Z.of_nat (length cells)
         <= Z.max 64 (2 * Z.of_nat (length (tokens_of (lit "ls -a -l")))))%Z.
Proof.
  assert (Hline : read_cstr (heap (demo_world (line_heap (lit "ls -a -l")) ∅))
                    (Ptr 0 0) = Some (lit "ls -a -l")) by (vm_compute; reflexivity).
  assert (Hbound : (Z.of_nat (length (tokens_of (lit "ls -a -l"))) < 2 ^ 30)%Z)
    by (vm_compute; reflexivity).
  split; [exact Hline|].
  destruct (cmd_parse_returns _ _ _ Hline Hbound) as (p & w' & Hr).
  exists p, w'. split; [exact Hr|].
  exact (cmd_parse_capacity _ _ _ _ _ Hline Hr).
Defined.

Lemma cmd_parse_invalidates_strtok_witness :
  read_cstr (heap (demo_world (line_heap (lit "ls -a -l")) ∅)) (Ptr 0 0) =
    Some (lit "ls -a -l") /\
  exists p w',
    cmd_parse (Ptr 0 0) (demo_world (line_heap (lit "ls -a -l")) ∅) = Ret p w' /\
    (exists bl off, strtok_save w' = Ptr bl off /\ heap w' !! bl = None) /\
    strtok NULL DELIMS w' = Fault MemFault.
Proof.
  assert (Hline : read_cstr (heap (demo_world (line_heap (lit "ls -a -l")) ∅))
                    (Ptr 0 0) = Some (lit "ls -a -l")) by (vm_compute; reflexivity).
  assert (Hbound : (Z.of_nat (length (tokens_of (lit "ls -a -l"))) < 2 ^ 30)%Z)
    by (vm_compute; reflexivity).
  split; [exact Hline|].
  destruct (cmd_parse_returns _ _ _ Hline Hbound) as (p & w' & Hr).
  exists p, w'. split; [exact Hr|].
  exact (cmd_parse_invalidates_strtok _ _ _ _ _ DELIMS Hline Hr).
Defined.

(** ** The trimmer: what it writes *)

(** A string is its leading whitespace, what [trim] keeps, and trailing
    whitespace; what [trim] keeps is empty or starts and ends with a
    character that is not whitespace. *)
Lemma trim_parts s :
  (drop_while isspace s = [] /\ trim s = []) \/
  (exists c s2 keep0 cl dropped,
     drop_while isspace s = c :: s2 /\ isspace c = false /\
     c :: s2 = (keep0 ++ [cl]) ++ dropped /\
     trim s = keep0 ++ [cl] /\
     isspace cl = false /\ forallb isspace dropped = true).
Proof.
  destruct (drop_while isspace s) as [|c s2] eqn:Hs1.
  - left. split; [reflexivity|]. unfold trim. rewrite Hs1. reflexivity.
  - right. assert (Hc : isspace c = false) by (eapply drop_while_head, Hs1).
    destruct (trim_split c s2 Hc) as (keep0 & cl & dropped & Hsplit & Hkeep & Hcl & Hdr).
    exists c, s2, keep0, cl, dropped. repeat split; try assumption.
    rewrite <- Hkeep. unfold trim. rewrite Hs1. simpl. rewrite Hc. reflexivity.
Qed.

Lemma trim_trim s : trim (trim s) = trim s.
Proof.
  destruct (trim_parts s) as [[_ ->] | (c & s2 & keep0 & cl & dropped & _ & Hc & Hsplit
                                        & -> & Hcl & _)].
  - reflexivity.
  - assert (Hhead : exists k, keep0 ++ [cl] = c :: k).
    { destruct keep0 as [|c' k0]; simpl in Hsplit; inversion Hsplit; eauto. }
    destruct Hhead as [k Hk]. unfold trim. rewrite Hk. simpl drop_while at 2.
    rewrite Hc, <- Hk, rev_app_distr. simpl. rewrite Hcl. simpl.
    rewrite rev_involutive. reflexivity.
Qed.

(** One run of [trim_white] on a string s stored after the cells pre: the
    pointer moves past the leading whitespace, and the block ends up with a
    terminator right after what [trim] keeps. *)
Lemma trim_white_run b w pre s rest :
  heap w !! b = Some (pre ++ map Vchar s ++ Vchar NUL :: rest) ->
  cstr_ok s = true ->
  exists dropped,
    s = take_while isspace s ++ trim s ++ dropped /\
    forallb isspace dropped = true /\
    trim_white (Ptr b (length pre)) w =
      Ret (Ptr b (length pre + length (take_while isspace s)))
          (set_heap
             (<[b := pre ++ map Vchar (take_while isspace s ++ trim s) ++
                     Vchar NUL :: drop 1 (map Vchar dropped ++ Vchar NUL :: rest)]>
                (heap w)) w).
Proof.
  intros Hb Hok.
  pose proof (take_drop_while isspace s) as Hs.
  set (lead := take_while isspace s) in *.
  unfold trim_white. cbn [is_null].
  run (block_size_ok _ _ _ _ Hb).
  assert (Hfuel : length s <=
            length (pre ++ map Vchar s ++ Vchar NUL :: rest)).
  { rewrite !length_app, length_map. lia. }
  run (skip_leading_spec _ _ _ _ _ _ Hb Hok Hfuel).
  fold lead.
  assert (HL : length pre + length lead = length (pre ++ map Vchar lead))
    by (rewrite length_app, length_map; reflexivity).
  rewrite HL.
  destruct (trim_parts s) as [[Hs1 Htrim] | (c & s2 & keep0 & cl & dropped & Hs1 & Hc
                                            & Hsplit & Htrim & Hcl & Hdr)];
    rewrite Hs1 in Hs; rewrite Htrim.
  - (* nothing but whitespace *)
    rewrite app_nil_r in Hs. exists []. rewrite !app_nil_r.
    split; [symmetry; exact Hs|]. split; [reflexivity|].
    assert (Hb' : heap w !! b =
              Some ((pre ++ map Vchar lead) ++ map Vchar [] ++ Vchar NUL :: rest)).
    { rewrite Hb. f_equal. rewrite <- Hs at 1. list_assoc. }
    run (load_char_ok _ _ _ _ (cells_at_split _ _ _ _ Hb')).
    cbn [is_nul NUL Ascii.eqb Bool.eqb ret]. f_equal.
    cbn [map app drop]. rewrite insert_id; [symmetry; apply set_heap_same|].
    rewrite Hb. f_equal. rewrite <- Hs at 1. reflexivity.
  - (* some content: c starts it *)
    exists dropped. split; [rewrite <- Hsplit; symmetry; exact Hs|].
    split; [exact Hdr|].
    assert (Hok1 : cstr_ok (c :: s2) = true).
    { rewrite <- Hs in Hok. apply cstr_ok_app in Hok. tauto. }
    assert (Hb1 : heap w !! b =
              Some ((pre ++ map Vchar lead) ++ map Vchar (c :: s2) ++ Vchar NUL :: rest)).
    { rewrite Hb. f_equal. rewrite <- Hs. list_assoc. }
    assert (Hload : load_char (Ptr b (length (pre ++ map Vchar lead))) w = Ret c w).
    { eapply load_char_ok, cells_at_split. simpl in Hb1. exact Hb1. }
    run Hload.
    apply cstr_ok_cons in Hok1 as Hnul. destruct Hnul as [Hnul _]. rewrite Hnul.
    rewrite (bind_ret _ _ _ _ _
               (strlen_ok _ _ _ (read_cstr_split _ _ _ _ _ Hb1 Hok1))).
    assert (Hlen : length (c :: s2) = S (length keep0 + length dropped)).
    { rewrite Hsplit, !length_app. simpl. lia. }
    rewrite Hlen. cbn [ptr_add].
    replace (length (pre ++ map Vchar lead) + S (length keep0 + length dropped))
      with (S (length (pre ++ map Vchar lead) + length keep0 + length dropped))
      by lia.
    unfold bind at 1. cbn [ptr_dec ret].
    assert (Hb2 : heap w !! b =
              Some ((pre ++ map Vchar lead) ++ map Vchar keep0 ++
                    Vchar cl :: map Vchar dropped ++ Vchar NUL :: rest)).
    { rewrite Hb1, Hsplit. f_equal. list_assoc. }
    assert (Hfuel2 : length dropped <=
              length (pre ++ map Vchar s ++ Vchar NUL :: rest)).
    { rewrite <- Hs, Hsplit. rewrite !length_app, !length_map, !length_app.
      lia. }
    rewrite (bind_ret _ _ _ _ _
               (skip_trailing_spec _ _ _ _ _ Hcl _ _ _ Hb2 Hdr Hfuel2)).
    cbn [ptr_add].
    assert (Hcell : exists x post,
               map Vchar dropped ++ Vchar NUL :: rest = x :: post).
    { destruct dropped; simpl; eauto. }
    destruct Hcell as (x & post & Hx).
    assert (Hb3 : heap w !! b =
              Some (((pre ++ map Vchar lead) ++ map Vchar (keep0 ++ [cl])) ++
                    x :: post)).
    { rewrite Hb2, Hx. f_equal. list_assoc. }
    replace (length (pre ++ map Vchar lead) + length keep0 + 1)
      with (length ((pre ++ map Vchar lead) ++ map Vchar (keep0 ++ [cl])))
      by (rewrite !length_app, !length_map, length_app; simpl; lia).
    run (store_ok _ _ _ _ _ _ Hb3).
    cbn [ret]. rewrite <- HL. do 3 f_equal. rewrite Hx. cbn [drop].
    list_assoc.
Qed.

Lemma insert_after (pre kept : list val) x post v :
  <[length pre + length kept := v]> (pre ++ kept ++ x :: post) =
  pre ++ kept ++ v :: post.
Proof.
  rewrite app_assoc, <- length_app.
  replace (length (pre ++ kept)) with (length (pre ++ kept) + 0) by lia.
  rewrite insert_app_r, <- app_assoc. reflexivity.
Qed.

(** [trim_white] changes nothing when there is nothing to trim. *)
Lemma trim_white_noop b w pre s rest :
  heap w !! b = Some (pre ++ map Vchar s ++ Vchar NUL :: rest) ->
  cstr_ok s = true -> trim s = s ->
  trim_white (Ptr b (length pre)) w = Ret (Ptr b (length pre)) w.
Proof.
  intros Hb Hok Hfix.
  destruct (trim_white_run _ _ _ _ _ Hb Hok) as (dropped & Hdec & _ & Hrun).
  rewrite Hfix in *.
  assert (Hlen : length s = length (take_while isspace s ++ s ++ dropped))
    by (rewrite <- Hdec; reflexivity).
  rewrite !length_app in Hlen.
  assert (Hlead : take_while isspace s = [])
    by (apply length_zero_iff_nil; lia).
  assert (Hdr : dropped = []) by (apply length_zero_iff_nil; lia).
  rewrite Hrun, Hlead, Hdr. cbn [length app map drop]. rewrite Nat.add_0_r.
  f_equal. rewrite insert_id by exact Hb. apply set_heap_same.
Qed.

(** X8: [trim_white] writes at most one cell: the terminator it puts right
    after the last character that is not whitespace. The string splits into
    leading whitespace, the trimmed string and trailing whitespace; the
    leading whitespace stays in memory, so the pointer passed in, which is
    the one to free, afterwards reads the leading whitespace followed by
    the trimmed string. *)
Theorem trim_white_cuts (w : world) (b : block) (off : nat) (s : cstring)
    (cells : list val) :
  heap w !! b = Some cells ->
  read_cstr (heap w) (Ptr b off) = Some s ->
  exists trail w',
    s = take_while isspace s ++ trim s ++ trail /\
    forallb isspace trail = true /\
    trim_white (Ptr b off) w =
      Ret (Ptr b (off + length (take_while isspace s))) w' /\
    w' = set_heap
           (<[b := <[off + length (take_while isspace s ++ trim s) := Vchar NUL]>
                     cells]> (heap w)) w /\
    read_cstr (heap w') (Ptr b off) = Some (take_while isspace s ++ trim s).
Proof.
  intros Hcells Hread.
  destruct (read_cstr_inv _ _ _ _ Hread) as (Hok & pre & rest & Hb & Hoff).
  subst off.
  destruct (trim_white_run _ _ _ _ _ Hb Hok) as (dropped & Hdec & Hdr & Hrun).
  exists dropped. eexists. split; [exact Hdec|]. split; [exact Hdr|].
  split; [exact Hrun|].
  rewrite Hb in Hcells. inversion Hcells as [Hc]. clear Hcells.
  assert (Hcell : exists x post,
             map Vchar dropped ++ Vchar NUL :: rest = x :: post).
  { destruct dropped; simpl; eauto. }
  destruct Hcell as (x & post & Hx).
  set (kept := take_while isspace s ++ trim s) in *.
  assert (Hsplit : map Vchar s ++ Vchar NUL :: rest = map Vchar kept ++ x :: post).
  { rewrite Hdec at 1. rewrite app_assoc. fold kept.
    rewrite map_app, <- app_assoc, Hx. reflexivity. }
  rewrite Hx. cbn [drop]. split.
  - do 2 f_equal. rewrite Hsplit, <- (length_map Vchar kept). symmetry.
    apply insert_after.
  - cbn [heap set_heap]. apply (read_cstr_split _ _ _ _ post).
    + apply lookup_insert_eq.
    + rewrite Hdec, app_assoc in Hok. fold kept in Hok.
      apply cstr_ok_app in Hok. tauto.
Qed.

(** X9: [trim_white] leaves the state as it is when the string has no
    leading and no trailing whitespace, and it is idempotent: applied to its
    own result it returns the same pointer and leaves the state as it is. *)
Theorem trim_white_idempotent (w : world) (b : block) (off : nat) (s : cstring) :
  read_cstr (heap w) (Ptr b off) = Some s ->
  (trim s = s -> trim_white (Ptr b off) w = Ret (Ptr b off) w) /\
  (forall p w', trim_white (Ptr b off) w = Ret p w' ->
                trim_white p w' = Ret p w').
Proof.
  intros Hread.
  destruct (read_cstr_inv _ _ _ _ Hread) as (Hok & pre & rest & Hb & Hoff).
  subst off. split.
  - intros Hfix. apply (trim_white_noop _ _ _ _ _ Hb Hok Hfix).
  - intros p w' Hr.
    destruct (trim_white_run _ _ _ _ _ Hb Hok) as (dropped & Hdec & Hdr & Hrun).
    rewrite Hrun in Hr. inversion Hr as [[Hp Hw]]. clear Hr.
    set (lead := take_while isspace s) in *.
    replace (length pre + length lead) with (length (pre ++ map Vchar lead))
      by (rewrite length_app, length_map; reflexivity).
    apply (trim_white_noop _ _ _ (trim s)
             (drop 1 (map Vchar dropped ++ Vchar NUL :: rest))).
    + cbn [heap set_heap]. rewrite lookup_insert_eq. f_equal. list_assoc.
    + rewrite Hdec in Hok. apply cstr_ok_app in Hok as [_ Hok].
      apply cstr_ok_app in Hok. tauto.
    + apply trim_trim.
Qed.

Lemma trim_white_cuts_witness :
  heap (demo_world (line_heap (lit "  ls -a ")) ∅) !! 0 =
    Some (str_cells (lit "  ls -a ")) /\
  read_cstr (heap (demo_world (line_heap (lit "  ls -a ")) ∅)) (Ptr 0 0) =
    Some (lit "  ls -a ") /\
  exists trail w',
    lit "  ls -a " =
      take_while isspace (lit "  ls -a ") ++ trim (lit "  ls -a ") ++ trail /\
    forallb isspace trail = true /\
    trim_white (Ptr 0 0) (demo_world (line_heap (lit "  ls -a ")) ∅) =
      Ret (Ptr 0 (0 + length (take_while isspace (lit "  ls -a ")))) w' /\
    w' = set_heap
           (<[0 := <[0 + length (take_while isspace (lit "  ls -a ") ++
                                 trim (lit "  ls -a ")) := Vchar NUL]>
                     (str_cells (lit "  ls -a "))]>
              (heap (demo_world (line_heap (lit "  ls -a ")) ∅)))
           (demo_world (line_heap (lit "  ls -a ")) ∅) /\
    read_cstr (heap w') (Ptr 0 0) =
      Some (take_while isspace (lit "  ls -a ") ++ trim (lit "  ls -a ")).
Proof.
  assert (Hcells : heap (demo_world (line_heap (lit "  ls -a ")) ∅) !! 0 =
                     Some (str_cells (lit "  ls -a "))) by (vm_compute; reflexivity).
  assert (Hline : read_cstr (heap (demo_world (line_heap (lit "  ls -a ")) ∅))
                    (Ptr 0 0) = Some (lit "  ls -a ")) by (vm_compute; reflexivity).
  split; [exact Hcells|]. split; [exact Hline|].
  exact (trim_white_cuts _ _ _ _ _ Hcells Hline).
Defined.

Lemma trim_white_idempotent_witness :
  read_cstr (heap (demo_world (line_heap (lit "ls -a")) ∅)) (Ptr 0 0) =
    Some (lit "ls -a") /\
  trim (lit "ls -a") = lit "ls -a" /\
  trim_white (Ptr 0 0) (demo_world (line_heap (lit "ls -a")) ∅) =
    Ret (Ptr 0 0) (demo_world (line_heap (lit "ls -a")) ∅) /\
  read_cstr (heap (demo_world (line_heap (lit " ls -a ")) ∅)) (Ptr 0 0) =
    Some (lit " ls -a ") /\
  exists p w',
    trim_white (Ptr 0 0) (demo_world (line_heap (lit " ls -a ")) ∅) = Ret p w' /\
    trim_white p w' = Ret p w'.
Proof.
  assert (Hline : read_cstr (heap (demo_world (line_heap (lit "ls -a")) ∅))
                    (Ptr 0 0) = Some (lit "ls -a")) by (vm_compute; reflexivity).
  assert (Hfix : trim (lit "ls -a") = lit "ls -a") by (vm_compute; reflexivity).
  assert (Hline2 : read_cstr (heap (demo_world (line_heap (lit " ls -a ")) ∅))
                     (Ptr 0 0) = Some (lit " ls -a ")) by (vm_compute; reflexivity).
  split; [exact Hline|]. split; [exact Hfix|].
  split; [exact (proj1 (trim_white_idempotent _ _ _ _ Hline) Hfix)|].
  split; [exact Hline2|].
  destruct (trim_white (Ptr 0 0) (demo_world (line_heap (lit " ls -a ")) ∅))
    as [p w'|c w'|f] eqn:Hr.
  - exists p, w'. split; [reflexivity|].
    exact (proj2 (trim_white_idempotent _ _ _ _ Hline2) p w' Hr).
  - vm_compute in Hr. discriminate Hr.
  - vm_compute in Hr. discriminate Hr.
Defined.

(** ** What the builtins leave alone *)

Lemma same_memory_refl w : same_memory w w.
Proof. repeat split. exists []. symmetry. apply app_nil_r. Qed.

Lemma same_memory_trans w1 w2 w3 :
  same_memory w1 w2 -> same_memory w2 w3 -> same_memory w1 w3.
Proof.
  intros (Hh & He & Hs & Hk & e1 & Ht) (Hh' & He' & Hs' & Hk' & e2 & Ht').
  repeat split; try congruence.
  exists (e1 ++ e2). rewrite Ht', Ht, app_assoc. reflexivity.
Qed.

Lemma keeps_ret {A} (a : A) : keeps_memory (ret a).
Proof. intros w. apply same_memory_refl. Qed.

Lemma keeps_fail {A} f : keeps_memory (@fail A f).
Proof. intros w. exact I. Qed.

Lemma keeps_exit {A} c : keeps_memory (@exit A c).
Proof. intros w. apply same_memory_refl. Qed.

Lemma keeps_get_world : keeps_memory get_world.
Proof. intros w. apply same_memory_refl. Qed.

Lemma keeps_lift {A} (o : option A) : keeps_memory (lift o).
Proof. destruct o; [apply keeps_ret | apply keeps_fail]. Qed.

Lemma keeps_bind {A B} (m : M A) (k : A -> M B) :
  keeps_memory m -> (forall a, keeps_memory (k a)) -> keeps_memory (bind m k).
Proof.
  intros Hm Hk w. unfold bind. specialize (Hm w).
  destruct (m w) as [a w1|c w1|f]; [|exact Hm|exact I].
  specialize (Hk a w1). destruct (k a w1) as [b w2|c w2|f]; [| |exact I];
    eapply same_memory_trans; eauto.
Qed.

Lemma keeps_emit e : keeps_memory (modify (emit e)).
Proof. intros w. repeat split. exists [e]. reflexivity. Qed.

Lemma keeps_set_errno e : keeps_memory (modify (set_errno e)).
Proof. intros w. repeat split. exists []. symmetry. apply app_nil_r. Qed.

Lemma keeps_set_cwd d : keeps_memory (modify (set_cwd d)).
Proof. intros w. repeat split. exists []. symmetry. apply app_nil_r. Qed.

Create HintDb keeps.
#[local] Hint Resolve keeps_ret keeps_fail keeps_exit keeps_get_world keeps_lift
  keeps_emit keeps_set_errno keeps_set_cwd : keeps.

(** Break a computation into its steps, down to the steps above. *)
Ltac keeps :=
  repeat first
    [ solve [auto with keeps]
    | apply keeps_bind; [|intros ?]
    | match goal with
      | |- keeps_memory (if ?c then _ else _) => destruct c
      | |- keeps_memory (match ?x with _ => _ end) => destruct x
      end ].

Lemma keeps_load p : keeps_memory (load p).
Proof. unfold load. keeps. Qed.

Lemma keeps_load_ptr p : keeps_memory (load_ptr p).
Proof. unfold load_ptr. pose proof keeps_load. keeps. Qed.

Lemma keeps_load_cstr p : keeps_memory (load_cstr p).
Proof. unfold load_cstr. keeps. Qed.

Lemma keeps_getenv name : keeps_memory (getenv name).
Proof. unfold getenv. keeps. Qed.

Lemma keeps_perror msg : keeps_memory (perror msg).
Proof. unfold perror. keeps. Qed.

Lemma keeps_chdir path : keeps_memory (chdir path).
Proof. unfold chdir. keeps. Qed.

Lemma keeps_getpwuid_dir : keeps_memory getpwuid_dir.
Proof. unfold getpwuid_dir. keeps. Qed.

#[local] Hint Resolve keeps_load keeps_load_ptr keeps_load_cstr keeps_getenv
  keeps_perror keeps_chdir keeps_getpwuid_dir : keeps.

Lemma keeps_change_dir_to target : keeps_memory (change_dir_to target).
Proof. unfold change_dir_to. keeps. Qed.

#[local] Hint Resolve keeps_change_dir_to : keeps.

Lemma keeps_change_dir dir : keeps_memory (change_dir dir).
Proof. unfold change_dir. keeps. Qed.

#[local] Hint Resolve keeps_change_dir : keeps.

Lemma keeps_do_builtin sh argv : keeps_memory (do_builtin sh argv).
Proof. unfold do_builtin, strcmp_lit. keeps. Qed.

(** X10: [change_dir] and [do_builtin] allocate nothing, free nothing and
    write no memory: whether they return or end the process, the heap, the
    environment and the saved pointer of [strtok] are as before, and what
    was written to the output before is still its start. The vector passed
    in stays valid and stays the caller's to free. *)
Theorem builtins_keep_memory (sh : option shell) (argv : ptr) (w : world) :
  match change_dir argv w with
  | Ret _ w' | Exited _ w' =>
      heap w' = heap w /\ environ w' = environ w /\
      strtok_save w' = strtok_save w /\
      exists evs, trace w' = trace w ++ evs
  | Fault _ => True
  end /\
  match do_builtin sh argv w with
  | Ret _ w' | Exited _ w' =>
      heap w' = heap w /\ environ w' = environ w /\
      strtok_save w' = strtok_save w /\
      exists evs, trace w' = trace w ++ evs
  | Fault _ => True
  end.
Proof.
  split.
  - pose proof (keeps_change_dir argv w) as H.
    destruct (change_dir argv w); [| |exact I];
      destruct H as (? & ? & ? & _ & ?); auto.
  - pose proof (keeps_do_builtin sh argv w) as H.
    destruct (do_builtin sh argv w); [| |exact I];
      destruct H as (? & ? & ? & _ & ?); auto.
Qed.

(** ** Parsing a line, running it as a builtin, and releasing it *)

Lemma free_all_restores (h h' : gmap block (list val)) bt bs :
  (forall b, b ∈ bt :: bs -> h !! b = None) ->
  (forall b, b ∉ bt :: bs -> h' !! b = h !! b) ->
  delete bt (free_all bs h') = h.
Proof.
  intros Hnew Hframe. apply map_eq. intros b.
  destruct (decide (b ∈ bt :: bs)) as [Hin|Hnotin].
  - rewrite (Hnew b Hin). apply elem_of_cons in Hin as [->|Hin].
    + apply lookup_delete_eq.
    + destruct (decide (b = bt)) as [->|Hne]; [apply lookup_delete_eq|].
      rewrite lookup_delete_ne by congruence. apply free_all_in, Hin.
  - rewrite <- (Hframe b Hnotin). apply not_elem_of_cons in Hnotin as [Hne Hnotin].
    rewrite lookup_delete_ne by congruence. apply free_all_notin, Hnotin.
Qed.

Lemma dispatch_returns t argv w r w' :
  dispatch t argv w = Ret r w' -> r = is_builtin_name t.
Proof.
  unfold dispatch, is_builtin_name.
  destruct (bool_decide (t = lit "exit")).
  { unfold exit_unless_bypass, bind, getenv, get_world, ret, exit.
    intros H. repeat case_match; simplify_eq; reflexivity. }
  destruct (bool_decide (t = lit "cd")).
  { unfold bind. destruct (change_dir argv w); intros H; inversion H. reflexivity. }
  destruct (bool_decide (t = lit "history")); intros H; inversion H; reflexivity.
Qed.

(** X11: one step of a shell, as the tests compose it: a line is parsed,
    the vector is offered to [do_builtin], and the vector is freed. Whenever
    the first two return, [do_builtin] has answered true exactly when the
    line has a first token and it is "exit", "cd" or "history", and
    [cmd_free] then returns and leaves the heap and the environment exactly
    as they were before the line was parsed. *)
Theorem parse_builtin_free (sh : option shell) (w : world) (line : ptr)
    (s : cstring) (p : ptr) (w1 : world) (r : bool) (w2 : world) :
  read_cstr (heap w) line = Some s ->
  cmd_parse line w = Ret p w1 ->
  do_builtin sh p w1 = Ret r w2 ->
  r = match tokens_of s with
      | [] => false
      | t :: _ => is_builtin_name t
      end /\
  exists w3,
    cmd_free p w2 = Ret tt w3 /\
    heap w3 = heap w /\ environ w3 = environ w.
Proof.
  intros Hline Hparse Hb.
  pose proof (cmd_parse_footprint _ _ _ Hline) as Hfoot.
  pose proof (cmd_parse_outcome _ _ _ Hline) as Hout.
  rewrite Hparse in Hfoot, Hout. destruct Hout as (Hargv & _ & Hout).
  split.
  - destruct (tokens_of s) as [|t args].
    + destruct (read_argv_nil_inv _ _ Hargv) as [rest Hc].
      rewrite (do_builtin_empty sh p rest w1 Hc) in Hb. inversion Hb. reflexivity.
    + apply read_argv_cons_inv in Hargv as [Hfirst _].
      rewrite (do_builtin_dispatch _ _ _ _ Hfirst) in Hb.
      apply (dispatch_returns _ _ _ _ _ Hb).
  - pose proof (keeps_do_builtin sh p w1) as Hkeep. rewrite Hb in Hkeep.
    destruct Hkeep as (Hheap & Henv & _).
    destruct Hfoot as (bt & bs & post & bufsize & bl & off & -> & Hbt & _ & Hholds
                       & Hnd & Hnew & Hframe & Hlt & _).
    rewrite <- Hheap in Hbt, Hholds, Hframe.
    assert (Hvec : owned_vector (heap w2) bt bs).
    { split; [eauto|]. split; [|exact Hnd].
      apply Forall_forall. intros b Hin. eapply holds_live; eauto. }
    assert (Hint : (Z.of_nat (length bs) <= INT_MAX)%Z) by lia.
    eexists. split; [apply (cmd_free_spec _ _ _ Hvec Hint)|].
    cbn [heap set_heap environ]. split.
    + apply free_all_restores; assumption.
    + rewrite Henv. unfold outside in Hout. congruence.
Qed.

Lemma parse_builtin_free_witness :
  read_cstr (heap (demo_world (line_heap (lit "cd /")) ∅)) (Ptr 0 0) =
    Some (lit "cd /") /\
  exists p w1 r w2,
    cmd_parse (Ptr 0 0) (demo_world (line_heap (lit "cd /")) ∅) = Ret p w1 /\
    do_builtin None p w1 = Ret r w2 /\
    r = match tokens_of (lit "cd /") with
        | [] => false
        | t :: _ => is_builtin_name t
        end /\
    exists w3,
      cmd_free p w2 = Ret tt w3 /\
      heap w3 = heap (demo_world (line_heap (lit "cd /")) ∅) /\
      environ w3 = environ (demo_world (line_heap (lit "cd /")) ∅).
Proof.
  assert (Hline : read_cstr (heap (demo_world (line_heap (lit "cd /")) ∅))
                    (Ptr 0 0) = Some (lit "cd /")) by (vm_compute; reflexivity).
  split; [exact Hline|].
  destruct (cmd_parse (Ptr 0 0) (demo_world (line_heap (lit "cd /")) ∅))
    as [p w1|c w1|f] eqn:Hparse;
    [|vm_compute in Hparse; discriminate Hparse..].
  assert (Hb : exists r w2, do_builtin None p w1 = Ret r w2).
  { vm_compute in Hparse. injection Hparse as <- <-.
    vm_compute. eexists _, _. reflexivity. }
  destruct Hb as (r & w2 & Hb).
  exists p, w1, r, w2. split; [reflexivity|]. split; [exact Hb|].
  exact (parse_builtin_free None _ _ _ _ _ _ _ Hline Hparse Hb).
Defined.

(** ** Starting a session: [sh_init] *)

Lemma get_prompt_fresh env w :
  exists b,
    heap w !! b = None /\
    get_prompt env w =
      Ret (Ptr b 0)
          (set_heap (<[b := str_cells (default (lit "shell>") (environ w !! env))]>
                       (heap w)) w).
Proof.
  exists (fresh (dom (heap w))). split; [apply fresh_block_new|].
  unfold get_prompt. run (getenv_ok _ _).
  destruct (environ w !! env); reflexivity.
Qed.

Lemma isatty_run fd w :
  isatty fd w =
    if k_isatty (sys w) fd then Ret 1%Z w
    else Ret 0%Z (set_errno (k_isatty_errno (sys w) fd) w).
Proof.
  unfold isatty, bind, get_world, modify, ret.
  destruct (k_isatty (sys w) fd); reflexivity.
Qed.

(** [sh_init] after its two probes: the terminal-control block is entered
    on a terminal unless SKIP_TC is "1", and the prompt is installed. *)
Lemma sh_init_unfold s w :
  sh_init (Some s) w =
    (do s1 <- (if negb (shell_is_interactive (probed s w) =? 0)%Z &&
                  negb (bool_decide (environ w !! lit "SKIP_TC" = Some (lit "1")))
               then take_terminal (probed s w) else ret (probed s w));
     do p <- get_prompt (lit "MY_PROMPT");
     ret (Some (set_prompt p s1))) (probed_world w).
Proof.
  unfold sh_init. cbn [shell_terminal shell_pgid shell_tmodes prompt].
  unfold bind at 1. rewrite isatty_run. unfold probed, probed_world.
  assert (Hby : forall e : gmap cstring cstring,
            match e !! lit "SKIP_TC" with
            | Some v => (strcmp v (lit "1") =? 0)%Z
            | None => false
            end = bool_decide (e !! lit "SKIP_TC" = Some (lit "1"))).
  { intros e. destruct (e !! lit "SKIP_TC") as [v|].
    - rewrite strcmp_eqb. apply bool_decide_ext. split; congruence.
    - symmetry. apply bool_decide_eq_false_2. discriminate. }
  destruct (k_isatty (sys w) STDIN_FILENO); run (getenv_ok _ _);
    cbn [environ set_errno]; rewrite Hby; reflexivity.
Qed.

(** The ways the terminal-control block of [sh_init] can go. *)
Lemma take_terminal_run s w :
  take_terminal s w =
    match k_setpgid (sys w) (k_pid (sys w)) (k_pid (sys w)) with
    | None =>
        let s' := Shell (shell_is_interactive s) (k_pid (sys w))
                        (k_tcgetattr (sys w) (shell_terminal s))
                        (shell_terminal s) (prompt s) in
        let w' := emit (Ev_tcsetpgrp (shell_terminal s) (k_pid (sys w)))
                    (emit (Ev_setpgid (k_pid (sys w)) (k_pid (sys w))) w) in
        match k_tcsetpgrp (sys w) (shell_terminal s) (k_pid (sys w)) with
        | Tc_ok => Ret s' w'
        | Tc_error e => Ret s' (set_errno e w')
        | Tc_stop => Fault Stopped
        end
    | Some e =>
        Exited 1
          (emit (Ev_perror
                   (lit "sh_init: Couldn't put the shell in its own process group") e)
             (set_errno e (emit (Ev_setpgid (k_pid (sys w)) (k_pid (sys w))) w)))
    end.
Proof.
  unfold take_terminal, setpgid, tcsetpgrp, perror, bind, get_world, modify, ret,
    exit, fail.
  cbn [shell_pgid shell_terminal shell_is_interactive shell_tmodes prompt sys emit].
  destruct (k_setpgid (sys w) (k_pid (sys w)) (k_pid (sys w))); [reflexivity|].
  cbn [Z.ltb Z.compare sys emit].
  destruct (k_tcsetpgrp (sys w) (shell_terminal s) (k_pid (sys w))); reflexivity.
Qed.

Lemma keeps_take_terminal s : keeps_memory (take_terminal s).
Proof. unfold take_terminal, setpgid, tcsetpgrp. keeps. Qed.

Lemma same_memory_probed w : same_memory w (probed_world w).
Proof.
  unfold probed_world. destruct (k_isatty (sys w) STDIN_FILENO).
  - apply same_memory_refl.
  - apply keeps_set_errno.
Qed.

(** Whenever [sh_init] returns, it has added one block, the prompt, to a
    heap it has otherwise left alone. *)
Lemma sh_init_shape s w o w' :
  sh_init (Some s) w = Ret o w' ->
  exists s1 w1 b,
    same_memory w w1 /\ heap w1 !! b = None /\
    o = Some (set_prompt (Ptr b 0) s1) /\
    w' = set_heap (<[b := str_cells (prompt_text w)]> (heap w1)) w1.
Proof.
  rewrite sh_init_unfold. unfold bind at 1.
  match goal with
  | |- match ?m (probed_world w) with _ => _ end = _ -> _ =>
      assert (Hkeep : keeps_memory m)
        by (pose proof keeps_take_terminal; keeps);
      specialize (Hkeep (probed_world w));
      destruct (m (probed_world w)) as [s1 w1| |]
  end; try discriminate.
  pose proof (same_memory_trans _ _ _ (same_memory_probed w) Hkeep) as Hsame.
  destruct (get_prompt_fresh (lit "MY_PROMPT") w1) as (b & Hb & Hp).
  run Hp. intros H. inversion H; subst.
  exists s1, w1, b. split; [exact Hsame|]. split; [exact Hb|].
  split; [reflexivity|].
  unfold prompt_text. destruct Hsame as (_ & -> & _). reflexivity.
Qed.

(** X12: off a terminal, or with SKIP_TC set to "1", [sh_init] leaves the
    terminal alone: it records descriptor 0 and whether it is a terminal,
    does not touch the process group and the terminal modes of the session,
    emits nothing, and installs as prompt a new block that holds the value of
    MY_PROMPT, or "shell>" when it is unset. Nothing else changes, but for
    errno, which off a terminal holds what the [isatty] probe left. *)
Theorem sh_init_skips_terminal (s : shell) (w : world) :
  k_isatty (sys w) STDIN_FILENO = false \/
  environ w !! lit "SKIP_TC" = Some (lit "1") ->
  exists b,
    heap w !! b = None /\
    sh_init (Some s) w =
      Ret (Some (Shell (if k_isatty (sys w) STDIN_FILENO then 1 else 0)%Z
                       (shell_pgid s) (shell_tmodes s) STDIN_FILENO (Ptr b 0)))
          (set_heap (<[b := str_cells (prompt_text w)]> (heap w))
             (if k_isatty (sys w) STDIN_FILENO then w
              else set_errno (k_isatty_errno (sys w) STDIN_FILENO) w)).
Proof.
  intros Hskip. rewrite sh_init_unfold.
  assert (Hcond : negb (shell_is_interactive (probed s w) =? 0)%Z &&
                  negb (bool_decide (environ w !! lit "SKIP_TC" = Some (lit "1")))
                  = false).
  { destruct Hskip as [Htty|Henv].
    - unfold probed. cbn [shell_is_interactive]. rewrite Htty. reflexivity.
    - rewrite (bool_decide_eq_true_2 _ Henv). apply andb_false_r. }
  rewrite Hcond. unfold bind at 1. cbn [ret].
  destruct (get_prompt_fresh (lit "MY_PROMPT") (probed_world w)) as (b & Hb & Hp).
  destruct (same_memory_probed w) as (Hheap & Henv' & _).
  exists b. split; [rewrite <- Hheap; exact Hb|]. run Hp.
  unfold prompt_text. rewrite Henv', Hheap. reflexivity.
Qed.

(** X13: on a terminal, without the bypass, [sh_init] makes the process the
    leader of its own group: it calls setpgid(pid, pid). When that fails the
    process ends in exit(1) after the diagnostic, with the heap untouched.
    When it succeeds [sh_init] records the pid and the terminal modes and
    calls tcsetpgrp, whose result it does not look at: if tcsetpgrp succeeds
    or fails, the prompt is installed all the same (errno tells the
    failure); if the process is not in the foreground group of the terminal
    and tcsetpgrp stops it, [sh_init] does not return and no prompt is
    installed. *)
Theorem sh_init_takes_terminal (s : shell) (w : world) :
  k_isatty (sys w) STDIN_FILENO = true ->
  environ w !! lit "SKIP_TC" <> Some (lit "1") ->
  (forall e,
     k_setpgid (sys w) (k_pid (sys w)) (k_pid (sys w)) = Some e ->
     sh_init (Some s) w =
       Exited 1
         (emit (Ev_perror
                  (lit "sh_init: Couldn't put the shell in its own process group") e)
            (set_errno e
               (emit (Ev_setpgid (k_pid (sys w)) (k_pid (sys w))) w)))) /\
  (k_setpgid (sys w) (k_pid (sys w)) (k_pid (sys w)) = None ->
   (k_tcsetpgrp (sys w) STDIN_FILENO (k_pid (sys w)) = Tc_ok ->
    exists b,
      heap w !! b = None /\
      sh_init (Some s) w =
        Ret (Some (Shell 1 (k_pid (sys w)) (k_tcgetattr (sys w) STDIN_FILENO)
                         STDIN_FILENO (Ptr b 0)))
            (set_heap (<[b := str_cells (prompt_text w)]> (heap w))
               (emit (Ev_tcsetpgrp STDIN_FILENO (k_pid (sys w)))
                  (emit (Ev_setpgid (k_pid (sys w)) (k_pid (sys w))) w)))) /\
   (forall e,
      k_tcsetpgrp (sys w) STDIN_FILENO (k_pid (sys w)) = Tc_error e ->
      exists b,
        heap w !! b = None /\
        sh_init (Some s) w =
          Ret (Some (Shell 1 (k_pid (sys w)) (k_tcgetattr (sys w) STDIN_FILENO)
                           STDIN_FILENO (Ptr b 0)))
              (set_heap (<[b := str_cells (prompt_text w)]> (heap w))
                 (set_errno e
                    (emit (Ev_tcsetpgrp STDIN_FILENO (k_pid (sys w)))
                       (emit (Ev_setpgid (k_pid (sys w)) (k_pid (sys w))) w))))) /\
   (k_tcsetpgrp (sys w) STDIN_FILENO (k_pid (sys w)) = Tc_stop ->
    sh_init (Some s) w = Fault Stopped)).
Proof.
  intros Htty Henv. rewrite sh_init_unfold.
  assert (Hcond : negb (shell_is_interactive (probed s w) =? 0)%Z &&
                  negb (bool_decide (environ w !! lit "SKIP_TC" = Some (lit "1")))
                  = true).
  { rewrite (bool_decide_eq_false_2 _ Henv). unfold probed.
    cbn [shell_is_interactive]. rewrite Htty. reflexivity. }
  rewrite Hcond. unfold probed_world, probed. rewrite Htty.
  cbn [shell_is_interactive shell_terminal prompt shell_tmodes shell_pgid].
  split; [|intros Hok; split; [|split]].
  - intros e Herr. unfold bind at 1. rewrite take_terminal_run, Herr. reflexivity.
  - intros Htc. unfold bind at 1. rewrite take_terminal_run, Hok.
    cbn [shell_is_interactive shell_terminal prompt shell_tmodes shell_pgid].
    rewrite Htc. cbv zeta.
    set (w1 := emit (Ev_tcsetpgrp STDIN_FILENO (k_pid (sys w)))
                 (emit (Ev_setpgid (k_pid (sys w)) (k_pid (sys w))) w)).
    destruct (get_prompt_fresh (lit "MY_PROMPT") w1) as (b & Hb & Hp).
    exists b. split; [exact Hb|]. run Hp. reflexivity.
  - intros e Htc. unfold bind at 1. rewrite take_terminal_run, Hok.
    cbn [shell_is_interactive shell_terminal prompt shell_tmodes shell_pgid].
    rewrite Htc. cbv zeta.
    set (w1 := set_errno e
                 (emit (Ev_tcsetpgrp STDIN_FILENO (k_pid (sys w)))
                    (emit (Ev_setpgid (k_pid (sys w)) (k_pid (sys w))) w))).
    destruct (get_prompt_fresh (lit "MY_PROMPT") w1) as (b & Hb & Hp).
    exists b. split; [exact Hb|]. run Hp. reflexivity.
  - intros Htc. unfold bind at 1. rewrite take_terminal_run, Hok.
    cbn [shell_is_interactive shell_terminal prompt shell_tmodes shell_pgid].
    rewrite Htc. reflexivity.
Qed.

(** X14: [sh_destroy] undoes [sh_init]: whenever [sh_init] returns, the
    session has a prompt that is not null, and [sh_destroy] on it returns
    with the prompt null and the heap and the environment exactly as they
    were before [sh_init]. *)
Theorem sh_init_sh_destroy (s : shell) (w : world) (o : option shell)
    (w' : world) :
  sh_init (Some s) w = Ret o w' ->
  exists s' s'' w'',
    o = Some s' /\ prompt s' <> NULL /\
    sh_destroy (Some s') w' = Ret (Some s'') w'' /\
    prompt s'' = NULL /\
    heap w'' = heap w /\ environ w'' = environ w.
Proof.
  intros H. destruct (sh_init_shape _ _ _ _ H) as (s1 & w1 & b & Hkeep & Hb & -> & ->).
  destruct Hkeep as (Hheap & Henv & _).
  eexists _, _, _. split; [reflexivity|]. split; [discriminate|].
  unfold sh_destroy. cbn [prompt set_prompt is_null].
  assert (Hlive : heap (set_heap (<[b := str_cells (prompt_text w)]> (heap w1)) w1) !! b
                  = Some (str_cells (prompt_text w)))
    by apply lookup_insert_eq.
  run (free_live _ _ _ Hlive).
  split; [reflexivity|]. split; [reflexivity|]. cbn [heap set_heap environ].
  split; [|exact Henv].
  rewrite delete_insert_id by exact Hb. exact Hheap.
Qed.

(** X15: [sh_init] never releases a prompt the session already has: run a
    second time on the session it returned, it installs another block and
    the first one stays allocated with nothing pointing at it, also after
    [sh_destroy], which leaves the heap as it was after the first
    [sh_init]. *)
Theorem sh_init_again_leaks (s s1 : shell) (w w1 : world) (o2 : option shell)
    (w2 : world) :
  sh_init (Some s) w = Ret (Some s1) w1 ->
  sh_init (Some s1) w1 = Ret o2 w2 ->
  exists b s2 s3 w3,
    prompt s1 = Ptr b 0 /\ heap w !! b = None /\ is_Some (heap w1 !! b) /\
    o2 = Some s2 /\ prompt s2 <> prompt s1 /\ prompt s2 <> NULL /\
    sh_destroy (Some s2) w2 = Ret (Some s3) w3 /\
    prompt s3 = NULL /\
    heap w3 = heap w1.
Proof.
  intros H1 H2.
  destruct (sh_init_shape _ _ _ _ H1) as (sa & wa & b & Hka & Hb & Hs1 & ->).
  destruct (sh_init_shape _ _ _ _ H2) as (sb & wb & b2 & Hkb & Hb2 & -> & ->).
  inversion Hs1; subst s1. clear Hs1.
  destruct Hka as (Hha & _). destruct Hkb as (Hhb & _).
  cbn [heap set_heap] in *.
  assert (Hne : b2 <> b).
  { intros ->. rewrite Hhb, lookup_insert_eq in Hb2. discriminate. }
  eexists b, _, _, _. split; [reflexivity|].
  split; [rewrite <- Hha; exact Hb|].
  split; [rewrite lookup_insert_eq; eauto|].
  split; [reflexivity|]. cbn [prompt set_prompt].
  split; [congruence|]. split; [discriminate|].
  unfold sh_destroy. cbn [prompt set_prompt is_null].
  assert (Hlive : heap (set_heap (<[b2 := str_cells
                                     (prompt_text
                                        (set_heap (<[b := str_cells (prompt_text w)]>
                                                     (heap wa)) wa))]>
                                    (heap wb)) wb) !! b2
                  = Some (str_cells
                            (prompt_text
                               (set_heap (<[b := str_cells (prompt_text w)]>
                                            (heap wa)) wa))))
    by apply lookup_insert_eq.
  run (free_live _ _ _ Hlive).
  split; [reflexivity|]. split; [reflexivity|]. cbn [heap set_heap].
  rewrite delete_insert_id by exact Hb2. exact Hhb.
Qed.

Lemma sh_init_skips_terminal_witness :
  (* on a terminal, bypassed *)
  ((k_isatty (sys (tty_world None (env_of [(lit "SKIP_TC", lit "1")]))) STDIN_FILENO
      = false \/
    environ (tty_world None (env_of [(lit "SKIP_TC", lit "1")])) !! lit "SKIP_TC"
      = Some (lit "1")) /\
   exists b,
     sh_init (Some demo_session) (tty_world None (env_of [(lit "SKIP_TC", lit "1")])) =
       Ret (Some (Shell 1%Z 7%Z 7%Z 0%Z (Ptr b 0)))
           (set_heap (<[b := str_cells (lit "shell>")]> ∅)
              (tty_world None (env_of [(lit "SKIP_TC", lit "1")])))) /\
  (* off a terminal *)
  ((k_isatty (sys (demo_world ∅ ∅)) STDIN_FILENO = false \/
    environ (demo_world ∅ ∅) !! lit "SKIP_TC" = Some (lit "1")) /\
   exists b,
     sh_init (Some demo_session) (demo_world ∅ ∅) =
       Ret (Some (Shell 0%Z 7%Z 7%Z 0%Z (Ptr b 0)))
           (set_heap (<[b := str_cells (lit "shell>")]> ∅)
              (set_errno 25%Z (demo_world ∅ ∅)))).
Proof.
  assert (H1 : k_isatty (sys (tty_world None (env_of [(lit "SKIP_TC", lit "1")])))
                 STDIN_FILENO = false \/
               environ (tty_world None (env_of [(lit "SKIP_TC", lit "1")])) !! lit "SKIP_TC"
                 = Some (lit "1")) by (right; vm_compute; reflexivity).
  assert (H2 : k_isatty (sys (demo_world ∅ ∅)) STDIN_FILENO = false \/
               environ (demo_world ∅ ∅) !! lit "SKIP_TC" = Some (lit "1"))
    by (left; reflexivity).
  split; (split; [assumption|]).
  - destruct (sh_init_skips_terminal demo_session _ H1) as (b & _ & Hr).
    exists b. exact Hr.
  - destruct (sh_init_skips_terminal demo_session _ H2) as (b & _ & Hr).
    exists b. exact Hr.
Defined.

Lemma sh_init_takes_terminal_witness :
  (* setpgid fails with EPERM *)
  sh_init (Some demo_session) (tty_world (Some 1%Z) ∅) =
    Exited 1
      (emit (Ev_perror
               (lit "sh_init: Couldn't put the shell in its own process group") 1%Z)
         (set_errno 1%Z (emit (Ev_setpgid 4242%Z 4242%Z) (tty_world (Some 1%Z) ∅)))) /\
  (* tcsetpgrp succeeds *)
  (exists b,
     sh_init (Some demo_session) (bg_world Tc_ok) =
       Ret (Some (Shell 1%Z 4242%Z 31%Z 0%Z (Ptr b 0)))
           (set_heap (<[b := str_cells (lit "shell>")]> ∅)
              (emit (Ev_tcsetpgrp 0%Z 4242%Z)
                 (emit (Ev_setpgid 4242%Z 4242%Z) (bg_world Tc_ok))))) /\
  (* tcsetpgrp fails with ENOTTY *)
  (exists b,
     sh_init (Some demo_session) (bg_world (Tc_error 25%Z)) =
       Ret (Some (Shell 1%Z 4242%Z 31%Z 0%Z (Ptr b 0)))
           (set_heap (<[b := str_cells (lit "shell>")]> ∅)
              (set_errno 25%Z
                 (emit (Ev_tcsetpgrp 0%Z 4242%Z)
                    (emit (Ev_setpgid 4242%Z 4242%Z) (bg_world (Tc_error 25%Z))))))) /\
  (* tcsetpgrp stops the process *)
  sh_init (Some demo_session) (bg_world Tc_stop) = Fault Stopped.
Proof.
  assert (Henv : forall k, environ (World ∅ ∅ NULL 0%Z (lit "/tmp") [] k)
                             !! lit "SKIP_TC" <> Some (lit "1"))
    by (intros k; vm_compute; discriminate).
  split; [|split; [|split]].
  - exact (proj1 (sh_init_takes_terminal demo_session (tty_world (Some 1%Z) ∅)
                    eq_refl (Henv _)) 1%Z eq_refl).
  - destruct (proj1 (proj2 (sh_init_takes_terminal demo_session (bg_world Tc_ok)
                              eq_refl (Henv _)) eq_refl) eq_refl) as (b & _ & Hr).
    exists b. exact Hr.
  - destruct (proj1 (proj2 (proj2 (sh_init_takes_terminal demo_session
                                     (bg_world (Tc_error 25%Z)) eq_refl (Henv _))
                              eq_refl)) 25%Z eq_refl) as (b & _ & Hr).
    exists b. exact Hr.
  - exact (proj2 (proj2 (proj2 (sh_init_takes_terminal demo_session (bg_world Tc_stop)
                                  eq_refl (Henv _)) eq_refl)) eq_refl).
Defined.

Lemma sh_init_sh_destroy_witness :
  exists o w',
    sh_init (Some demo_session) (tty_world None ∅) = Ret o w' /\
    exists s' s'' w'',
      o = Some s' /\ prompt s' <> NULL /\
      sh_destroy (Some s') w' = Ret (Some s'') w'' /\
      prompt s'' = NULL /\
      heap w'' = heap (tty_world None ∅) /\
      environ w'' = environ (tty_world None ∅).
Proof.
  destruct (sh_init (Some demo_session) (tty_world None ∅)) as [o w'|c w'|f] eqn:Hr;
    [|vm_compute in Hr; discriminate Hr..].
  exists o, w'. split; [reflexivity|].
  exact (sh_init_sh_destroy _ _ _ _ Hr).
Defined.

Lemma sh_init_again_leaks_witness :
  exists s1 w1 o2 w2,
    sh_init (Some demo_session) (tty_world None ∅) = Ret (Some s1) w1 /\
    sh_init (Some s1) w1 = Ret o2 w2 /\
    exists b s2 s3 w3,
      prompt s1 = Ptr b 0 /\ heap (tty_world None ∅) !! b = None /\
      is_Some (heap w1 !! b) /\
      o2 = Some s2 /\ prompt s2 <> prompt s1 /\ prompt s2 <> NULL /\
      sh_destroy (Some s2) w2 = Ret (Some s3) w3 /\
      prompt s3 = NULL /\
      heap w3 = heap w1.
Proof.
  destruct (sh_init (Some demo_session) (tty_world None ∅)) as [[s1|] w1|c w1|f] eqn:H1;
    [|vm_compute in H1; discriminate H1..].
  assert (H2 : exists o2 w2, sh_init (Some s1) w1 = Ret o2 w2).
  { vm_compute in H1. injection H1 as <- <-.
    vm_compute. eexists _, _. reflexivity. }
  destruct H2 as (o2 & w2 & H2).
  exists s1, w1, o2, w2. split; [reflexivity|]. split; [exact H2|].
  exact (sh_init_again_leaks _ _ _ _ _ _ H1 H2).
Defined.
